(** * Campaign Manager 2026: the simulation engine, embedded and verified

    The Python sources under [models/], [data/], [engine/] and [ai/] are
    embedded shallowly, one Rocq module per Python class or module.

    Conventions of the embedding:
    - Python [int] is [Z]; Python [str] is [string];
    - Python [float]: the engine is embedded over exact rationals ([Q],
      compared with [==]), with [round(x, 1)] the rounding to the nearest
      tenth, halves going to the even tenth; what depends on the last bit of
      a double is stated on IEEE 754 binary64 itself, module [Float], with
      [State64] the state model over it;
    - [dict[str, State]] is an association list in insertion order, assignment
      to a present key keeps its position and assignment to an absent key
      appends;
    - every dataclass update returns a new record, as in the source. *)

From Stdlib Require Import ZArith QArith Qround Qminmax Qabs Qpower.
From Stdlib Require Import List String Ascii Bool Lia Lqa.
From Stdlib Require Import DecimalString.
From Stdlib Require Import Permutation.
Import ListNotations.

Local Open Scope Z_scope.
Local Open Scope Q_scope.
Local Open Scope string_scope.

(** ** Numbers *)

Module Num.

(** [a <= b] and [a < b] on floats, as booleans. *)
Definition leb (a b : Q) : bool := Qle_bool a b.
Definition ltb (a b : Q) : bool := negb (Qle_bool b a).
Definition eqb (a b : Q) : bool := Qeq_bool a b.

(** [int -> float] conversion. *)
Definition of_int (z : Z) : Q := inject_Z z.

(** Nearest integer, halves to even: what [round] does on the exact value. *)
Definition round_half_even (q : Q) : Z :=
  let f := Qfloor q in
  match Qcompare (q - inject_Z f) (1 # 2) with
  | Lt => f
  | Gt => (f + 1)%Z
  | Eq => if Z.even f then f else (f + 1)%Z
  end.

(** [round(x, 1)]. *)
Definition round1 (x : Q) : Q := inject_Z (round_half_even (x * 10)) / 10.

(** [str(n)] for an [int]. *)
Definition str_int (z : Z) : string := NilZero.string_of_int (Z.to_int z).

(** [f"{x:.1f}"]: sign, integer part, one decimal digit. *)
Definition fmt1 (x : Q) : string :=
  let n := round_half_even (Qabs x * 10) in
  (if ltb x 0 then "-" else "")
    ++ str_int (n / 10) ++ "." ++ str_int (n mod 10).

End Num.

(** ** [models/state.py] *)

Module State.

Record t : Type := mk {
  name : string;
  abbreviation : string;
  electoral_votes : Z;
  incumbent_support : Q;
  challenger_support : Q;
  lean : string;
  region : string
}.

Definition undecided (s : t) : Q :=
  Qmax 0 (100 - incumbent_support s - challenger_support s).

Definition margin (s : t) : Q := incumbent_support s - challenger_support s.

Definition leader (s : t) : string :=
  if Num.ltb 0 (margin s) then "Incumbent"
  else if Num.ltb (margin s) 0 then "Challenger"
  else "Tied".

Definition competitive (s : t) : bool := Num.leb (Qabs (margin s)) 10.

Definition _calculate_lean (margin : Q) : string :=
  if Num.leb 15 margin then "Safe Inc"
  else if Num.leb 5 margin then "Lean Inc"
  else if Num.ltb (-5) margin then "Tossup"
  else if Num.ltb (-15) margin then "Lean Chl"
  else "Safe Chl".

(** The clamped and rescaled pair, before the final rounding. *)
Definition rescaled (s : t) (incumbent_change challenger_change : Q) : Q * Q :=
  let new_incumbent := Qmax 0 (Qmin 100 (incumbent_support s + incumbent_change)) in
  let new_challenger := Qmax 0 (Qmin 100 (challenger_support s + challenger_change)) in
  let total := new_incumbent + new_challenger in
  if Num.ltb 100 total then
    let ratio := 100 / total in
    (new_incumbent * ratio, new_challenger * ratio)
  else (new_incumbent, new_challenger).

Definition apply_support_change
    (s : t) (incumbent_change challenger_change : Q) : t :=
  let '(new_incumbent, new_challenger) :=
    rescaled s incumbent_change challenger_change in
  mk (name s) (abbreviation s) (electoral_votes s)
     (Num.round1 new_incumbent)
     (Num.round1 new_challenger)
     (_calculate_lean (new_incumbent - new_challenger))
     (region s).

End State.

(** ** [models/player.py] *)

Module Player.

Record t : Type := mk {
  name : string;
  is_incumbent : bool;
  funds : Z;
  momentum : Z;
  is_human : bool;
  MIN_MOMENTUM : Z;
  MAX_MOMENTUM : Z
}.

(** The constructor call [Player(name=..., ..., is_human=...)]: the two
    bounds take their dataclass defaults. *)
Definition new (name : string) (is_incumbent : bool) (funds momentum : Z)
    (is_human : bool) : t :=
  mk name is_incumbent funds momentum is_human (-100) 100.

Definition momentum_modifier (p : t) : Q := 1 + Num.of_int (momentum p) / 200.

Definition momentum_description (p : t) : string :=
  if (50 <=? momentum p)%Z then "Surging"
  else if (20 <=? momentum p)%Z then "Rising"
  else if (-20 <=? momentum p)%Z then "Steady"
  else if (-50 <=? momentum p)%Z then "Falling"
  else "Collapsing".

Definition funds_display (p : t) : string := "$" ++ Num.str_int (funds p) ++ "M".

Definition can_afford (p : t) (cost : Z) : bool := (cost <=? funds p)%Z.

(** [spend_funds] raises [ValueError] when the amount exceeds the funds. *)
Definition spend_funds (p : t) (amount : Z) : option t :=
  if (funds p <? amount)%Z then None
  else Some (new (name p) (is_incumbent p) (funds p - amount) (momentum p)
                 (is_human p)).

Definition add_funds (p : t) (amount : Z) : t :=
  new (name p) (is_incumbent p) (funds p + amount) (momentum p) (is_human p).

Definition clamp_momentum (p : t) (m : Z) : Z :=
  Z.max (MIN_MOMENTUM p) (Z.min (MAX_MOMENTUM p) m).

Definition adjust_momentum (p : t) (change : Z) : t :=
  new (name p) (is_incumbent p) (funds p)
      (clamp_momentum p (momentum p + change)) (is_human p).

Definition update (p : t) (funds_change momentum_change : Z) : t :=
  let new_funds := Z.max 0 (funds p + funds_change) in
  let new_momentum := clamp_momentum p (momentum p + momentum_change) in
  new (name p) (is_incumbent p) new_funds new_momentum (is_human p).

End Player.

(** ** [models/actions.py] *)

Inductive ActionType : Type :=
| FUNDRAISER
| RALLY
| AD_CAMPAIGN
| GRASSROOTS
| DEBATE_PREP
| OPPOSITION_RESEARCH
| MEDIA_BLITZ.

Definition ActionType_eqb (a b : ActionType) : bool :=
  match a, b with
  | FUNDRAISER, FUNDRAISER | RALLY, RALLY | AD_CAMPAIGN, AD_CAMPAIGN
  | GRASSROOTS, GRASSROOTS | DEBATE_PREP, DEBATE_PREP
  | OPPOSITION_RESEARCH, OPPOSITION_RESEARCH | MEDIA_BLITZ, MEDIA_BLITZ => true
  | _, _ => false
  end.

Module ActionDefinition.

Record t : Type := mk {
  action_type : ActionType;
  name : string;
  description : string;
  cost : Z;
  base_support_change : Q;
  momentum_change : Z;
  target_states : Z
}.

Definition display_cost (d : t) : string := "$" ++ Num.str_int (cost d) ++ "M".

End ActionDefinition.

(** [ACTION_DEFINITIONS[action_type]]: the table is total on the enum. *)
Definition get_action_definition (a : ActionType) : ActionDefinition.t :=
  match a with
  | FUNDRAISER =>
      ActionDefinition.mk FUNDRAISER "Fundraiser"
        "Host a fundraising event to replenish campaign funds"
        0 0 (-5) 0
  | RALLY =>
      ActionDefinition.mk RALLY "Campaign Rally"
        "Hold a rally in a target state to boost support"
        2 3 5 1
  | AD_CAMPAIGN =>
      ActionDefinition.mk AD_CAMPAIGN "Ad Campaign"
        "Run targeted TV and digital ads in multiple states"
        4 2 3 3
  | GRASSROOTS =>
      ActionDefinition.mk GRASSROOTS "Grassroots Organizing"
        "Deploy volunteers for door-to-door canvassing"
        1 (15 # 10) 2 2
  | DEBATE_PREP =>
      ActionDefinition.mk DEBATE_PREP "Debate Preparation"
        "Prepare for upcoming debates with policy briefings"
        1 0 10 0
  | OPPOSITION_RESEARCH =>
      ActionDefinition.mk OPPOSITION_RESEARCH "Opposition Research"
        "Investigate opponent's record for attack ads"
        3 (-(25 # 10)) 0 0
  | MEDIA_BLITZ =>
      ActionDefinition.mk MEDIA_BLITZ "Media Blitz"
        "Intensive media appearances across networks"
        3 (15 # 10) 8 0
  end.

Definition get_all_actions : list ActionDefinition.t :=
  map get_action_definition
    [FUNDRAISER; RALLY; AD_CAMPAIGN; GRASSROOTS; DEBATE_PREP;
     OPPOSITION_RESEARCH; MEDIA_BLITZ].

Module ActionResult.

Record t : Type := mk {
  action_type : ActionType;
  success : bool;
  message : string;
  funds_spent : Z;
  funds_raised : Z;
  support_changes : list (string * Q);
  momentum_change : Z;
  affected_states : list string
}.

Definition net_funds_change (r : t) : Z := (funds_raised r - funds_spent r)%Z.

End ActionResult.

(** ** [models/events.py] *)

Inductive EventType : Type :=
| SCANDAL
| ECONOMIC
| ENDORSEMENT
| GAFFE
| CRISIS
| VIRAL.

Module GameEvent.

Record t : Type := mk {
  event_type : EventType;
  title : string;
  description : string;
  affects_incumbent : bool;
  support_change : Q;
  momentum_change : Z;
  affected_states : list string;
  turn_occurred : Z
}.

Definition is_national (e : t) : bool :=
  match affected_states e with
  | [] => true
  | _ :: _ => false
  end.

Definition impact_description (e : t) : string :=
  let target := if affects_incumbent e then "Incumbent" else "Challenger" in
  if Num.ltb 0 (support_change e) then target ++ " gains support"
  else if Num.ltb (support_change e) 0 then target ++ " loses support"
  else "Affects " ++ target ++ "'s momentum".

End GameEvent.

(** [EVENT_TEMPLATES[event_type]], each list given as head and tail since
    none is empty. *)
Definition EVENT_TEMPLATES (ty : EventType)
    : (string * string) * list (string * string) :=
  match ty with
  | SCANDAL =>
      (("Campaign Finance Questions",
        "Irregularities discovered in campaign donations"),
       [("Staff Controversy",
         "Senior campaign staffer resigns amid allegations");
        ("Past Statement Resurfaces",
         "Old social media posts cause controversy")])
  | ECONOMIC =>
      (("Jobs Report Released",
        "Monthly employment numbers shift the narrative"),
       [("Stock Market Swing", "Market volatility becomes campaign issue");
        ("Inflation Data", "New inflation figures dominate headlines")])
  | ENDORSEMENT =>
      (("Celebrity Endorsement", "Major celebrity publicly backs candidate"),
       [("Union Endorsement", "Powerful labor union announces support");
        ("Newspaper Endorsement",
         "Influential newspaper editorial board weighs in");
        ("Former Rival Endorsement", "Primary opponent endorses candidate")])
  | GAFFE =>
      (("Hot Mic Moment", "Candidate caught saying something regrettable"),
       [("Debate Stumble", "Awkward moment goes viral from debate");
        ("Geography Gaffe", "Candidate mixes up state facts")])
  | CRISIS =>
      (("Natural Disaster", "Hurricane/wildfire tests crisis leadership"),
       [("International Incident", "Foreign policy crisis emerges");
        ("Public Health Issue", "Health emergency requires response")])
  | VIRAL =>
      (("Campaign Ad Goes Viral", "Ad resonates unexpectedly with voters"),
       [("Meme Magic", "Candidate becomes positive internet sensation");
        ("Town Hall Moment",
         "Emotional exchange with voter spreads online")])
  end.

(** ** Dictionaries keyed by strings, in insertion order *)

Module Dict.

Section WithValues.
Context {V : Type}.

Definition t := list (string * V).

Fixpoint get (d : list (string * V)) (k : string) : option V :=
  match d with
  | [] => None
  | (k', v) :: d' => if String.eqb k k' then Some v else get d' k
  end.

(** [k in d]. *)
Definition mem (d : list (string * V)) (k : string) : bool :=
  match get d k with
  | Some _ => true
  | None => false
  end.

(** [d[k] = v]. *)
Fixpoint set (d : list (string * V)) (k : string) (v : V)
    : list (string * V) :=
  match d with
  | [] => [(k, v)]
  | (k', v') :: d' =>
      if String.eqb k k' then (k', v) :: d' else (k', v') :: set d' k v
  end.

Definition keys (d : list (string * V)) : list string := map fst d.
Definition values (d : list (string * V)) : list V := map snd d.

(** [for k, v in d.items(): d[k] = f(v)]: every value is replaced in place. *)
Definition map_values (f : V -> V) (d : list (string * V))
    : list (string * V) :=
  map (fun kv => (fst kv, f (snd kv))) d.

End WithValues.

Arguments t : clear implicits.

End Dict.

(** [sum(...)]; addition is exact here, so the order of summation is
    immaterial. *)
Definition sum_Z (l : list Z) : Z := fold_right Z.add 0%Z l.
Definition sum_Q (l : list Q) : Q := fold_right Qplus 0 l.

(** [str.upper()] on ASCII text. *)
Definition upper_ascii (c : ascii) : ascii :=
  let n := nat_of_ascii c in
  if (97 <=? n)%nat && (n <=? 122)%nat then ascii_of_nat (n - 32) else c.

Fixpoint upper (s : string) : string :=
  match s with
  | EmptyString => EmptyString
  | String c s' => String (upper_ascii c) (upper s')
  end.

(** ** [models/game_state.py] *)

Module GameState.

Record t : Type := mk {
  incumbent : Player.t;
  challenger : Player.t;
  states : Dict.t State.t;
  current_turn : Z;
  max_turns : Z;
  events_log : list GameEvent.t;
  game_over : bool;
  winner : option string;
  VOTES_TO_WIN : Z
}.

(** The constructor call [GameState(incumbent=..., ..., winner=...)]:
    [VOTES_TO_WIN] takes its default. *)
Definition new (incumbent challenger : Player.t) (states : Dict.t State.t)
    (current_turn max_turns : Z) (events_log : list GameEvent.t)
    (game_over : bool) (winner : option string) : t :=
  mk incumbent challenger states current_turn max_turns events_log game_over
     winner 270.

Definition turns_remaining (g : t) : Z :=
  (max_turns g - current_turn g + 1)%Z.

Definition incumbent_wins (s : State.t) : bool :=
  Num.ltb (State.challenger_support s) (State.incumbent_support s).
Definition challenger_wins (s : State.t) : bool :=
  Num.ltb (State.incumbent_support s) (State.challenger_support s).
Definition tied (s : State.t) : bool :=
  Num.eqb (State.incumbent_support s) (State.challenger_support s).

Definition incumbent_electoral_votes (g : t) : Z :=
  sum_Z (map State.electoral_votes
           (filter incumbent_wins (Dict.values (states g)))).

Definition challenger_electoral_votes (g : t) : Z :=
  sum_Z (map State.electoral_votes
           (filter challenger_wins (Dict.values (states g)))).

Definition tied_electoral_votes (g : t) : Z :=
  sum_Z (map State.electoral_votes (filter tied (Dict.values (states g)))).

Definition total_electoral_votes (g : t) : Z :=
  sum_Z (map State.electoral_votes (Dict.values (states g))).

Definition competitive_states (g : t) : list State.t :=
  filter State.competitive (Dict.values (states g)).

Definition get_state (g : t) (abbreviation : string) : option State.t :=
  Dict.get (states g) (upper abbreviation).

Definition get_states_by_region (g : t) (region : string) : list State.t :=
  filter (fun s => String.eqb (State.region s) region) (Dict.values (states g)).

Definition update_state (g : t) (state : State.t) : t :=
  new (incumbent g) (challenger g)
      (Dict.set (states g) (State.abbreviation state) state)
      (current_turn g) (max_turns g) (events_log g) (game_over g) (winner g).

Definition add_event (g : t) (event : GameEvent.t) : t :=
  new (incumbent g) (challenger g) (states g) (current_turn g) (max_turns g)
      (events_log g ++ [event]) (game_over g) (winner g).

Definition advance_turn (g : t) : t :=
  new (incumbent g) (challenger g) (states g) (current_turn g + 1)%Z
      (max_turns g) (events_log g) (game_over g) (winner g).

Definition end_game (g : t) (winner : string) : t :=
  new (incumbent g) (challenger g) (states g) (current_turn g) (max_turns g)
      (events_log g) true (Some winner).

Definition with_players (g : t) (incumbent challenger : option Player.t) : t :=
  new (match incumbent with Some p => p | None => GameState.incumbent g end)
      (match challenger with Some p => p | None => GameState.challenger g end)
      (states g) (current_turn g) (max_turns g) (events_log g) (game_over g)
      (GameState.winner g).

(** [events_log[-10:]]. *)
Definition recent_events (g : t) : list GameEvent.t :=
  skipn (List.length (events_log g) - 10) (events_log g).

(** The national polling averages.  An empty board answers 0; [None] stands
    for the [ZeroDivisionError] raised when the board is not empty and its
    electoral votes total zero. *)
Definition national_polling (support : State.t -> Q) (g : t) : option Q :=
  match states g with
  | [] => Some 0
  | _ :: _ =>
      let total_support :=
        sum_Q (map (fun s => support s * Num.of_int (State.electoral_votes s))
                 (Dict.values (states g))) in
      if (total_electoral_votes g =? 0)%Z then None
      else Some (total_support / Num.of_int (total_electoral_votes g))
  end.

Definition incumbent_national_polling : t -> option Q :=
  national_polling State.incumbent_support.

Definition challenger_national_polling : t -> option Q :=
  national_polling State.challenger_support.

End GameState.

(** ** [data/states_data.py] *)

Definition INITIAL_STATES_CONFIG
    : list (string * string * Z * Q * Q * string * string) :=
  [ ("California", "CA", 54%Z, 58, 38, "Safe Inc", "West");
    ("New York", "NY", 28%Z, 56, 40, "Safe Inc", "Northeast");
    ("Illinois", "IL", 19%Z, 55, 41, "Safe Inc", "Midwest");
    ("Blue Coalition", "BC", 127%Z, 52, 44, "Lean Inc", "Multiple");
    ("Florida", "FL", 30%Z, 48, 48, "Tossup", "South");
    ("Pennsylvania", "PA", 19%Z, 49, 47, "Tossup", "Northeast");
    ("Georgia", "GA", 16%Z, 47, 49, "Tossup", "South");
    ("Michigan", "MI", 15%Z, 485 # 10, 475 # 10, "Tossup", "Midwest");
    ("Arizona", "AZ", 11%Z, 47, 48, "Tossup", "West");
    ("Wisconsin", "WI", 10%Z, 48, 48, "Tossup", "Midwest");
    ("Ohio", "OH", 17%Z, 44, 52, "Lean Chl", "Midwest");
    ("North Carolina", "NC", 16%Z, 45, 51, "Lean Chl", "South");
    ("Texas", "TX", 40%Z, 42, 54, "Safe Chl", "South");
    ("Red Coalition", "RC", 136%Z, 38, 58, "Safe Chl", "Multiple") ].

Definition create_initial_states : Dict.t State.t :=
  fold_left
    (fun states '(name, abbrev, evs, inc_sup, chl_sup, lean, region) =>
       Dict.set states abbrev
         (State.mk name abbrev evs inc_sup chl_sup lean region))
    INITIAL_STATES_CONFIG [].

Definition INITIAL_STATES : Dict.t State.t := create_initial_states.

Definition get_total_electoral_votes : Z :=
  sum_Z (map State.electoral_votes (Dict.values INITIAL_STATES)).

(** ** Python built-ins used by the engine *)

(** [l[:n]]. *)
Definition slice_to {A : Type} (l : list A) (n : Z) : list A :=
  if (0 <=? n)%Z then firstn (Z.to_nat n) l
  else firstn (List.length l - Z.to_nat (- n)) l.

(** [sorted(l, key=key)] for float keys: stable, ascending. *)
Section Sorted.
Context {A : Type} (key : A -> Q).

Fixpoint insert_by (x : A) (l : list A) : list A :=
  match l with
  | [] => [x]
  | y :: l' =>
      if Num.ltb (key y) (key x) then y :: insert_by x l' else x :: y :: l'
  end.

Definition sorted_by (l : list A) : list A := fold_right insert_by [] l.

End Sorted.

(** [sorted(l, key=...)] for any key type, given the strict order [lt] of the
    keys as a test on the elements: stable, ascending for [lt].  Sorting with
    [reverse=True] is the same sort for the converse order, equal keys still
    keeping their original order. *)
Section SortedWith.
Context {A : Type} (lt : A -> A -> bool).

Fixpoint insert_with (x : A) (l : list A) : list A :=
  match l with
  | [] => [x]
  | y :: l' => if lt y x then y :: insert_with x l' else x :: y :: l'
  end.

Definition sorted_with (l : list A) : list A := fold_right insert_with [] l.

End SortedWith.

(** Exceptions raised by the engine, and results of calls that may raise. *)
Inductive exn : Type :=
| RuntimeError (msg : string)
| ZeroDivisionError.

Inductive result (A : Type) : Type :=
| Ok (a : A)
| Raise (e : exn).

Arguments Ok {A} a.
Arguments Raise {A} e.

(** ** Python's [float]: IEEE 754 binary64

    A double is a finite value, an infinity or a NaN.  A finite double is a
    rational [m * 2^e] with [|m| < 2^53] and [-1074 <= e <= 971]; the sign of
    a zero is not kept, no operation below depends on it.  Every arithmetic
    operation returns the double nearest to the exact result, halves going to
    the even significand, and an infinity from [2^1024] on. *)

Module Float.

Inductive t : Type :=
| Finite (q : Q)
| Infinity (negative : bool)
| NaN.

Definition pow2 (e : Z) : Q := 2 ^ e.

(** The largest [k] with [2^k <= |q|], for [q] other than zero. *)
Definition ilog2 (q : Q) : Z :=
  let k := (Z.log2 (Z.abs (Qnum q)) - Z.log2 (Z.pos (Qden q)))%Z in
  if Qle_bool (pow2 k) (Qabs q) then k else (k - 1)%Z.

(** The exponent of the last bit of the doubles around [q]: 53 significant
    bits, and no exponent below that of the subnormals. *)
Definition ulp_exponent (q : Q) : Z := Z.max (ilog2 q - 52) (-1074).

(** Round to nearest, ties to even, the exponent not bounded above. *)
Definition nearest (q : Q) : Q :=
  let e := ulp_exponent q in
  inject_Z (Num.round_half_even (q / pow2 e)) * pow2 e.

(** The double for the exact value [q]: what an arithmetic operation returns
    and what a literal denotes. *)
Definition of_Q (q : Q) : t :=
  let r := nearest q in
  if Qle_bool (pow2 1024) (Qabs r) then Infinity (Qle_bool r 0) else Finite r.

(** An [int] of fewer than 54 bits, as a float. *)
Definition of_int (z : Z) : t := Finite (inject_Z z).

Definition opp (a : t) : t :=
  match a with
  | Finite x => Finite (- x)
  | Infinity s => Infinity (negb s)
  | NaN => NaN
  end.

Definition add (a b : t) : t :=
  match a, b with
  | NaN, _ | _, NaN => NaN
  | Finite x, Finite y => of_Q (x + y)
  | Infinity s, Finite _ | Finite _, Infinity s => Infinity s
  | Infinity s, Infinity s' => if Bool.eqb s s' then Infinity s else NaN
  end.

Definition sub (a b : t) : t := add a (opp b).

Definition is_zero (a : t) : bool :=
  match a with
  | Finite x => Qeq_bool x 0
  | _ => false
  end.

Definition negative (a : t) : bool :=
  match a with
  | Finite x => negb (Qle_bool 0 x)
  | Infinity s => s
  | NaN => false
  end.

Definition mul (a b : t) : t :=
  match a, b with
  | NaN, _ | _, NaN => NaN
  | Finite x, Finite y => of_Q (x * y)
  | Infinity _, _ | _, Infinity _ =>
      if is_zero a || is_zero b then NaN
      else Infinity (xorb (negative a) (negative b))
  end.

(** [a / b]: Python raises on a zero divisor. *)
Definition div (a b : t) : result t :=
  if is_zero b then Raise ZeroDivisionError
  else
    Ok match a, b with
       | NaN, _ | _, NaN => NaN
       | Finite x, Finite y => of_Q (x / y)
       | Infinity _, Infinity _ => NaN
       | Infinity _, Finite _ => Infinity (xorb (negative a) (negative b))
       | Finite _, Infinity _ => Finite 0
       end.

(** [a < b] and [a <= b]; a comparison with a NaN is false. *)
Definition ltb (a b : t) : bool :=
  match a, b with
  | NaN, _ | _, NaN => false
  | Finite x, Finite y => Num.ltb x y
  | Finite _, Infinity s => negb s
  | Infinity s, Finite _ => s
  | Infinity s, Infinity s' => s && negb s'
  end.

Definition leb (a b : t) : bool :=
  match a, b with
  | NaN, _ | _, NaN => false
  | Finite x, Finite y => Num.leb x y
  | Finite _, Infinity s => negb s
  | Infinity s, Finite _ => s
  | Infinity s, Infinity s' => s || negb s'
  end.

(** The built-ins [max(a, b)] and [min(a, b)]: the second argument is
    returned only when it compares strictly beyond the first. *)
Definition max (a b : t) : t := if ltb a b then b else a.
Definition min (a b : t) : t := if ltb b a then b else a.

(** [round(x, 1)]: the exact value is rounded to the nearest tenth, halves
    to the even tenth, and the double for that decimal is returned; an
    infinity or a NaN is returned as it is. *)
Definition round1 (a : t) : t :=
  match a with
  | Finite x => of_Q (Num.round1 x)
  | _ => a
  end.

End Float.

(** ** [models/state.py] with its floats as doubles *)

Module State64.

Record t : Type := mk {
  name : string;
  abbreviation : string;
  electoral_votes : Z;
  incumbent_support : Float.t;
  challenger_support : Float.t;
  lean : string;
  region : string
}.

Definition _calculate_lean (margin : Float.t) : string :=
  if Float.leb (Float.of_int 15) margin then "Safe Inc"
  else if Float.leb (Float.of_int 5) margin then "Lean Inc"
  else if Float.ltb (Float.of_int (-5)) margin then "Tossup"
  else if Float.ltb (Float.of_int (-15)) margin then "Lean Chl"
  else "Safe Chl".

Definition apply_support_change
    (s : t) (incumbent_change challenger_change : Float.t) : result t :=
  let new_incumbent :=
    Float.max (Float.of_int 0)
      (Float.min (Float.of_int 100)
         (Float.add (incumbent_support s) incumbent_change)) in
  let new_challenger :=
    Float.max (Float.of_int 0)
      (Float.min (Float.of_int 100)
         (Float.add (challenger_support s) challenger_change)) in
  let total := Float.add new_incumbent new_challenger in
  let rescaled :=
    if Float.ltb (Float.of_int 100) total then
      match Float.div (Float.of_int 100) total with
      | Ok ratio =>
          Ok (Float.mul new_incumbent ratio, Float.mul new_challenger ratio)
      | Raise e => Raise e
      end
    else Ok (new_incumbent, new_challenger) in
  match rescaled with
  | Ok (new_incumbent, new_challenger) =>
      Ok (mk (name s) (abbreviation s) (electoral_votes s)
            (Float.round1 new_incumbent)
            (Float.round1 new_challenger)
            (_calculate_lean (Float.sub new_incumbent new_challenger))
            (region s))
  | Raise e => Raise e
  end.

End State64.

(** ** The [random] module

    The generator of Python's standard library is not part of the
    repository.  A generator is modelled by the sequence of 53-bit words it
    will produce and a cursor into it; seeding replaces the sequence by the
    one the algorithm [twister] assigns to the seed, so a seeded generator is
    a function of its seed alone, and an unseeded one starts from whatever
    the operating system supplied. *)

Module Random.

Record t : Type := mk {
  source : nat -> N;
  cursor : nat
}.

Definition seed (twister : Z -> nat -> N) (s : Z) (_ : t) : t :=
  mk (twister s) 0.

(** [random()]: a float in the half-open interval from 0 to 1. *)
Definition random (r : t) : Q * t :=
  let w := (source r (cursor r) mod 2 ^ 53)%N in
  (inject_Z (Z.of_N w) / inject_Z (2 ^ 53), mk (source r) (S (cursor r))).

(** An index below [n]. *)
Definition randbelow (n : Z) (r : t) : Z * t :=
  let '(u, r') := random r in (Qfloor (u * inject_Z n), r').

Definition randint (a b : Z) (r : t) : Z * t :=
  let '(i, r') := randbelow (b - a + 1) r in ((a + i)%Z, r').

Definition uniform (a b : Q) (r : t) : Q * t :=
  let '(u, r') := random r in (a + (b - a) * u, r').

(** [choice(seq)] on a non-empty sequence. *)
Definition choice {A : Type} (seq : A * list A) (r : t) : A * t :=
  let '(i, r') := randbelow (Z.of_nat (S (List.length (snd seq)))) r in
  (nth (Z.to_nat i) (fst seq :: snd seq) (fst seq), r').

Fixpoint remove_nth {A : Type} (n : nat) (l : list A) : list A :=
  match n, l with
  | _, [] => []
  | O, _ :: l' => l'
  | S n', x :: l' => x :: remove_nth n' l'
  end.

(** [sample(population, k)]: [k] distinct positions, drawn one by one. *)
Fixpoint sample {A : Type} (population : list A) (k : nat) (r : t)
    : list A * t :=
  match k, population with
  | O, _ | _, [] => ([], r)
  | S k', x :: _ =>
      let '(i, r1) := randbelow (Z.of_nat (List.length population)) r in
      let '(rest, r2) := sample (remove_nth (Z.to_nat i) population) k' r1 in
      (nth (Z.to_nat i) population x :: rest, r2)
  end.

End Random.

(** ** [engine/action_processor.py] *)

Module ActionProcessor.

Definition FUNDRAISER_MIN : Z := 3.
Definition FUNDRAISER_MAX : Z := 6.

(** The processor's only field is its generator [_rng]. *)
Definition seed := Random.seed.

Definition acting_player (game_state : GameState.t) (is_incumbent : bool)
    : Player.t :=
  if is_incumbent then GameState.incumbent game_state
  else GameState.challenger game_state.

(** The [GameState(...)] built at the end of every non-fundraiser action. *)
Definition rebuild (game_state : GameState.t) (is_incumbent : bool)
    (new_player : Player.t) (new_states : Dict.t State.t) : GameState.t :=
  if is_incumbent then
    GameState.new new_player (GameState.challenger game_state) new_states
      (GameState.current_turn game_state) (GameState.max_turns game_state)
      (GameState.events_log game_state) (GameState.game_over game_state)
      (GameState.winner game_state)
  else
    GameState.new (GameState.incumbent game_state) new_player new_states
      (GameState.current_turn game_state) (GameState.max_turns game_state)
      (GameState.events_log game_state) (GameState.game_over game_state)
      (GameState.winner game_state).

Definition _execute_fundraiser (rng : Random.t) (game_state : GameState.t)
    (is_incumbent : bool) (definition : ActionDefinition.t)
    : (GameState.t * ActionResult.t) * Random.t :=
  let '(funds_raised, rng') :=
    Random.randint FUNDRAISER_MIN FUNDRAISER_MAX rng in
  let player := acting_player game_state is_incumbent in
  let new_player :=
    Player.update player funds_raised
      (ActionDefinition.momentum_change definition) in
  let new_state :=
    if is_incumbent
    then GameState.with_players game_state (Some new_player) None
    else GameState.with_players game_state None (Some new_player) in
  (new_state,
   ActionResult.mk FUNDRAISER true
     ("Fundraiser raised $" ++ Num.str_int funds_raised ++ "M!")
     0 funds_raised [] (ActionDefinition.momentum_change definition) [],
   rng').

Definition _execute_opposition_research (game_state : GameState.t)
    (is_incumbent : bool) (definition : ActionDefinition.t)
    : GameState.t * ActionResult.t :=
  let player := acting_player game_state is_incumbent in
  let new_player :=
    Player.update player (- ActionDefinition.cost definition)
      (ActionDefinition.momentum_change definition) in
  let effectiveness := Player.momentum_modifier player in
  let effect := ActionDefinition.base_support_change definition * effectiveness in
  let new_states :=
    Dict.map_values
      (fun state =>
         if is_incumbent then State.apply_support_change state 0 effect
         else State.apply_support_change state effect 0)
      (GameState.states game_state) in
  let support_changes :=
    map (fun abbrev => (abbrev, effect))
      (Dict.keys (GameState.states game_state)) in
  (rebuild game_state is_incumbent new_player new_states,
   ActionResult.mk OPPOSITION_RESEARCH true
     ("Opposition research damages opponent by " ++ Num.fmt1 (Qabs effect)
        ++ "% nationally")
     (ActionDefinition.cost definition) 0 support_changes
     (ActionDefinition.momentum_change definition)
     (Dict.keys new_states)).

Definition _select_target_states (game_state : GameState.t)
    (is_incumbent : bool) (count : Z) : list string :=
  let states_by_margin :=
    sorted_by (fun x : string * State.t => Qabs (State.margin (snd x)))
      (GameState.states game_state) in
  map fst (slice_to states_by_margin count).

(** One round of the loop over the targets. *)
Definition target_step (is_incumbent : bool) (effect : Q)
    (acc : Dict.t State.t * Dict.t Q) (abbrev : string)
    : Dict.t State.t * Dict.t Q :=
  let '(new_states, support_changes) := acc in
  match Dict.get new_states abbrev with
  | Some state =>
      (Dict.set new_states abbrev
         (if is_incumbent then State.apply_support_change state effect 0
          else State.apply_support_change state 0 effect),
       Dict.set support_changes abbrev effect)
  | None => acc
  end.

Definition _execute_targeted_action (game_state : GameState.t)
    (is_incumbent : bool) (definition : ActionDefinition.t)
    (target_states : option (list string))
    : GameState.t * ActionResult.t :=
  let player := acting_player game_state is_incumbent in
  let target_states :=
    match target_states with
    | None | Some [] =>
        _select_target_states game_state is_incumbent
          (ActionDefinition.target_states definition)
    | Some ts => ts
    end in
  let target_states :=
    slice_to target_states (ActionDefinition.target_states definition) in
  let new_player :=
    Player.update player (- ActionDefinition.cost definition)
      (ActionDefinition.momentum_change definition) in
  let effectiveness := Player.momentum_modifier player in
  let effect := ActionDefinition.base_support_change definition * effectiveness in
  let '(new_states, support_changes) :=
    fold_left (target_step is_incumbent effect) target_states
      (GameState.states game_state, []) in
  (rebuild game_state is_incumbent new_player new_states,
   ActionResult.mk (ActionDefinition.action_type definition) true
     (ActionDefinition.name definition ++ " boosted support by "
        ++ Num.fmt1 effect ++ "% in " ++ String.concat ", " target_states)
     (ActionDefinition.cost definition) 0 support_changes
     (ActionDefinition.momentum_change definition)
     target_states).

Definition _execute_national_action (game_state : GameState.t)
    (is_incumbent : bool) (definition : ActionDefinition.t)
    : GameState.t * ActionResult.t :=
  let player := acting_player game_state is_incumbent in
  let new_player :=
    Player.update player (- ActionDefinition.cost definition)
      (ActionDefinition.momentum_change definition) in
  let effectiveness := Player.momentum_modifier player in
  let effect :=
    (ActionDefinition.base_support_change definition * effectiveness)
      * (1 # 2) in
  let new_states :=
    Dict.map_values
      (fun state =>
         if is_incumbent then State.apply_support_change state effect 0
         else State.apply_support_change state 0 effect)
      (GameState.states game_state) in
  let support_changes :=
    map (fun abbrev => (abbrev, effect))
      (Dict.keys (GameState.states game_state)) in
  (rebuild game_state is_incumbent new_player new_states,
   ActionResult.mk (ActionDefinition.action_type definition) true
     (ActionDefinition.name definition ++ " boosted national support by "
        ++ Num.fmt1 effect ++ "%")
     (ActionDefinition.cost definition) 0 support_changes
     (ActionDefinition.momentum_change definition)
     (Dict.keys new_states)).

Definition execute_action (rng : Random.t) (game_state : GameState.t)
    (action_type : ActionType) (is_incumbent : bool)
    (target_states : option (list string))
    : (GameState.t * ActionResult.t) * Random.t :=
  let definition := get_action_definition action_type in
  let player := acting_player game_state is_incumbent in
  if negb (Player.can_afford player (ActionDefinition.cost definition)) then
    (game_state,
     ActionResult.mk action_type false
       ("Cannot afford " ++ ActionDefinition.name definition ++ " (need $"
          ++ Num.str_int (ActionDefinition.cost definition) ++ "M, have "
          ++ Player.funds_display player ++ ")")
       0 0 [] 0 [],
     rng)
  else if ActionType_eqb action_type FUNDRAISER then
    _execute_fundraiser rng game_state is_incumbent definition
  else if ActionType_eqb action_type OPPOSITION_RESEARCH then
    (_execute_opposition_research game_state is_incumbent definition, rng)
  else if (0 <? ActionDefinition.target_states definition)%Z then
    (_execute_targeted_action game_state is_incumbent definition target_states,
     rng)
  else (_execute_national_action game_state is_incumbent definition, rng).

Definition get_affordable_actions (player : Player.t)
    : list ActionDefinition.t :=
  filter (fun a => Player.can_afford player (ActionDefinition.cost a))
    get_all_actions.

End ActionProcessor.

(** ** [engine/electoral_calculator.py] *)

Module ElectionResult.

Record t : Type := mk {
  winner : string;
  incumbent_evs : Z;
  challenger_evs : Z;
  incumbent_popular : Q;
  challenger_popular : Q;
  state_results : Dict.t string;
  margin : Z;
  is_landslide : bool
}.

End ElectionResult.

Module ElectoralCalculator.

Definition VOTES_TO_WIN : Z := 270.
Definition TOTAL_VOTES : Z := 538.
Definition LANDSLIDE_MARGIN : Z := 100.

Definition calculate_current_evs (game_state : GameState.t) : Z * Z * Z :=
  fold_left
    (fun '(incumbent_evs, challenger_evs, tied_evs) state =>
       if GameState.incumbent_wins state then
         ((incumbent_evs + State.electoral_votes state)%Z, challenger_evs,
          tied_evs)
       else if GameState.challenger_wins state then
         (incumbent_evs, (challenger_evs + State.electoral_votes state)%Z,
          tied_evs)
       else
         (incumbent_evs, challenger_evs,
          (tied_evs + State.electoral_votes state)%Z))
    (Dict.values (GameState.states game_state)) (0, 0, 0)%Z.

Definition get_state_winner (state : State.t) : option string :=
  if GameState.incumbent_wins state then Some "Incumbent"
  else if GameState.challenger_wins state then Some "Challenger"
  else None.

(** The tally kept by the loop of [calculate_final_result]; [coins] is the
    module-level generator of [random], which the method draws from. *)
Record tally : Type := mk_tally {
  t_incumbent_evs : Z;
  t_challenger_evs : Z;
  t_state_results : Dict.t string;
  t_coins : Random.t
}.

Definition to_incumbent (acc : tally) (abbrev : string) (state : State.t)
    (coins : Random.t) : tally :=
  mk_tally (t_incumbent_evs acc + State.electoral_votes state)%Z
    (t_challenger_evs acc)
    (Dict.set (t_state_results acc) abbrev "Incumbent") coins.

Definition to_challenger (acc : tally) (abbrev : string) (state : State.t)
    (coins : Random.t) : tally :=
  mk_tally (t_incumbent_evs acc)
    (t_challenger_evs acc + State.electoral_votes state)%Z
    (Dict.set (t_state_results acc) abbrev "Challenger") coins.

Definition assign (acc : tally) (item : string * State.t) : tally :=
  let '(abbrev, state) := item in
  if GameState.incumbent_wins state then
    to_incumbent acc abbrev state (t_coins acc)
  else if GameState.challenger_wins state then
    to_challenger acc abbrev state (t_coins acc)
  else
    let '(flip, coins') := Random.choice (true, [false]) (t_coins acc) in
    if flip then to_incumbent acc abbrev state coins'
    else to_challenger acc abbrev state coins'.

Definition decide_winner (incumbent_evs challenger_evs : Z) : string :=
  if (VOTES_TO_WIN <=? incumbent_evs)%Z then "Incumbent"
  else if (VOTES_TO_WIN <=? challenger_evs)%Z then "Challenger"
  else if (challenger_evs <? incumbent_evs)%Z then "Incumbent"
  else if (incumbent_evs <? challenger_evs)%Z then "Challenger"
  else "Incumbent".

(** Dividing by a zero total raises [ZeroDivisionError]; the coin flips have
    been drawn by then. *)
Definition calculate_final_result (coins : Random.t)
    (game_state : GameState.t) : result ElectionResult.t * Random.t :=
  let acc :=
    fold_left assign (GameState.states game_state)
      (mk_tally 0 0 [] coins) in
  let incumbent_evs := t_incumbent_evs acc in
  let challenger_evs := t_challenger_evs acc in
  let values := Dict.values (GameState.states game_state) in
  let total_evs := sum_Z (map State.electoral_votes values) in
  if (total_evs =? 0)%Z then (Raise ZeroDivisionError, t_coins acc)
  else
    let incumbent_popular :=
      sum_Q (map (fun s => State.incumbent_support s
                           * Num.of_int (State.electoral_votes s)) values)
        / Num.of_int total_evs in
    let challenger_popular :=
      sum_Q (map (fun s => State.challenger_support s
                           * Num.of_int (State.electoral_votes s)) values)
        / Num.of_int total_evs in
    let margin := (incumbent_evs - challenger_evs)%Z in
    let winner := decide_winner incumbent_evs challenger_evs in
    (Ok (ElectionResult.mk winner incumbent_evs challenger_evs
           (Num.round1 incumbent_popular) (Num.round1 challenger_popular)
           (t_state_results acc) margin
           (LANDSLIDE_MARGIN <=? Z.abs margin)%Z),
     t_coins acc).

Definition is_mathematically_eliminated (game_state : GameState.t)
    (for_incumbent : bool) : bool :=
  let values := Dict.values (GameState.states game_state) in
  if for_incumbent then
    (VOTES_TO_WIN <=?
       sum_Z (map State.electoral_votes
                (filter (fun s => Num.ltb 15 (State.challenger_support s
                                              - State.incumbent_support s))
                   values)))%Z
  else
    (VOTES_TO_WIN <=?
       sum_Z (map State.electoral_votes
                (filter (fun s => Num.ltb 15 (State.incumbent_support s
                                              - State.challenger_support s))
                   values)))%Z.

(** The loop of [get_path_to_victory] that adds states until enough votes
    are gathered. *)
Fixpoint gather (evs_needed : Z) (remaining : list (string * Z * Q))
    : list string :=
  match remaining with
  | [] => []
  | (abbrev, evs, _) :: remaining' =>
      abbrev ::
        (if (evs_needed - evs <=? 0)%Z then []
         else gather (evs_needed - evs) remaining')
  end.

(** Whether the candidate has strictly more support in the state. *)
Definition leads (for_incumbent : bool) (state : State.t) : bool :=
  if for_incumbent then GameState.incumbent_wins state
  else GameState.challenger_wins state.

(** The entry of [remaining] for a state not yet won. *)
Definition flip_entry (for_incumbent : bool) (item : string * State.t)
    : string * Z * Q :=
  let '(abbrev, state) := item in
  let margin :=
    if for_incumbent then
      State.challenger_support state - State.incumbent_support state
    else State.incumbent_support state - State.challenger_support state in
  let efficiency :=
    Num.of_int (State.electoral_votes state) / Qmax margin (1 # 10) in
  (abbrev, State.electoral_votes state, efficiency).

Definition get_path_to_victory (game_state : GameState.t)
    (for_incumbent : bool) : list string :=
  let current_evs :=
    fold_left
      (fun current_evs (item : string * State.t) =>
         if leads for_incumbent (snd item) then
           (current_evs + State.electoral_votes (snd item))%Z
         else current_evs)
      (GameState.states game_state) 0%Z in
  if (VOTES_TO_WIN <=? current_evs)%Z then []
  else
    let remaining :=
      map (flip_entry for_incumbent)
        (filter (fun item : string * State.t =>
                   negb (leads for_incumbent (snd item)))
           (GameState.states game_state)) in
    let remaining :=
      sorted_with
        (fun x y : string * Z * Q => Num.ltb (snd y) (snd x)) remaining in
    gather (VOTES_TO_WIN - current_evs) remaining.

End ElectoralCalculator.

(** ** [engine/event_generator.py] *)

Module EventGenerator.

Definition EVENT_PROBABILITY : Q := 4 # 10.

(** [EVENT_EFFECTS[event_type]]: the support range, then the momentum range. *)
Definition EVENT_EFFECTS (ty : EventType) : (Q * Q) * (Z * Z) :=
  match ty with
  | SCANDAL => ((-(4), -(2)), (-15, -5)%Z)
  | ECONOMIC => ((-(2), 2), (-10, 10)%Z)
  | ENDORSEMENT => ((15 # 10, 35 # 10), (5, 15)%Z)
  | GAFFE => ((-(3), -(1)), (-10, -5)%Z)
  | CRISIS => ((-(3), 3), (-5, 15)%Z)
  | VIRAL => ((1, 3), (5, 20)%Z)
  end.

Definition seed := Random.seed.

Definition generate_event (rng : Random.t) (game_state : GameState.t)
    : GameEvent.t * Random.t :=
  let '(event_type, rng) :=
    Random.choice (SCANDAL, [ECONOMIC; ENDORSEMENT; GAFFE; CRISIS; VIRAL])
      rng in
  let '((title, description), rng) :=
    Random.choice (EVENT_TEMPLATES event_type) rng in
  let '(affects_incumbent, rng) := Random.choice (true, [false]) rng in
  let '(support_range, momentum_range) := EVENT_EFFECTS event_type in
  let '(support_change, rng) :=
    Random.uniform (fst support_range) (snd support_range) rng in
  let '(momentum_change, rng) :=
    Random.randint (fst momentum_range) (snd momentum_range) rng in
  let '(u, rng) := Random.random rng in
  let '(affected_states, rng) :=
    if Num.ltb u (3 # 10) then
      let '(num_states, rng) := Random.randint 1 3 rng in
      let state_abbrevs := Dict.keys (GameState.states game_state) in
      Random.sample state_abbrevs
        (Nat.min (Z.to_nat num_states) (List.length state_abbrevs)) rng
    else ([], rng) in
  (GameEvent.mk event_type title description affects_incumbent
     (Num.round1 support_change) momentum_change affected_states
     (GameState.current_turn game_state),
   rng).

Definition maybe_generate_event (rng : Random.t) (game_state : GameState.t)
    : option GameEvent.t * Random.t :=
  let '(u, rng) := Random.random rng in
  if Num.ltb EVENT_PROBABILITY u then (None, rng)
  else
    let '(event, rng) := generate_event rng game_state in
    (Some event, rng).

(** One round of the loop over the listed states of a state-specific event. *)
Definition event_step (event : GameEvent.t) (new_states : Dict.t State.t)
    (abbrev : string) : Dict.t State.t :=
  match Dict.get new_states abbrev with
  | Some state =>
      Dict.set new_states abbrev
        (if GameEvent.affects_incumbent event then
           State.apply_support_change state (GameEvent.support_change event) 0
         else
           State.apply_support_change state 0 (GameEvent.support_change event))
  | None => new_states
  end.

Definition apply_event (game_state : GameState.t) (event : GameEvent.t)
    : GameState.t :=
  let new_incumbent :=
    if GameEvent.affects_incumbent event then
      Player.adjust_momentum (GameState.incumbent game_state)
        (GameEvent.momentum_change event)
    else GameState.incumbent game_state in
  let new_challenger :=
    if GameEvent.affects_incumbent event then GameState.challenger game_state
    else
      Player.adjust_momentum (GameState.challenger game_state)
        (GameEvent.momentum_change event) in
  let new_states :=
    if GameEvent.is_national event then
      let effect := GameEvent.support_change event * (1 # 2) in
      Dict.map_values
        (fun state =>
           if GameEvent.affects_incumbent event then
             State.apply_support_change state effect 0
           else State.apply_support_change state 0 effect)
        (GameState.states game_state)
    else
      fold_left (event_step event) (GameEvent.affected_states event)
        (GameState.states game_state) in
  GameState.new new_incumbent new_challenger new_states
    (GameState.current_turn game_state) (GameState.max_turns game_state)
    (GameState.events_log game_state ++ [event])
    (GameState.game_over game_state) (GameState.winner game_state).

Definition generate_crisis_event (rng : Random.t) (game_state : GameState.t)
    (affects_incumbent : bool) : GameEvent.t * Random.t :=
  let '((title, description), rng) :=
    Random.choice (EVENT_TEMPLATES CRISIS) rng in
  let effects := EVENT_EFFECTS CRISIS in
  let '(support_change, rng) :=
    Random.uniform (fst (fst effects)) (snd (fst effects)) rng in
  let '(momentum_change, rng) :=
    Random.randint (fst (snd effects)) (snd (snd effects)) rng in
  (GameEvent.mk CRISIS title description affects_incumbent
     (Num.round1 support_change) momentum_change []
     (GameState.current_turn game_state),
   rng).

End EventGenerator.

(** ** [ai/ai_opponent.py] *)

Inductive AIStrategy : Type :=
| AGGRESSIVE
| DEFENSIVE
| BALANCED
| FUNDRAISING.

Module AIOpponent.

Definition LOSING_THRESHOLD : Z := 30.
Definition WINNING_THRESHOLD : Z := 30.
Definition LOW_FUNDS_THRESHOLD : Z := 2.

Definition _calculate_evs (game_state : GameState.t) : Z * Z * Z :=
  fold_left
    (fun '(inc_evs, chl_evs, tied_evs) state =>
       if GameState.incumbent_wins state then
         ((inc_evs + State.electoral_votes state)%Z, chl_evs, tied_evs)
       else if GameState.challenger_wins state then
         (inc_evs, (chl_evs + State.electoral_votes state)%Z, tied_evs)
       else (inc_evs, chl_evs, (tied_evs + State.electoral_votes state)%Z))
    (Dict.values (GameState.states game_state)) (0, 0, 0)%Z.

Definition determine_strategy (game_state : GameState.t) : AIStrategy :=
  let challenger := GameState.challenger game_state in
  if (Player.funds challenger <? LOW_FUNDS_THRESHOLD)%Z then FUNDRAISING
  else
    let '(inc_evs, chl_evs, _) := _calculate_evs game_state in
    let ev_diff := (chl_evs - inc_evs)%Z in
    if (ev_diff <=? - LOSING_THRESHOLD)%Z then AGGRESSIVE
    else if (WINNING_THRESHOLD <=? ev_diff)%Z then DEFENSIVE
    else BALANCED.

(** The weight tables, in the order the dictionaries are written. *)
Definition AGGRESSIVE_WEIGHTS : list (ActionType * Q) :=
  [ (FUNDRAISER, 5 # 100); (RALLY, 15 # 100); (AD_CAMPAIGN, 25 # 100);
    (GRASSROOTS, 5 # 100); (DEBATE_PREP, 5 # 100);
    (OPPOSITION_RESEARCH, 30 # 100); (MEDIA_BLITZ, 15 # 100) ].

Definition DEFENSIVE_WEIGHTS : list (ActionType * Q) :=
  [ (FUNDRAISER, 10 # 100); (RALLY, 20 # 100); (AD_CAMPAIGN, 15 # 100);
    (GRASSROOTS, 25 # 100); (DEBATE_PREP, 20 # 100);
    (OPPOSITION_RESEARCH, 5 # 100); (MEDIA_BLITZ, 5 # 100) ].

Definition BALANCED_WEIGHTS : list (ActionType * Q) :=
  [ (FUNDRAISER, 10 # 100); (RALLY, 20 # 100); (AD_CAMPAIGN, 20 # 100);
    (GRASSROOTS, 15 # 100); (DEBATE_PREP, 10 # 100);
    (OPPOSITION_RESEARCH, 10 # 100); (MEDIA_BLITZ, 15 # 100) ].

Definition FUNDRAISING_WEIGHTS : list (ActionType * Q) :=
  [ (FUNDRAISER, 70 # 100); (RALLY, 5 # 100); (AD_CAMPAIGN, 5 # 100);
    (GRASSROOTS, 10 # 100); (DEBATE_PREP, 5 # 100);
    (OPPOSITION_RESEARCH, 0); (MEDIA_BLITZ, 5 # 100) ].

(** The AI's only field is its generator [_rng]. *)
Definition seed := Random.seed.

Definition _get_weights_for_strategy (strategy : AIStrategy)
    : list (ActionType * Q) :=
  match strategy with
  | AGGRESSIVE => AGGRESSIVE_WEIGHTS
  | DEFENSIVE => DEFENSIVE_WEIGHTS
  | BALANCED => BALANCED_WEIGHTS
  | FUNDRAISING => FUNDRAISING_WEIGHTS
  end.

(** The order of the sort key [(x[1], -x[2])]: closeness first, then
    electoral votes, larger first. *)
Definition closer (x y : string * Q * Z) : bool :=
  Num.ltb (snd (fst x)) (snd (fst y))
  || (Num.eqb (snd (fst x)) (snd (fst y)) && (- snd x <? - snd y)%Z).

Definition _select_target_states (game_state : GameState.t)
    (action_type : ActionType) : option (list string) :=
  let definition := get_action_definition action_type in
  if (ActionDefinition.target_states definition =? 0)%Z then None
  else
    let competitive :=
      map (fun item : string * State.t =>
             let margin :=
               State.incumbent_support (snd item)
               - State.challenger_support (snd item) in
             (fst item, Qabs margin, State.electoral_votes (snd item)))
        (GameState.states game_state) in
    let competitive := sorted_with (fun x y => closer x y) competitive in
    Some (map (fun x : string * Q * Z => fst (fst x))
            (slice_to competitive (ActionDefinition.target_states definition))).

(** The walk along the cumulative weights. *)
Fixpoint walk (roll cumulative : Q) (weights : list (ActionType * Q))
    : option ActionType :=
  match weights with
  | [] => None
  | (action_type, weight) :: weights' =>
      let cumulative := cumulative + weight in
      if Num.leb roll cumulative then Some action_type
      else walk roll cumulative weights'
  end.

Definition choose_action (rng : Random.t) (game_state : GameState.t)
    : (ActionType * option (list string)) * Random.t :=
  let strategy := determine_strategy game_state in
  let weights := _get_weights_for_strategy strategy in
  let challenger := GameState.challenger game_state in
  let affordable_weights :=
    filter
      (fun aw : ActionType * Q =>
         Player.can_afford challenger
           (ActionDefinition.cost (get_action_definition (fst aw))))
      weights in
  match affordable_weights with
  | [] => ((FUNDRAISER, None), rng)
  | _ :: _ =>
      let total_weight := sum_Q (map snd affordable_weights) in
      if Num.eqb total_weight 0 then ((FUNDRAISER, None), rng)
      else
        let '(u, rng') := Random.random rng in
        let roll := u * total_weight in
        match walk roll 0 affordable_weights with
        | Some action_type =>
            ((action_type, _select_target_states game_state action_type),
             rng')
        | None => ((FUNDRAISER, None), rng')
        end
  end.

Definition get_strategy_description (strategy : AIStrategy) : string :=
  match strategy with
  | AGGRESSIVE =>
      "Playing aggressively - focusing on attack ads and opposition research"
  | DEFENSIVE =>
      "Playing defensively - building grassroots support and preparing for debates"
  | BALANCED => "Taking a balanced approach - mixing offense and defense"
  | FUNDRAISING => "Focusing on fundraising - campaign coffers are low"
  end.

Definition evaluate_position (game_state : GameState.t) : string :=
  let '(inc_evs, chl_evs, _) := _calculate_evs game_state in
  if (270 <=? chl_evs)%Z then "Victory is within reach!"
  else if (inc_evs + 50 <=? chl_evs)%Z then
    "Commanding lead - maintain pressure"
  else if (inc_evs + 20 <=? chl_evs)%Z then "Solid lead - stay focused"
  else if (inc_evs - 20 <=? chl_evs)%Z then
    "Race is tight - every vote matters"
  else if (inc_evs - 50 <=? chl_evs)%Z then
    "Trailing - need to change the narrative"
  else "Significant deficit - time for bold moves".

End AIOpponent.

(** ** [engine/game_engine.py]

    The engine owns the generator of its action processor, the generator of
    its event generator, and the current game state.  The five observer
    callbacks are unset unless a caller installs them and cannot change what
    the engine returns; they are left out.  The electoral calculator draws
    its coin flips from the module-level generator of [random], which no
    engine owns: every method that reaches it takes that generator and hands
    it back. *)

Module GameEngine.

Record t : Type := mk {
  action_processor : Random.t;
  event_generator : Random.t;
  _game_state : option GameState.t
}.

(** [GameEngine(seed)].  [fresh_ap] and [fresh_eg] are the states in which
    [random.Random()] creates the two generators. *)
Definition init (twister : Z -> nat -> N) (fresh_ap fresh_eg : Random.t)
    (seed : option Z) : t :=
  match seed with
  | Some s =>
      mk (ActionProcessor.seed twister s fresh_ap)
         (EventGenerator.seed twister s fresh_eg) None
  | None => mk fresh_ap fresh_eg None
  end.

Definition game_state (e : t) : option GameState.t := _game_state e.

Definition new_game (e : t) (player_name challenger_name : string)
    : GameState.t * t :=
  let incumbent := Player.new player_name true 15 0 true in
  let challenger := Player.new challenger_name false 15 0 false in
  let gs :=
    GameState.new incumbent challenger create_initial_states 1 20 [] false
      None in
  (gs, mk (action_processor e) (event_generator e) (Some gs)).

Definition start_turn (e : t) : result GameState.t * t :=
  match _game_state e with
  | None =>
      (Raise (RuntimeError "Game not initialized. Call new_game() first."), e)
  | Some gs =>
      if GameState.game_over gs then
        (Raise (RuntimeError "Game is already over."), e)
      else
        let '(event, eg) :=
          EventGenerator.maybe_generate_event (event_generator e) gs in
        let gs' :=
          match event with
          | Some ev => EventGenerator.apply_event gs ev
          | None => gs
          end in
        (Ok gs', mk (action_processor e) eg (Some gs'))
  end.

Definition execute_as (is_incumbent : bool) (e : t)
    (action_type : ActionType) (target_states : option (list string))
    : result (GameState.t * ActionResult.t) * t :=
  match _game_state e with
  | None => (Raise (RuntimeError "Game not initialized."), e)
  | Some gs =>
      let '(gs', res, ap) :=
        ActionProcessor.execute_action (action_processor e) gs action_type
          is_incumbent target_states in
      (Ok (gs', res), mk ap (event_generator e) (Some gs'))
  end.

Definition execute_player_action := execute_as true.
Definition execute_ai_action := execute_as false.

Definition end_game (coins : Random.t) (e : t)
    : result GameState.t * t * Random.t :=
  match _game_state e with
  | None => (Raise (RuntimeError "Game not initialized."), e, coins)
  | Some gs =>
      match ElectoralCalculator.calculate_final_result coins gs with
      | (Ok res, coins') =>
          let gs' := GameState.end_game gs (ElectionResult.winner res) in
          (Ok gs', mk (action_processor e) (event_generator e) (Some gs'),
           coins')
      | (Raise x, coins') => (Raise x, e, coins')
      end
  end.

Definition end_turn (coins : Random.t) (e : t)
    : result GameState.t * t * Random.t :=
  match _game_state e with
  | None => (Raise (RuntimeError "Game not initialized."), e, coins)
  | Some gs =>
      if (GameState.max_turns gs <=? GameState.current_turn gs)%Z then
        end_game coins e
      else
        let gs' := GameState.advance_turn gs in
        (Ok gs', mk (action_processor e) (event_generator e) (Some gs'), coins)
  end.

Definition get_current_evs (e : t) : Z * Z * Z :=
  match _game_state e with
  | None => (0, 0, 0)%Z
  | Some gs => ElectoralCalculator.calculate_current_evs gs
  end.

Definition get_election_result (coins : Random.t) (e : t)
    : result (option ElectionResult.t) * Random.t :=
  match _game_state e with
  | None => (Ok None, coins)
  | Some gs =>
      if negb (GameState.game_over gs) then (Ok None, coins)
      else
        match ElectoralCalculator.calculate_final_result coins gs with
        | (Ok res, coins') => (Ok (Some res), coins')
        | (Raise x, coins') => (Raise x, coins')
        end
  end.

Definition is_game_over (e : t) : bool :=
  match _game_state e with
  | None => false
  | Some gs => GameState.game_over gs
  end.

Definition get_turn_info (e : t) : Z * Z * Z :=
  match _game_state e with
  | None => (0, 0, 0)%Z
  | Some gs =>
      (GameState.current_turn gs, GameState.max_turns gs,
       GameState.turns_remaining gs)
  end.

Definition get_affordable_actions (e : t) (for_incumbent : bool)
    : list ActionDefinition.t :=
  match _game_state e with
  | None => []
  | Some gs =>
      ActionProcessor.get_affordable_actions
        (if for_incumbent then GameState.incumbent gs
         else GameState.challenger gs)
  end.

End GameEngine.

(** ** Driving an engine

    A caller holds an engine and, beside it, the module-level generator of
    [random].  Each call below is one engine entry point; a call that raises
    leaves the engine as it was, and what it returns is dropped here. *)

Inductive call : Type :=
| NewGame (player_name challenger_name : string)
| StartTurn
| ExecutePlayerAction (action_type : ActionType)
    (target_states : option (list string))
| ExecuteAIAction (action_type : ActionType)
    (target_states : option (list string))
| EndTurn
| EndGame.

Definition world : Type := (GameEngine.t * Random.t)%type.

Definition step (w : world) (c : call) : world :=
  let '(e, coins) := w in
  match c with
  | NewGame player_name challenger_name =>
      (snd (GameEngine.new_game e player_name challenger_name), coins)
  | StartTurn => (snd (GameEngine.start_turn e), coins)
  | ExecutePlayerAction action_type target_states =>
      (snd (GameEngine.execute_player_action e action_type target_states),
       coins)
  | ExecuteAIAction action_type target_states =>
      (snd (GameEngine.execute_ai_action e action_type target_states), coins)
  | EndTurn =>
      let '(_, e', coins') := GameEngine.end_turn coins e in (e', coins')
  | EndGame =>
      let '(_, e', coins') := GameEngine.end_game coins e in (e', coins')
  end.

Definition run (calls : list call) (w : world) : world :=
  fold_left step calls w.

(** The worlds a caller can reach: a freshly constructed engine, then any
    sequence of calls. *)
Inductive reachable : world -> Prop :=
| reachable_init twister fresh_ap fresh_eg seed coins :
    reachable (GameEngine.init twister fresh_ap fresh_eg seed, coins)
| reachable_step w c : reachable w -> reachable (step w c).

(** The trajectory of game states an engine goes through under a sequence of
    calls, the state after each call. *)
Fixpoint trajectory (calls : list call) (w : world)
    : list (option GameState.t) :=
  match calls with
  | [] => []
  | c :: calls' =>
      let w' := step w c in
      GameEngine.game_state (fst w') :: trajectory calls' w'
  end.

(** ** Inputs used in the examples below *)

Definition michigan : State.t :=
  State.mk "Michigan" "MI" 15 (485 # 10) (475 # 10) "Tossup" "Midwest".

(** A game on the shipped board with chosen funds and momentum. *)
Definition game_with (inc_funds inc_momentum chl_funds chl_momentum : Z)
    : GameState.t :=
  GameState.new (Player.new "Incumbent" true inc_funds inc_momentum true)
    (Player.new "Challenger" false chl_funds chl_momentum false)
    create_initial_states 1 20 [] false None.

(** Generators whose every word is the same: the first always draws the
    lowest value (a coin flip gives [True]), the second the middle one (a
    coin flip gives [False]). *)
Definition always_low : Random.t := Random.mk (fun _ => 0%N) 0.
Definition always_mid : Random.t := Random.mk (fun _ => (2 ^ 52)%N) 0.

(** ** Notions the statements below are written with *)

(** The electoral votes of the states that satisfy [p]. *)
Definition votes_where (p : State.t -> bool) (l : list State.t) : Z :=
  sum_Z (map State.electoral_votes (filter p l)).

(** The three-way loop of [_calculate_evs] and [calculate_current_evs]. *)
Definition tally3 (acc : Z * Z * Z) (state : State.t) : Z * Z * Z :=
  let '(inc_evs, chl_evs, tied_evs) := acc in
  if GameState.incumbent_wins state then
    ((inc_evs + State.electoral_votes state)%Z, chl_evs, tied_evs)
  else if GameState.challenger_wins state then
    (inc_evs, (chl_evs + State.electoral_votes state)%Z, tied_evs)
  else (inc_evs, chl_evs, (tied_evs + State.electoral_votes state)%Z).

(** [b] says whether the state went to the incumbent. *)
Definition respects (s : State.t) (b : bool) : Prop :=
  (GameState.incumbent_wins s = true -> b = true)
  /\ (GameState.challenger_wins s = true -> b = false).

(** The electoral votes that an assignment [bs] of the states, one flag per
    state, gives to the incumbent ([who] true) or to the challenger. *)
Fixpoint votes_for (who : bool) (l : list State.t) (bs : list bool) : Z :=
  match l, bs with
  | s :: l', b :: bs' =>
      ((if Bool.eqb b who then State.electoral_votes s else 0)
       + votes_for who l' bs')%Z
  | _, _ => 0%Z
  end.

(** No state of the board has equal supports. *)
Definition untied (gs : GameState.t) : Prop :=
  Forall (fun s => GameState.tied s = false)
    (Dict.values (GameState.states gs)).

(** The abbreviation and electoral votes of every entry, in order. *)
Definition ev_table (d : Dict.t State.t) : list (string * Z) :=
  map (fun kv => (fst kv, State.electoral_votes (snd kv))) d.

(** The invariant carried along every call. *)
Definition board_kept (w : world) : Prop :=
  forall gs,
    GameEngine.game_state (fst w) = Some gs ->
    ev_table (GameState.states gs) = ev_table INITIAL_STATES.

(** A world after a new game and one rally in Florida. *)
Definition played_world : world :=
  run [NewGame "A" "B"; ExecutePlayerAction RALLY (Some ["FL"])]
    (GameEngine.init (fun _ _ => 0%N) always_low always_low None, always_low).

(** The acting player's support in a state, and the opponent's. *)
Definition own_support (is_incumbent : bool) (s : State.t) : Q :=
  if is_incumbent then State.incumbent_support s
  else State.challenger_support s.

Definition opponent_support (is_incumbent : bool) (s : State.t) : Q :=
  if is_incumbent then State.challenger_support s
  else State.incumbent_support s.

(** What opposition research does to one state. *)
Definition hurt (is_incumbent : bool) (effect : Q) (state : State.t)
    : State.t :=
  if is_incumbent then State.apply_support_change state 0 effect
  else State.apply_support_change state effect 0.

(** Every unrecognized abbreviation of [targets] is among the affected
    states of the result. *)
Definition lists_unrecognized (gs : GameState.t) (targets : list string)
    (r : ActionResult.t) : Prop :=
  forall k,
    In k targets ->
    Dict.mem (GameState.states gs) k = false ->
    In k (ActionResult.affected_states r).

(** What a targeted action does to one state, on the acting side. *)
Definition boost (is_incumbent : bool) (effect : Q) (state : State.t)
    : State.t :=
  if is_incumbent then State.apply_support_change state effect 0
  else State.apply_support_change state 0 effect.

(** How many times [k] occurs in [l]. *)
Definition occurrences (k : string) (l : list string) : nat :=
  count_occ string_dec l k.

(** The calls that neither start a game nor execute an action. *)
Definition quiet (c : call) : bool :=
  match c with
  | StartTurn | EndTurn | EndGame => true
  | NewGame _ _ | ExecutePlayerAction _ _ | ExecuteAIAction _ _ => false
  end.

(** The winner that the board of [gs] decides when none of its states is
    tied. *)
Definition standing_winner (gs : GameState.t) : string :=
  ElectoralCalculator.decide_winner
    (GameState.incumbent_electoral_votes gs)
    (GameState.challenger_electoral_votes gs).

(** The game of [w] is over, on the board of [gs0], and the stored winner is
    the one that board decides. *)
Definition result_stands (gs0 : GameState.t) (w : world) : Prop :=
  exists gs,
    GameEngine.game_state (fst w) = Some gs
    /\ GameState.game_over gs = true
    /\ GameState.states gs = GameState.states gs0
    /\ GameState.winner gs = Some (standing_winner gs0).

(** A world in which no state is tied: a new game, and the incumbent
    organizing in Florida and Wisconsin, the two states that start level. *)
Definition organized_world : world :=
  run [NewGame "A" "B"; ExecutePlayerAction GRASSROOTS (Some ["FL"; "WI"])]
    (GameEngine.init (fun _ _ => 0%N) always_low always_low None, always_low).

(** That game ended and then played on: the challenger runs ads in the same
    two states after [end_game]. *)
Definition overtime_world : world :=
  run [EndGame; ExecuteAIAction AD_CAMPAIGN (Some ["FL"; "WI"])]
    organized_world.

(** What a state is, as opposed to how it polls. *)
Definition static (s : State.t) : string * string * Z * string :=
  (State.name s, State.abbreviation s, State.electoral_votes s, State.region s).

(** The key and the static part of every entry, in order. *)
Definition static_table (d : Dict.t State.t)
    : list (string * (string * string * Z * string)) :=
  map (fun kv => (fst kv, static (snd kv))) d.

(** The fields of a game that no action touches. *)
Definition same_frame (gs gs' : GameState.t) : Prop :=
  GameState.current_turn gs' = GameState.current_turn gs
  /\ GameState.max_turns gs' = GameState.max_turns gs
  /\ GameState.events_log gs' = GameState.events_log gs
  /\ GameState.game_over gs' = GameState.game_over gs
  /\ GameState.winner gs' = GameState.winner gs.

(** No state of the board carries a negative number of electoral votes. *)
Definition votes_nonneg (gs : GameState.t) : Prop :=
  Forall (fun s => (0 <= State.electoral_votes s)%Z)
    (Dict.values (GameState.states gs)).

(** A game in which the challenger has spent 21 on seven rounds of
    opposition research. *)
Definition research (gs : GameState.t) : GameState.t :=
  fst (fst (ActionProcessor.execute_action always_low gs OPPOSITION_RESEARCH
              false None)).

Definition swept_game : GameState.t :=
  Nat.iter 7 research (game_with 15 0 21 0).

(** An event whose title and description come from the templates of its
    type, and whose two effects lie within the ranges of its type. *)
Definition event_in_range (ev : GameEvent.t) : Prop :=
  let effects := EventGenerator.EVENT_EFFECTS (GameEvent.event_type ev) in
  let templates := EVENT_TEMPLATES (GameEvent.event_type ev) in
  In (GameEvent.title ev, GameEvent.description ev)
     (fst templates :: snd templates)
  /\ fst (fst effects) <= GameEvent.support_change ev <= snd (fst effects)
  /\ (fst (snd effects) <= GameEvent.momentum_change ev
      <= snd (snd effects))%Z.

(** A player as the engine keeps it: funds not negative, momentum within the
    default bounds, which are the bounds the record carries. *)
Definition player_ok (p : Player.t) : Prop :=
  (0 <= Player.funds p)%Z
  /\ (-100 <= Player.momentum p <= 100)%Z
  /\ Player.MIN_MOMENTUM p = (-100)%Z
  /\ Player.MAX_MOMENTUM p = 100%Z.

(** A game as the engine keeps it. *)
Definition game_ok (gs : GameState.t) : Prop :=
  (player_ok (GameState.incumbent gs)
   /\ Player.is_incumbent (GameState.incumbent gs) = true)
  /\ (player_ok (GameState.challenger gs)
      /\ Player.is_incumbent (GameState.challenger gs) = false)
  /\ static_table (GameState.states gs) = static_table INITIAL_STATES
  /\ ((1 <= GameState.current_turn gs <= GameState.max_turns gs)%Z
      /\ GameState.max_turns gs = 20%Z)
  /\ ((GameState.game_over gs = false /\ GameState.winner gs = None)
      \/ (GameState.game_over gs = true
          /\ (GameState.winner gs = Some "Incumbent"
              \/ GameState.winner gs = Some "Challenger")))
  /\ Forall (fun ev =>
               (1 <= GameEvent.turn_occurred ev <= GameState.current_turn gs)%Z
               /\ event_in_range ev)
       (GameState.events_log gs).

Definition world_ok (w : world) : Prop :=
  forall gs, GameEngine.game_state (fst w) = Some gs -> game_ok gs.

(** * Properties *)

(** ** Comparisons and rounding *)

Lemma ltb_true a b : Num.ltb a b = true <-> a < b.
Proof.
  unfold Num.ltb. rewrite negb_true_iff.
  destruct (Qle_bool b a) eqn:E.
  - apply Qle_bool_iff in E. split; [discriminate | intro; lra].
  - split; [intros _ | reflexivity].
    destruct (Qlt_le_dec a b) as [H | H]; [exact H |].
    apply Qle_bool_iff in H. congruence.
Qed.

Lemma ltb_false a b : Num.ltb a b = false <-> b <= a.
Proof.
  unfold Num.ltb. rewrite negb_false_iff. apply Qle_bool_iff.
Qed.

Lemma leb_true a b : Num.leb a b = true <-> a <= b.
Proof. apply Qle_bool_iff. Qed.

Lemma leb_false a b : Num.leb a b = false <-> b < a.
Proof.
  unfold Num.leb. destruct (Qle_bool a b) eqn:E.
  - apply Qle_bool_iff in E. split; [discriminate | intro; lra].
  - split; [intros _ | reflexivity].
    destruct (Qlt_le_dec b a) as [H | H]; [exact H |].
    apply Qle_bool_iff in H. congruence.
Qed.

Lemma round_half_even_near q :
  q - (1 # 2) <= inject_Z (Num.round_half_even q) <= q + (1 # 2).
Proof.
  unfold Num.round_half_even.
  pose proof (Qfloor_le q) as Hlo. pose proof (Qlt_floor q) as Hhi.
  rewrite inject_Z_plus in Hhi. change (inject_Z 1) with 1 in Hhi.
  destruct (Qcompare (q - inject_Z (Qfloor q)) (1 # 2)) eqn:E.
  - apply Qeq_alt in E.
    destruct (Z.even (Qfloor q)); [| rewrite inject_Z_plus; change (inject_Z 1) with 1]; lra.
  - apply Qlt_alt in E. lra.
  - apply Qgt_alt in E. rewrite inject_Z_plus. change (inject_Z 1) with 1. lra.
Qed.

Lemma round_half_even_between (lo hi : Z) q :
  inject_Z lo <= q <= inject_Z hi ->
  (lo <= Num.round_half_even q <= hi)%Z.
Proof.
  intros [Hlo Hhi].
  pose proof (Qfloor_resp_le _ _ Hlo) as Flo.
  pose proof (Qfloor_resp_le _ _ Hhi) as Fhi.
  rewrite Qfloor_Z in Flo, Fhi.
  assert (Hcase : (Qfloor q < hi)%Z \/ q - inject_Z (Qfloor q) <= 0).
  { destruct (Z.eq_dec (Qfloor q) hi) as [-> | Hne]; [right; lra | left; lia]. }
  unfold Num.round_half_even.
  destruct (Qcompare (q - inject_Z (Qfloor q)) (1 # 2)) eqn:E.
  - apply Qeq_alt in E.
    destruct Hcase as [Hc | Hc]; [| lra].
    destruct (Z.even (Qfloor q)); lia.
  - lia.
  - apply Qgt_alt in E. destruct Hcase as [Hc | Hc]; [lia | lra].
Qed.

Lemma round_half_even_int q m :
  q == inject_Z m -> Num.round_half_even q = m.
Proof.
  intros H. unfold Num.round_half_even.
  rewrite (Qfloor_comp _ _ H), Qfloor_Z.
  destruct (Qcompare (q - inject_Z m) (1 # 2)) eqn:E.
  - apply Qeq_alt in E. lra.
  - reflexivity.
  - apply Qgt_alt in E. lra.
Qed.

Lemma round_half_even_le x hi :
  x <= inject_Z hi -> (Num.round_half_even x <= hi)%Z.
Proof.
  intros H. apply (round_half_even_between (Qfloor x) hi x).
  split; [apply Qfloor_le | exact H].
Qed.

Lemma round_half_even_ge x lo :
  inject_Z lo <= x -> (lo <= Num.round_half_even x)%Z.
Proof.
  intros H. apply (round_half_even_between lo (Qfloor x + 1) x).
  split; [exact H | apply Qlt_le_weak, Qlt_floor].
Qed.

Lemma round_half_even_below x n :
  x < inject_Z n + (1 # 2) -> (Num.round_half_even x <= n)%Z.
Proof.
  intros H. pose proof (round_half_even_near x) as [_ Hn].
  assert (Hlt : inject_Z (Num.round_half_even x) < inject_Z (n + 1)).
  { rewrite inject_Z_plus. change (inject_Z 1) with 1. lra. }
  rewrite <- Zlt_Qlt in Hlt. lia.
Qed.

Lemma round1_near x : x - (1 # 20) <= Num.round1 x <= x + (1 # 20).
Proof.
  unfold Num.round1.
  pose proof (round_half_even_near (x * 10)) as H.
  set (n := inject_Z (Num.round_half_even (x * 10))) in *.
  unfold Qdiv. change (/ 10) with (1 # 10). lra.
Qed.

Lemma round1_range x : 0 <= x <= 100 -> 0 <= Num.round1 x <= 100.
Proof.
  intros Hx. unfold Num.round1.
  assert (H : (0 <= Num.round_half_even (x * 10) <= 1000)%Z).
  { apply round_half_even_between. unfold inject_Z. lra. }
  destruct H as [H0 H1].
  rewrite Zle_Qle in H0, H1. change (inject_Z 0) with 0 in H0.
  change (inject_Z 1000) with 1000 in H1.
  set (n := inject_Z (Num.round_half_even (x * 10))) in *.
  unfold Qdiv. change (/ 10) with (1 # 10). lra.
Qed.

(** ** Doubles *)

Lemma pow2_pos e : 0 < Float.pow2 e.
Proof. unfold Float.pow2. apply Qpower_0_lt. reflexivity. Qed.

Lemma pow2_add a b : Float.pow2 (a + b) == Float.pow2 a * Float.pow2 b.
Proof. unfold Float.pow2. apply Qpower_plus. discriminate. Qed.

Lemma pow2_le a b : (a <= b)%Z -> Float.pow2 a <= Float.pow2 b.
Proof.
  intros H. unfold Float.pow2. apply Qpower_le_compat_l; [exact H | discriminate].
Qed.

Lemma pow2_lt_inv a b : Float.pow2 a < Float.pow2 b -> (a < b)%Z.
Proof.
  intros H. unfold Float.pow2 in H.
  apply (Qpower_lt_compat_l_inv 2); [exact H | reflexivity].
Qed.

Lemma pow2_inject (n : Z) : (0 <= n)%Z -> Float.pow2 n == inject_Z (2 ^ n).
Proof.
  intros H. unfold Float.pow2. rewrite (Zpower_Qpower 2 n H). reflexivity.
Qed.

Lemma Qabs_fraction q :
  Qabs q == inject_Z (Z.abs (Qnum q)) / inject_Z (Z.pos (Qden q)).
Proof.
  destruct q as [n d]. cbn [Qabs Qnum Qden]. apply Qmake_Qdiv.
Qed.

Lemma Qdiv_le_mono a b c d :
  0 < d -> d <= b -> a <= c -> 0 <= c -> a / b <= c / d.
Proof.
  intros Hd Hdb Hac Hc.
  assert (Hb : 0 < b) by lra.
  apply Qle_trans with (c / b).
  - unfold Qdiv. apply Qmult_le_compat_r; [exact Hac |].
    apply Qlt_le_weak, Qinv_lt_0_compat, Hb.
  - apply Qle_shift_div_l; [exact Hd |].
    assert (E : c / b * d == c * (d / b)) by (field; lra).
    rewrite E.
    assert (H1 : d / b <= 1) by (apply Qle_shift_div_r; lra).
    assert (H2 : c * (d / b) <= c * 1).
    { rewrite !(Qmult_comm c). apply Qmult_le_compat_r; assumption. }
    lra.
Qed.

Lemma Qdiv_lt_mono a b c d :
  0 < b -> b <= d -> a < c -> 0 <= a -> a / d < c / b.
Proof.
  intros Hb Hbd Hac Ha.
  assert (Hd : 0 < d) by lra.
  apply Qle_lt_trans with (a / b).
  - apply Qdiv_le_mono; lra.
  - unfold Qdiv. apply Qmult_lt_compat_r; [| exact Hac].
    apply Qinv_lt_0_compat, Hb.
Qed.

Lemma log2_bounds (n : Z) :
  (0 < n)%Z ->
  inject_Z (2 ^ Z.log2 n) <= inject_Z n
  /\ inject_Z n < inject_Z (2 ^ (Z.log2 n + 1)).
Proof.
  intros H. destruct (Z.log2_spec n H) as [H1 H2].
  split; [rewrite <- Zle_Qle; exact H1 |].
  rewrite <- Zlt_Qlt. replace (Z.log2 n + 1)%Z with (Z.succ (Z.log2 n)) by lia.
  exact H2.
Qed.

Lemma pow2_sub_inject (a b : Z) :
  (0 <= a)%Z -> (0 <= b)%Z ->
  Float.pow2 (a - b) == inject_Z (2 ^ a) / inject_Z (2 ^ b).
Proof.
  intros Ha Hb. unfold Float.pow2.
  rewrite Qpower_minus by discriminate.
  rewrite <- !(Zpower_Qpower 2) by assumption. reflexivity.
Qed.

Lemma ilog2_lower q : ~ q == 0 -> Float.pow2 (Float.ilog2 q) <= Qabs q.
Proof.
  intros Hq. unfold Float.ilog2.
  set (n := Z.abs (Qnum q)). set (d := Z.pos (Qden q)).
  destruct (Qle_bool (Float.pow2 (Z.log2 n - Z.log2 d)) (Qabs q)) eqn:E.
  - apply Qle_bool_iff. exact E.
  - assert (Hn : (0 < n)%Z).
    { subst n. destruct q as [[| p | p] dq]; cbn; try lia.
      exfalso. apply Hq. reflexivity. }
    assert (Hd : (0 < d)%Z) by (subst d; lia).
    destruct (log2_bounds n Hn) as [N1 N2].
    destruct (log2_bounds d Hd) as [D1 D2].
    pose proof (Z.log2_nonneg n) as Ln. pose proof (Z.log2_nonneg d) as Ld.
    replace (Z.log2 n - Z.log2 d - 1)%Z with (Z.log2 n - (Z.log2 d + 1))%Z
      by lia.
    rewrite pow2_sub_inject by lia. rewrite Qabs_fraction. fold n d.
    assert (0 < inject_Z d) by (rewrite Zlt_Qlt in Hd; exact Hd).
    assert (0 < inject_Z n) by (rewrite Zlt_Qlt in Hn; exact Hn).
    apply Qdiv_le_mono; lra.
Qed.

Lemma ilog2_upper q : Qabs q < Float.pow2 (Float.ilog2 q + 1).
Proof.
  unfold Float.ilog2.
  set (n := Z.abs (Qnum q)). set (d := Z.pos (Qden q)).
  destruct (Qle_bool (Float.pow2 (Z.log2 n - Z.log2 d)) (Qabs q)) eqn:E.
  - assert (Hd : (0 < d)%Z) by (subst d; lia).
    destruct (log2_bounds d Hd) as [D1 D2].
    pose proof (Z.log2_nonneg n) as Ln. pose proof (Z.log2_nonneg d) as Ld.
    replace (Z.log2 n - Z.log2 d + 1)%Z with ((Z.log2 n + 1) - Z.log2 d)%Z
      by lia.
    rewrite pow2_sub_inject by lia. rewrite Qabs_fraction. fold n d.
    assert (Hpd : 0 < inject_Z (2 ^ Z.log2 d)).
    { rewrite <- pow2_inject by lia. apply pow2_pos. }
    assert (Hn0 : (0 <= n)%Z) by (subst n; lia).
    assert (Hn : inject_Z n < inject_Z (2 ^ (Z.log2 n + 1))).
    { destruct (Z.eq_dec n 0) as [-> | Hne].
      - rewrite <- pow2_inject by (cbn; lia). apply pow2_pos.
      - apply log2_bounds. lia. }
    apply Qdiv_lt_mono; try lra.
    rewrite Zle_Qle in Hn0. exact Hn0.
  - replace (Z.log2 n - Z.log2 d - 1 + 1)%Z with (Z.log2 n - Z.log2 d)%Z by lia.
    destruct (Qlt_le_dec (Qabs q) (Float.pow2 (Z.log2 n - Z.log2 d)))
      as [H | H]; [exact H |].
    apply Qle_bool_iff in H. congruence.
Qed.

(** The exponent of the last bit, from a bound on the value. *)
Lemma ulp_exponent_le q m :
  (0 <= m)%Z -> Qabs q < Float.pow2 m ->
  (Float.ulp_exponent q <= m - 53)%Z.
Proof.
  intros Hm Hq. unfold Float.ulp_exponent.
  assert (Hl : (Float.ilog2 q < m)%Z).
  { destruct (Qeq_dec q 0) as [Hz | Hnz].
    - unfold Float.ilog2.
      set (n := Z.abs (Qnum q)). set (d := Z.pos (Qden q)).
      assert (Hn : n = 0%Z).
      { subst n. destruct q as [[| p | p] dq];
          try reflexivity; unfold Qeq in Hz; cbn in Hz; lia. }
      pose proof (Z.log2_nonneg d) as Ld.
      rewrite Hn. change (Z.log2 0) with 0%Z.
      destruct (Qle_bool (Float.pow2 (0 - Z.log2 d)) (Qabs q)) eqn:E.
      + apply Qle_bool_iff in E. rewrite Hz in E. cbn [Qabs Z.abs] in E.
        pose proof (pow2_pos (0 - Z.log2 d)). lra.
      + lia.
    - pose proof (ilog2_lower q Hnz) as Hl.
      assert (H : Float.pow2 (Float.ilog2 q) < Float.pow2 m) by lra.
      apply pow2_lt_inv in H. exact H. }
  lia.
Qed.

Lemma nearest_scaled q :
  let e := Float.ulp_exponent q in
  Float.nearest q - q
  == (inject_Z (Num.round_half_even (q / Float.pow2 e)) - q / Float.pow2 e)
     * Float.pow2 e.
Proof.
  intros e. unfold Float.nearest. fold e.
  pose proof (pow2_pos e). field. lra.
Qed.

Lemma nearest_error q :
  Qabs (Float.nearest q - q) <= (1 # 2) * Float.pow2 (Float.ulp_exponent q).
Proof.
  rewrite nearest_scaled. cbv zeta.
  set (e := Float.ulp_exponent q).
  pose proof (pow2_pos e) as He.
  pose proof (round_half_even_near (q / Float.pow2 e)) as Hn.
  set (x := q / Float.pow2 e) in *.
  set (r := inject_Z (Num.round_half_even x)) in *.
  rewrite Qabs_Qmult. rewrite (Qabs_pos (Float.pow2 e)) by lra.
  apply Qmult_le_compat_r; [| lra].
  apply Qabs_Qle_condition. lra.
Qed.

Lemma nearest_zero q : q == 0 -> Float.nearest q == 0.
Proof.
  intros Hq. unfold Float.nearest.
  set (e := Float.ulp_exponent q).
  pose proof (pow2_pos e) as He.
  assert (Hx : q / Float.pow2 e == inject_Z 0).
  { rewrite Hq. change (inject_Z 0) with 0. field. lra. }
  rewrite (round_half_even_int _ _ Hx). change (inject_Z 0) with 0. lra.
Qed.

(** A double is within half a unit in the last place of the exact value:
    a relative error of [2^-53], or [2^-1075] among the subnormals. *)
Lemma nearest_close q :
  Qabs (Float.nearest q - q)
  <= Qabs q * Float.pow2 (-53) + Float.pow2 (-1075).
Proof.
  destruct (Qeq_dec q 0) as [Hz | Hnz].
  - pose proof (nearest_zero q Hz) as H0.
    pose proof (pow2_pos (-53)). pose proof (pow2_pos (-1075)).
    assert (E : Float.nearest q - q == 0) by lra.
    rewrite E, Hz. cbn [Qabs Z.abs]. lra.
  - pose proof (nearest_error q) as He.
    pose proof (ilog2_lower q Hnz) as Hl.
    pose proof (pow2_pos (-53)) as P53. pose proof (pow2_pos (-1075)) as P1075.
    pose proof (Qabs_nonneg q) as Hq.
    unfold Float.ulp_exponent in He.
    destruct (Z.max_spec (Float.ilog2 q - 52) (-1074)) as [[_ E] | [_ E]];
      rewrite E in He.
    + assert (Hp : (1 # 2) * Float.pow2 (-1074) == Float.pow2 (-1075))
        by reflexivity.
      assert (0 <= Qabs q * Float.pow2 (-53))
        by (apply Qmult_le_0_compat; lra).
      lra.
    + assert (Hp : (1 # 2) * Float.pow2 (Float.ilog2 q - 52)
                   == Float.pow2 (Float.ilog2 q) * Float.pow2 (-53)).
      { replace (Float.ilog2 q - 52)%Z with (Float.ilog2 q + (-52))%Z by lia.
        rewrite pow2_add.
        assert (E2 : (1 # 2) * Float.pow2 (-52) == Float.pow2 (-53))
          by reflexivity.
        rewrite <- E2. ring. }
      assert (Float.pow2 (Float.ilog2 q) * Float.pow2 (-53)
              <= Qabs q * Float.pow2 (-53))
        by (apply Qmult_le_compat_r; lra).
      lra.
Qed.

(** A grid of step [2^f] contains the doubles of every exponent from [f]
    on, so rounding to a finer exponent does not cross its points. *)
Lemma grid_scaled (n e f : Z) :
  (e <= f)%Z ->
  inject_Z n * Float.pow2 f == inject_Z (n * 2 ^ (f - e)) * Float.pow2 e.
Proof.
  intros H. replace f with ((f - e) + e)%Z at 1 by lia.
  rewrite pow2_add, pow2_inject by lia. rewrite inject_Z_mult. ring.
Qed.

Lemma nearest_le_grid q n f :
  (Float.ulp_exponent q <= f)%Z ->
  q <= inject_Z n * Float.pow2 f ->
  Float.nearest q <= inject_Z n * Float.pow2 f.
Proof.
  intros He Hq. rewrite (grid_scaled n _ f He) in *.
  unfold Float.nearest.
  set (e := Float.ulp_exponent q) in *.
  pose proof (pow2_pos e) as Hp.
  apply Qmult_le_compat_r; [| lra].
  rewrite <- Zle_Qle. apply round_half_even_le.
  apply Qle_shift_div_r; assumption.
Qed.

Lemma nearest_ge_grid q n f :
  (Float.ulp_exponent q <= f)%Z ->
  inject_Z n * Float.pow2 f <= q ->
  inject_Z n * Float.pow2 f <= Float.nearest q.
Proof.
  intros He Hq. rewrite (grid_scaled n _ f He) in *.
  unfold Float.nearest.
  set (e := Float.ulp_exponent q) in *.
  pose proof (pow2_pos e) as Hp.
  apply Qmult_le_compat_r; [| lra].
  rewrite <- Zle_Qle. apply round_half_even_ge.
  apply Qle_shift_div_l; assumption.
Qed.

Lemma nearest_below_half q n :
  q < (inject_Z n + (1 # 2)) * Float.pow2 (Float.ulp_exponent q) ->
  Float.nearest q <= inject_Z n * Float.pow2 (Float.ulp_exponent q).
Proof.
  intros Hq. unfold Float.nearest.
  set (e := Float.ulp_exponent q) in *.
  pose proof (pow2_pos e) as Hp.
  apply Qmult_le_compat_r; [| lra].
  rewrite <- Zle_Qle. apply round_half_even_below.
  apply Qlt_shift_div_r; assumption.
Qed.

Lemma nearest_nonneg q : 0 <= q -> 0 <= Float.nearest q.
Proof.
  intros Hq. unfold Float.nearest.
  set (e := Float.ulp_exponent q).
  pose proof (pow2_pos e) as Hp.
  apply Qmult_le_0_compat; [| lra].
  change 0 with (inject_Z 0). rewrite <- Zle_Qle.
  apply round_half_even_ge. change (inject_Z 0) with 0.
  apply Qle_shift_div_l; [exact Hp | lra].
Qed.

(** The same, in numbers: the relative error is [2^-53], the absolute error
    of a subnormal is far below [2^-100]. *)
Lemma nearest_near q :
  0 <= q ->
  q - q * (1 # 9007199254740992) - (1 # 1267650600228229401496703205376)
    <= Float.nearest q
  /\ Float.nearest q
     <= q + q * (1 # 9007199254740992)
        + (1 # 1267650600228229401496703205376).
Proof.
  intros Hq. pose proof (nearest_close q) as H.
  rewrite (Qabs_pos q Hq) in H.
  assert (Hu : Float.pow2 (-53) == 1 # 9007199254740992) by reflexivity.
  assert (Hs : Float.pow2 (-1075) <= Float.pow2 (-100))
    by (apply pow2_le; lia).
  assert (Hc : Float.pow2 (-100) == 1 # 1267650600228229401496703205376)
    by reflexivity.
  rewrite Hu in H.
  apply Qabs_Qle_condition in H. lra.
Qed.

(** Below [2^11] in magnitude nothing overflows. *)
Lemma of_Q_finite q :
  Qabs q <= 1000 -> Float.of_Q q = Float.Finite (Float.nearest q).
Proof.
  intros Hq. unfold Float.of_Q.
  destruct (Qle_bool (Float.pow2 1024) (Qabs (Float.nearest q))) eqn:E;
    [| reflexivity].
  exfalso. apply Qle_bool_iff in E.
  pose proof (nearest_close q) as H.
  assert (Hu : Float.pow2 (-53) == 1 # 9007199254740992) by reflexivity.
  assert (Hs : Float.pow2 (-1075) <= Float.pow2 0) by (apply pow2_le; lia).
  change (Float.pow2 0) with 1 in Hs.
  assert (Hb : Float.pow2 11 <= Float.pow2 1024) by (apply pow2_le; lia).
  change (Float.pow2 11) with 2048 in Hb.
  rewrite Hu in H.
  pose proof (Qabs_triangle (Float.nearest q - q) q) as Ht.
  assert (Eq : Float.nearest q - q + q == Float.nearest q) by ring.
  rewrite Eq in Ht.
  pose proof (Qabs_nonneg q). lra.
Qed.

(** ** The support invariant of [apply_support_change], on doubles *)

Lemma Qmult_le_nonneg_l c a b : 0 <= c -> a <= b -> c * a <= c * b.
Proof.
  intros Hc Hab. rewrite (Qmult_comm c a), (Qmult_comm c b).
  apply Qmult_le_compat_r; assumption.
Qed.

(** [max(0.0, min(100.0, v))] is a finite double between 0 and 100, whatever
    [v] is: an infinity is cut, and a NaN, which compares below nothing,
    leaves the 100.0 that [min] started from. *)
Lemma clamp_finite v :
  exists x,
    Float.max (Float.of_int 0) (Float.min (Float.of_int 100) v)
    = Float.Finite x
    /\ 0 <= x <= 100.
Proof.
  unfold Float.max, Float.min, Float.of_int.
  change (inject_Z 0) with 0. change (inject_Z 100) with 100.
  destruct v as [q | [|] |]; cbn [Float.ltb negb].
  - destruct (Num.ltb q 100) eqn:E1; cbn [Float.ltb].
    + apply ltb_true in E1.
      destruct (Num.ltb 0 q) eqn:E2.
      * apply ltb_true in E2. exists q. split; [reflexivity | lra].
      * exists 0. split; [reflexivity | lra].
    + exists 100. split; [reflexivity | lra].
  - exists 0. split; [reflexivity | lra].
  - exists 100. split; [reflexivity | lra].
  - exists 100. split; [reflexivity | lra].
Qed.

(** The double stored for a number of tenths between 0 and 100. *)
Lemma tenth_double (k : Z) :
  (0 <= k <= 1000)%Z ->
  let q := inject_Z k / 10 in
  Float.of_Q q = Float.Finite (Float.nearest q)
  /\ 0 <= Float.nearest q <= 100
  /\ Float.nearest q
     <= q + q * (1 # 9007199254740992)
        + (1 # 1267650600228229401496703205376).
Proof.
  intros [H0 H1] q.
  rewrite Zle_Qle in H0, H1.
  change (inject_Z 0) with 0 in H0. change (inject_Z 1000) with 1000 in H1.
  assert (Hq : 0 <= q <= 100).
  { subst q. unfold Qdiv. change (/ 10) with (1 # 10). lra. }
  split; [| split].
  - apply of_Q_finite. rewrite Qabs_pos; lra.
  - split; [apply nearest_nonneg; lra |].
    assert (E : inject_Z 7036874417766400 * Float.pow2 (-46) == 100)
      by reflexivity.
    rewrite <- E. apply nearest_le_grid; [| rewrite E; lra].
    apply (ulp_exponent_le q 7); [lia |].
    rewrite Qabs_pos by lra. change (Float.pow2 7) with 128. lra.
  - apply nearest_near. lra.
Qed.

(** After the proportional rescale the two sides add up to 100, up to the
    rounding of the four operations involved. *)
Lemma rescaled_sum x y :
  0 <= x <= 100 -> 0 <= y <= 100 ->
  let total := Float.nearest (x + y) in
  100 < total ->
  let ratio := Float.nearest (100 / total) in
  0 <= Float.nearest (x * ratio)
  /\ 0 <= Float.nearest (y * ratio)
  /\ Float.nearest (x * ratio) + Float.nearest (y * ratio) <= 100 + (1 # 100)
  /\ Qabs (100 / total) <= 1000
  /\ Qabs (x * ratio) <= 1000
  /\ Qabs (y * ratio) <= 1000.
Proof.
  intros Hx Hy total Ht ratio.
  destruct (nearest_near (x + y) ltac:(lra)) as [S1 S2]. fold total in S1, S2.
  set (r0 := 100 / total).
  assert (Hr0 : r0 * total == 100) by (unfold r0; field; lra).
  assert (Hr0p : 0 <= r0) by (unfold r0; apply Qle_shift_div_l; lra).
  assert (Hr01 : r0 <= 1) by (unfold r0; apply Qle_shift_div_r; lra).
  destruct (nearest_near r0 Hr0p) as [R1 R2].
  change (Float.nearest r0) with ratio in R1, R2.
  assert (Hratio : 0 <= ratio) by (apply nearest_nonneg; exact Hr0p).
  assert (Hxr : 0 <= x * ratio) by (apply Qmult_le_0_compat; lra).
  assert (Hyr : 0 <= y * ratio) by (apply Qmult_le_0_compat; lra).
  destruct (nearest_near (x * ratio) Hxr) as [X1 X2].
  destruct (nearest_near (y * ratio) Hyr) as [Y1 Y2].
  (* the products *)
  assert (Hxr2 : x * ratio <= 100 * ratio)
    by (apply Qmult_le_compat_r; lra).
  assert (Hyr2 : y * ratio <= 100 * ratio)
    by (apply Qmult_le_compat_r; lra).
  assert (Hsr0 : (x + y) * r0 <= (total * (1 + (1 # 1000000000)) + (1 # 1000000000)) * r0).
  { apply Qmult_le_compat_r; [lra | exact Hr0p]. }
  assert (Hsr : (x + y) * ratio
                <= (x + y) * (r0 + r0 * (1 # 9007199254740992)
                              + (1 # 1267650600228229401496703205376))).
  { apply Qmult_le_nonneg_l; lra. }
  set (p := (x + y) * r0) in *.
  assert (Ep : (total * (1 + (1 # 1000000000)) + (1 # 1000000000)) * r0
               == 100 * (1 + (1 # 1000000000)) + (1 # 1000000000) * r0).
  { rewrite <- Hr0. ring. }
  assert (Es : (x + y) * (r0 + r0 * (1 # 9007199254740992)
                          + (1 # 1267650600228229401496703205376))
               == p + p * (1 # 9007199254740992)
                  + (x + y) * (1 # 1267650600228229401496703205376)).
  { unfold p. ring. }
  assert (Exy : x * ratio + y * ratio == (x + y) * ratio) by ring.
  split; [apply nearest_nonneg; exact Hxr |].
  split; [apply nearest_nonneg; exact Hyr |].
  split; [lra |].
  split; [rewrite Qabs_pos by exact Hr0p; lra |].
  split; rewrite Qabs_pos by assumption; lra.
Qed.

(** The clamped and rescaled pair, before the final rounding. *)
Lemma rescaled_pair x y :
  0 <= x <= 100 -> 0 <= y <= 100 ->
  exists x' y',
    (if Float.ltb (Float.of_int 100)
          (Float.add (Float.Finite x) (Float.Finite y))
     then
       match Float.div (Float.of_int 100)
               (Float.add (Float.Finite x) (Float.Finite y)) with
       | Ok ratio =>
           Ok (Float.mul (Float.Finite x) ratio,
               Float.mul (Float.Finite y) ratio)
       | Raise e => Raise e
       end
     else Ok (Float.Finite x, Float.Finite y))
    = Ok (Float.Finite x', Float.Finite y')
    /\ 0 <= x' /\ 0 <= y' /\ x' + y' <= 100 + (1 # 100).
Proof.
  intros Hx Hy. cbn [Float.add].
  rewrite (of_Q_finite (x + y)) by (rewrite Qabs_pos; lra).
  unfold Float.of_int. change (inject_Z 100) with 100. cbn [Float.ltb].
  destruct (Num.ltb 100 (Float.nearest (x + y))) eqn:E.
  - apply ltb_true in E.
    destruct (rescaled_sum x y Hx Hy E) as (X & Y & S & Fr & Fx & Fy).
    cbv zeta in *.
    unfold Float.div. cbn [Float.is_zero].
    replace (Qeq_bool (Float.nearest (x + y)) 0) with false.
    2:{ symmetry. destruct (Qeq_bool (Float.nearest (x + y)) 0) eqn:Z;
          [| reflexivity].
        apply Qeq_bool_iff in Z. lra. }
    rewrite (of_Q_finite _ Fr). cbn [Float.mul].
    rewrite (of_Q_finite _ Fx), (of_Q_finite _ Fy).
    eexists; eexists. split; [reflexivity |]. split; [exact X |].
    split; [exact Y | exact S].
  - apply ltb_false in E.
    destruct (nearest_near (x + y) ltac:(lra)) as [S1 _].
    exists x, y. split; [reflexivity |]. split; [lra |]. split; lra.
Qed.

(** Two doubles for tenths that add up to at most 100.1: their float sum is
    at most the double right above 100.1. *)
Lemma sum_double a b :
  0 <= a -> 0 <= b ->
  a + b
  <= (1001 # 10) + (1001 # 10) * (1 # 9007199254740992)
     + (2 # 1267650600228229401496703205376) ->
  Float.nearest (a + b) <= inject_Z 7043911292184167 * Float.pow2 (-46).
Proof.
  intros Ha Hb Hs. set (q := a + b) in *.
  assert (Hq : 0 <= q) by (unfold q; lra).
  assert (He : (Float.ulp_exponent q <= -46)%Z).
  { apply (ulp_exponent_le q 7); [lia |].
    rewrite Qabs_pos by exact Hq. change (Float.pow2 7) with 128. lra. }
  destruct (Z.eq_dec (Float.ulp_exponent q) (-46)) as [E | Hne].
  - rewrite <- E. apply nearest_below_half. rewrite E.
    assert (Hm : (1001 # 10) + (1001 # 10) * (1 # 9007199254740992)
                 + (2 # 1267650600228229401496703205376)
                 < (inject_Z 7043911292184167 + (1 # 2)) * Float.pow2 (-46))
      by reflexivity.
    lra.
  - apply nearest_le_grid; [exact He |].
    pose proof (ilog2_upper q) as Hu. rewrite Qabs_pos in Hu by exact Hq.
    assert (Hl : (Float.ilog2 q + 1 <= 6)%Z)
      by (unfold Float.ulp_exponent in *; lia).
    pose proof (pow2_le _ _ Hl) as Hp. change (Float.pow2 6) with 64 in Hp.
    assert (Hd : 64 <= inject_Z 7043911292184167 * Float.pow2 (-46))
      by (unfold Qle; vm_compute; discriminate).
    lra.
Qed.

Lemma tenths_of_support X :
  0 <= X <= 100 + (1 # 100) ->
  (0 <= Num.round_half_even (X * 10) <= 1000)%Z.
Proof.
  intros [H0 H1]. split.
  - apply round_half_even_ge. change (inject_Z 0) with 0. lra.
  - apply round_half_even_below. change (inject_Z 1000) with 1000. lra.
Qed.

(** C2. Whatever the state and the two changes, infinities and NaNs
    included, [apply_support_change] returns a state (the division of the
    rescale never has a zero divisor), and that state stores two finite
    doubles, each between 0 and 100.  Each is the double for a number of
    tenths, and the two numbers of tenths add up to at most 1001: the
    clamped and rescaled sides add up to 100 up to the rounding of the
    arithmetic, and each side then moves by at most one twentieth when it is
    rounded to one decimal.  So the exact sum of the two stored doubles is at
    most 100.1 plus [2^-46], the spacing of the doubles around 100, and their
    sum as Python computes it is at most 100.10000000000001, the double
    right above 100.1. *)
Theorem apply_support_change_invariant
    (s : State64.t) (incumbent_change challenger_change : Float.t) :
  exists (s' : State64.t) (a b : Q) (ka kb : Z),
    State64.apply_support_change s incumbent_change challenger_change = Ok s'
    /\ State64.incumbent_support s' = Float.Finite a
    /\ State64.challenger_support s' = Float.Finite b
    /\ 0 <= a <= 100
    /\ 0 <= b <= 100
    /\ a + b <= 100 + (1 # 10) + Float.pow2 (-46)
    /\ Float.leb (Float.add (Float.Finite a) (Float.Finite b))
         (Float.of_Q (10010000000000001 # 100000000000000)) = true
    /\ Float.Finite a = Float.of_Q (inject_Z ka / 10)
    /\ Float.Finite b = Float.of_Q (inject_Z kb / 10)
    /\ (0 <= ka <= 1000)%Z
    /\ (0 <= kb <= 1000)%Z
    /\ (ka + kb <= 1001)%Z.
Proof.
  unfold State64.apply_support_change.
  destruct (clamp_finite
              (Float.add (State64.incumbent_support s) incumbent_change))
    as (x & -> & Hx).
  destruct (clamp_finite
              (Float.add (State64.challenger_support s) challenger_change))
    as (y & -> & Hy).
  destruct (rescaled_pair x y Hx Hy) as (x' & y' & -> & Hx' & Hy' & Hs).
  set (ka := Num.round_half_even (x' * 10)).
  set (kb := Num.round_half_even (y' * 10)).
  assert (Hka : (0 <= ka <= 1000)%Z) by (apply tenths_of_support; lra).
  assert (Hkb : (0 <= kb <= 1000)%Z) by (apply tenths_of_support; lra).
  destruct (tenth_double ka Hka) as (Fa & Ra & Na).
  destruct (tenth_double kb Hkb) as (Fb & Rb & Nb).
  cbv zeta in *.
  set (a := Float.nearest (inject_Z ka / 10)) in *.
  set (b := Float.nearest (inject_Z kb / 10)) in *.
  assert (Hsum : (ka + kb <= 1001)%Z).
  { destruct (round_half_even_near (x' * 10)) as [_ Ua].
    destruct (round_half_even_near (y' * 10)) as [_ Ub].
    fold ka in Ua. fold kb in Ub.
    assert (Hlt : inject_Z (ka + kb) < inject_Z 1002).
    { rewrite inject_Z_plus. change (inject_Z 1002) with 1002. lra. }
    rewrite <- Zlt_Qlt in Hlt. lia. }
  assert (Hreal : inject_Z ka / 10 + inject_Z kb / 10 <= 1001 # 10).
  { rewrite Zle_Qle, inject_Z_plus in Hsum.
    change (inject_Z 1001) with 1001 in Hsum.
    unfold Qdiv. change (/ 10) with (1 # 10). lra. }
  assert (Hab : a + b
                <= (1001 # 10) + (1001 # 10) * (1 # 9007199254740992)
                   + (2 # 1267650600228229401496703205376)) by lra.
  exists (State64.mk (State64.name s) (State64.abbreviation s)
            (State64.electoral_votes s)
            (Float.round1 (Float.Finite x')) (Float.round1 (Float.Finite y'))
            (State64._calculate_lean
               (Float.sub (Float.Finite x') (Float.Finite y')))
            (State64.region s)),
    a, b, ka, kb.
  cbn [State64.incumbent_support State64.challenger_support Float.round1].
  unfold Num.round1. fold ka kb.
  split; [reflexivity |]. split; [exact Fa |]. split; [exact Fb |].
  split; [exact Ra |]. split; [exact Rb |].
  split.
  { assert (Hp : Float.pow2 (-46) == 1 # 70368744177664) by reflexivity.
    rewrite Hp. lra. }
  split.
  { cbn [Float.add].
    rewrite (of_Q_finite (a + b)) by (rewrite Qabs_pos; lra).
    assert (Hlit : exists d,
               Float.of_Q (10010000000000001 # 100000000000000)
               = Float.Finite d
               /\ inject_Z 7043911292184167 * Float.pow2 (-46) <= d).
    { exists (Float.nearest (10010000000000001 # 100000000000000)).
      split; [apply of_Q_finite; unfold Qle; vm_compute; discriminate |].
      unfold Qle. vm_compute. discriminate. }
    destruct Hlit as (d & -> & Hd). cbn [Float.leb].
    apply leb_true.
    pose proof (sum_double a b ltac:(lra) ltac:(lra) Hab). lra. }
  split; [symmetry; exact Fa |]. split; [symmetry; exact Fb |].
  split; [exact Hka |]. split; [exact Hkb | exact Hsum].
Qed.

(** The bound on the float sum is attained, and it lies above 100.1: a
    state at 1.35 against 98.65, changed by nothing, is rescaled and stored
    as 1.4 against 98.7, whose sum as doubles is 100.10000000000001. *)
Lemma supports_sum_above_tenth :
  exists s' a b,
    State64.apply_support_change
      (State64.mk "S" "S" 1 (Float.of_Q (135 # 100)) (Float.of_Q (9865 # 100))
         "Safe Chl" "South")
      (Float.of_int 0) (Float.of_int 0)
    = Ok s'
    /\ State64.incumbent_support s' = Float.of_Q (14 # 10)
    /\ State64.challenger_support s' = Float.of_Q (987 # 10)
    /\ State64.incumbent_support s' = Float.Finite a
    /\ State64.challenger_support s' = Float.Finite b
    /\ 100 + (1 # 10) < a + b
    /\ Float.ltb (Float.add (Float.of_int 100) (Float.of_Q (1 # 10)))
         (Float.add (Float.Finite a) (Float.Finite b)) = true
    /\ Float.add (Float.Finite a) (Float.Finite b)
       = Float.of_Q (10010000000000001 # 100000000000000).
Proof.
  eexists; eexists; eexists.
  split; [vm_compute; reflexivity |].
  split; [vm_compute; reflexivity |].
  split; [vm_compute; reflexivity |].
  split; [reflexivity |]. split; [reflexivity |].
  split; [vm_compute; reflexivity |].
  split; vm_compute; reflexivity.
Qed.

(** ** The supports and the lean of the idealised state *)


Lemma clamp_range x : 0 <= Qmax 0 (Qmin 100 x) <= 100.
Proof.
  split.
  - apply Q.le_max_l.
  - apply Q.max_lub; [lra | apply Q.le_min_l].
Qed.

Lemma rescaled_spec s ic cc :
  0 <= fst (State.rescaled s ic cc)
  /\ 0 <= snd (State.rescaled s ic cc)
  /\ fst (State.rescaled s ic cc) + snd (State.rescaled s ic cc) <= 100.
Proof.
  unfold State.rescaled.
  pose proof (clamp_range (State.incumbent_support s + ic)) as Hx.
  pose proof (clamp_range (State.challenger_support s + cc)) as Hy.
  set (x := Qmax 0 (Qmin 100 (State.incumbent_support s + ic))) in *.
  set (y := Qmax 0 (Qmin 100 (State.challenger_support s + cc))) in *.
  destruct (Num.ltb 100 (x + y)) eqn:E; simpl.
  - apply ltb_true in E.
    assert (Hr : 0 <= 100 / (x + y)).
    { apply Qle_shift_div_l; lra. }
    assert (Hsum : x * (100 / (x + y)) + y * (100 / (x + y)) == 100).
    { field. intro; lra. }
    repeat split.
    + apply Qmult_le_0_compat; lra.
    + apply Qmult_le_0_compat; lra.
    + rewrite Hsum. lra.
  - apply ltb_false in E. lra.
Qed.

Lemma apply_support_change_supports s ic cc :
  State.incumbent_support (State.apply_support_change s ic cc)
    = Num.round1 (fst (State.rescaled s ic cc))
  /\ State.challenger_support (State.apply_support_change s ic cc)
    = Num.round1 (snd (State.rescaled s ic cc)).
Proof.
  unfold State.apply_support_change.
  destruct (State.rescaled s ic cc); split; reflexivity.
Qed.

Lemma apply_support_change_lean s ic cc :
  State.lean (State.apply_support_change s ic cc)
    = State._calculate_lean
        (fst (State.rescaled s ic cc) - snd (State.rescaled s ic cc)).
Proof.
  unfold State.apply_support_change.
  destruct (State.rescaled s ic cc); reflexivity.
Qed.

(** C8. Michigan as shipped (48.5 against 47.5), after an incumbent rally at
    momentum 65, that is a change of 3.0 x 1.325 = 3.975: the returned state
    stores 52.5 against 47.5, a margin of 5.0, for which the lean function
    gives [Lean Inc]; the stored lean is [Tossup], computed from the margin
    4.975 the supports had before they were rounded. *)
Theorem lean_computed_before_rounding :
  let s' := State.apply_support_change michigan (3 * (1 + 65 / 200)) 0 in
  State.incumbent_support s' == 525 # 10
  /\ State.challenger_support s' == 475 # 10
  /\ State.margin s' == 5
  /\ State._calculate_lean (State.margin s') = "Lean Inc"
  /\ State.lean s' = "Tossup".
Proof.
  vm_compute. repeat split; reflexivity || discriminate.
Qed.

(** The same state arises in play: six debate preparations bring the
    incumbent's momentum to 60, a rally in Florida to 65, and the rally in
    Michigan then leaves [Tossup] on a stored margin of 5.0. *)
Lemma tossup_on_margin_five_in_play :
  let calls :=
    NewGame "A" "B" :: repeat (ExecutePlayerAction DEBATE_PREP None) 6
      ++ [ExecutePlayerAction RALLY (Some ["FL"]);
          ExecutePlayerAction RALLY (Some ["MI"])] in
  let w := run calls (GameEngine.init (fun _ _ => 0%N) always_low always_low
                        None, always_low) in
  exists gs s,
    GameEngine.game_state (fst w) = Some gs
    /\ Dict.get (GameState.states gs) "MI" = Some s
    /\ State.lean s = "Tossup"
    /\ State._calculate_lean (State.margin s) = "Lean Inc".
Proof.
  vm_compute. eexists; eexists. repeat split; reflexivity.
Qed.

(** ** The affordability gate *)

(** C1. When the acting player's funds are strictly below the action's cost,
    [execute_action] returns the game state it was given, untouched, with a
    result whose success flag is false, whose funds spent, funds raised and
    momentum change are zero and whose support changes and affected states
    are empty; the generator is not advanced either. *)
Theorem execute_action_unaffordable
    (rng : Random.t) (gs : GameState.t) (a : ActionType) (is_incumbent : bool)
    (targets : option (list string)) :
  (Player.funds (ActionProcessor.acting_player gs is_incumbent)
     < ActionDefinition.cost (get_action_definition a))%Z ->
  let out := ActionProcessor.execute_action rng gs a is_incumbent targets in
  fst (fst out) = gs
  /\ ActionResult.success (snd (fst out)) = false
  /\ ActionResult.funds_spent (snd (fst out)) = 0%Z
  /\ ActionResult.funds_raised (snd (fst out)) = 0%Z
  /\ ActionResult.support_changes (snd (fst out)) = []
  /\ ActionResult.momentum_change (snd (fst out)) = 0%Z
  /\ ActionResult.affected_states (snd (fst out)) = []
  /\ snd out = rng.
Proof.
  intros Hpoor out. subst out. unfold ActionProcessor.execute_action.
  unfold Player.can_afford.
  replace (ActionDefinition.cost (get_action_definition a)
             <=? Player.funds (ActionProcessor.acting_player gs is_incumbent))%Z
    with false by (symmetry; apply Z.leb_gt; exact Hpoor).
  simpl. repeat split; reflexivity.
Qed.

Lemma execute_action_unaffordable_witness :
  (Player.funds (ActionProcessor.acting_player (game_with 1 0 15 0) true)
     < ActionDefinition.cost (get_action_definition RALLY))%Z
  /\ fst (fst (ActionProcessor.execute_action always_low (game_with 1 0 15 0)
                 RALLY true (Some ["FL"]))) = game_with 1 0 15 0.
Proof.
  split; [reflexivity |].
  apply (execute_action_unaffordable always_low (game_with 1 0 15 0) RALLY true
           (Some ["FL"])).
  reflexivity.
Defined.

(** ** Tallying electoral votes *)

(** Exactly one of the three comparisons holds for a state. *)
Lemma state_trichotomy (s : State.t) :
  (GameState.incumbent_wins s = true
   /\ GameState.challenger_wins s = false /\ GameState.tied s = false)
  \/ (GameState.incumbent_wins s = false
      /\ GameState.challenger_wins s = true /\ GameState.tied s = false)
  \/ (GameState.incumbent_wins s = false
      /\ GameState.challenger_wins s = false /\ GameState.tied s = true).
Proof.
  unfold GameState.incumbent_wins, GameState.challenger_wins, GameState.tied,
    Num.eqb.
  set (i := State.incumbent_support s). set (c := State.challenger_support s).
  destruct (Q_dec i c) as [[Hlt | Hgt] | Heq].
  - right; left. repeat split.
    + apply ltb_false; lra.
    + apply ltb_true; lra.
    + apply not_true_is_false. intro H. apply Qeq_bool_eq in H. lra.
  - left. repeat split.
    + apply ltb_true; lra.
    + apply ltb_false; lra.
    + apply not_true_is_false. intro H. apply Qeq_bool_eq in H. lra.
  - right; right. repeat split.
    + apply ltb_false; lra.
    + apply ltb_false; lra.
    + apply Qeq_eq_bool; exact Heq.
Qed.

Lemma votes_where_cons p s l :
  votes_where p (s :: l)
  = ((if p s then State.electoral_votes s else 0) + votes_where p l)%Z.
Proof.
  unfold votes_where. simpl. destruct (p s); reflexivity.
Qed.

Lemma tally3_fold (l : list State.t) (a b c : Z) :
  fold_left tally3 l (a, b, c)
  = ((a + votes_where GameState.incumbent_wins l)%Z,
     (b + votes_where GameState.challenger_wins l)%Z,
     (c + votes_where GameState.tied l)%Z).
Proof.
  revert a b c. induction l as [| s l IH]; intros a b c.
  - unfold votes_where. simpl. now rewrite !Z.add_0_r.
  - cbn [fold_left]. rewrite !votes_where_cons.
    replace (tally3 (a, b, c) s) with
      (if GameState.incumbent_wins s then
         ((a + State.electoral_votes s)%Z, b, c)
       else if GameState.challenger_wins s then
         (a, (b + State.electoral_votes s)%Z, c)
       else (a, b, (c + State.electoral_votes s)%Z)) by reflexivity.
    destruct (state_trichotomy s) as [(-> & -> & ->) | [(-> & -> & ->) | (-> & -> & ->)]];
      rewrite IH; (apply (f_equal2 pair); [apply (f_equal2 pair) |]); lia.
Qed.

Lemma fold_left_pointwise {A B : Type} (f g : A -> B -> A) (l : list B) :
  (forall a x, f a x = g a x) ->
  forall a, fold_left f l a = fold_left g l a.
Proof.
  intros Hfg. induction l as [| x l IH]; intros a; [reflexivity |].
  simpl. rewrite Hfg. apply IH.
Qed.

Lemma _calculate_evs_derived (gs : GameState.t) :
  AIOpponent._calculate_evs gs
  = (GameState.incumbent_electoral_votes gs,
     GameState.challenger_electoral_votes gs,
     GameState.tied_electoral_votes gs).
Proof.
  unfold AIOpponent._calculate_evs.
  rewrite (fold_left_pointwise _ tally3) by (intros [[a b] c] x; reflexivity).
  rewrite tally3_fold. reflexivity.
Qed.

Lemma calculate_current_evs_derived (gs : GameState.t) :
  ElectoralCalculator.calculate_current_evs gs
  = (GameState.incumbent_electoral_votes gs,
     GameState.challenger_electoral_votes gs,
     GameState.tied_electoral_votes gs).
Proof.
  unfold ElectoralCalculator.calculate_current_evs.
  rewrite (fold_left_pointwise _ tally3) by (intros [[a b] c] x; reflexivity).
  rewrite tally3_fold. reflexivity.
Qed.

Lemma votes_partition (l : list State.t) :
  sum_Z (map State.electoral_votes l)
  = (votes_where GameState.incumbent_wins l
     + votes_where GameState.challenger_wins l
     + votes_where GameState.tied l)%Z.
Proof.
  induction l as [| s l IH]; [reflexivity |].
  rewrite !votes_where_cons. simpl. rewrite IH.
  destruct (state_trichotomy s) as [(-> & -> & ->) | [(-> & -> & ->) | (-> & -> & ->)]];
    lia.
Qed.

(** ** The AI's strategy *)

(** C7. [determine_strategy] answers FUNDRAISING whenever the challenger's
    funds are strictly below 2; otherwise, with the difference between the
    challenger's and the incumbent's electoral votes under strict comparison,
    it answers AGGRESSIVE at -30 or below, DEFENSIVE at +30 or above, and
    BALANCED in between. *)
Theorem determine_strategy_spec (gs : GameState.t) :
  let funds := Player.funds (GameState.challenger gs) in
  let ev_diff :=
    (GameState.challenger_electoral_votes gs
     - GameState.incumbent_electoral_votes gs)%Z in
  ((funds < 2)%Z -> AIOpponent.determine_strategy gs = FUNDRAISING)
  /\ ((2 <= funds)%Z -> (ev_diff <= -30)%Z ->
      AIOpponent.determine_strategy gs = AGGRESSIVE)
  /\ ((2 <= funds)%Z -> (30 <= ev_diff)%Z ->
      AIOpponent.determine_strategy gs = DEFENSIVE)
  /\ ((2 <= funds)%Z -> (-30 < ev_diff < 30)%Z ->
      AIOpponent.determine_strategy gs = BALANCED).
Proof.
  intros funds ev_diff. subst funds ev_diff.
  unfold AIOpponent.determine_strategy.
  rewrite _calculate_evs_derived.
  unfold AIOpponent.LOW_FUNDS_THRESHOLD, AIOpponent.LOSING_THRESHOLD,
    AIOpponent.WINNING_THRESHOLD.
  set (f := Player.funds (GameState.challenger gs)).
  set (d := (GameState.challenger_electoral_votes gs
             - GameState.incumbent_electoral_votes gs)%Z).
  change (- (30))%Z with (-30)%Z.
  destruct (f <? 2)%Z eqn:Ef;
    [apply Z.ltb_lt in Ef | apply Z.ltb_ge in Ef];
    (destruct (d <=? -30)%Z eqn:E1;
       [apply Z.leb_le in E1 | apply Z.leb_gt in E1]);
    (destruct (30 <=? d)%Z eqn:E2;
       [apply Z.leb_le in E2 | apply Z.leb_gt in E2]);
    repeat split; intros; try reflexivity; lia.
Qed.

Lemma determine_strategy_spec_witness :
  AIOpponent.determine_strategy (game_with 15 0 1 0) = FUNDRAISING
  /\ AIOpponent.determine_strategy (game_with 15 0 15 0) = BALANCED.
Proof.
  split.
  - apply (proj1 (determine_strategy_spec (game_with 15 0 1 0))).
    reflexivity.
  - apply (proj2 (proj2 (proj2 (determine_strategy_spec (game_with 15 0 15 0))))).
    + discriminate.
    + split; reflexivity.
Defined.

(** ** Calling the election *)

Lemma assign_fold (items : Dict.t State.t) :
  forall acc : ElectoralCalculator.tally,
  exists bs,
    Forall2 respects (Dict.values items) bs
    /\ ElectoralCalculator.t_incumbent_evs
         (fold_left ElectoralCalculator.assign items acc)
       = (ElectoralCalculator.t_incumbent_evs acc
          + votes_for true (Dict.values items) bs)%Z
    /\ ElectoralCalculator.t_challenger_evs
         (fold_left ElectoralCalculator.assign items acc)
       = (ElectoralCalculator.t_challenger_evs acc
          + votes_for false (Dict.values items) bs)%Z.
Proof.
  induction items as [| [k s] items IH]; intros acc.
  - exists []. simpl. repeat split; [constructor | lia | lia].
  - cbn [fold_left].
    destruct (IH (ElectoralCalculator.assign acc (k, s))) as (bs & HF & Hi & Hc).
    unfold ElectoralCalculator.assign in Hi, Hc.
    destruct (state_trichotomy s)
      as [(Ei & Ec & Et) | [(Ei & Ec & Et) | (Ei & Ec & Et)]];
      rewrite Ei in Hi, Hc; try rewrite Ec in Hi, Hc.
    + exists (true :: bs). unfold ElectoralCalculator.assign. rewrite Ei.
      simpl in *. repeat split.
      * constructor; [split; congruence | exact HF].
      * rewrite Hi. lia.
      * rewrite Hc. lia.
    + exists (false :: bs). unfold ElectoralCalculator.assign. rewrite Ei, Ec.
      simpl in *. repeat split.
      * constructor; [split; congruence | exact HF].
      * rewrite Hi. lia.
      * rewrite Hc. lia.
    + unfold ElectoralCalculator.assign. rewrite Ei, Ec.
      destruct (Random.choice (true, [false]) (ElectoralCalculator.t_coins acc))
        as [[|] coins'].
      * exists (true :: bs). simpl in *. repeat split.
        -- constructor; [split; congruence | exact HF].
        -- rewrite Hi. lia.
        -- rewrite Hc. lia.
      * exists (false :: bs). simpl in *. repeat split.
        -- constructor; [split; congruence | exact HF].
        -- rewrite Hi. lia.
        -- rewrite Hc. lia.
Qed.

Lemma votes_for_total (l : list State.t) (bs : list bool) :
  Forall2 respects l bs ->
  (votes_for true l bs + votes_for false l bs)%Z
  = sum_Z (map State.electoral_votes l).
Proof.
  induction 1 as [| s b l bs _ _ IH]; [reflexivity |].
  simpl. destruct b; simpl; lia.
Qed.

Lemma votes_for_untied (l : list State.t) (bs : list bool) :
  Forall (fun s => GameState.tied s = false) l ->
  Forall2 respects l bs ->
  votes_for true l bs = votes_where GameState.incumbent_wins l
  /\ votes_for false l bs = votes_where GameState.challenger_wins l.
Proof.
  intros Hno HF. induction HF as [| s b l bs [Hi Hc] _ IH]; [split; reflexivity |].
  inversion Hno as [| ? ? Hs Hl]; subst.
  destruct (IH Hl) as [IHi IHc].
  rewrite !votes_where_cons. simpl. rewrite IHi, IHc.
  destruct (state_trichotomy s)
    as [(Ei & Ec & Et) | [(Ei & Ec & Et) | (Ei & Ec & Et)]];
    [| | congruence]; rewrite Ei, Ec.
  - rewrite (Hi Ei). split; reflexivity.
  - rewrite (Hc Ec). split; reflexivity.
Qed.

Lemma decide_winner_cases (i c : Z) :
  ((270 <= i)%Z -> ElectoralCalculator.decide_winner i c = "Incumbent")
  /\ ((i < 270)%Z -> (270 <= c)%Z ->
      ElectoralCalculator.decide_winner i c = "Challenger")
  /\ ((i < 270)%Z -> (c < 270)%Z -> (c < i)%Z ->
      ElectoralCalculator.decide_winner i c = "Incumbent")
  /\ ((i < 270)%Z -> (c < 270)%Z -> (i < c)%Z ->
      ElectoralCalculator.decide_winner i c = "Challenger")
  /\ ((i < 270)%Z -> (c < 270)%Z -> i = c ->
      ElectoralCalculator.decide_winner i c = "Incumbent").
Proof.
  unfold ElectoralCalculator.decide_winner, ElectoralCalculator.VOTES_TO_WIN.
  destruct (270 <=? i)%Z eqn:E1;
    [apply Z.leb_le in E1 | apply Z.leb_gt in E1];
    (destruct (270 <=? c)%Z eqn:E2;
       [apply Z.leb_le in E2 | apply Z.leb_gt in E2]);
    (destruct (c <? i)%Z eqn:E3;
       [apply Z.ltb_lt in E3 | apply Z.ltb_ge in E3]);
    (destruct (i <? c)%Z eqn:E4;
       [apply Z.ltb_lt in E4 | apply Z.ltb_ge in E4]);
    repeat split; intros; try reflexivity; lia.
Qed.

Lemma calculate_final_result_returns coins gs :
  GameState.total_electoral_votes gs <> 0%Z ->
  exists r,
    fst (ElectoralCalculator.calculate_final_result coins gs) = Ok r
    /\ ElectionResult.incumbent_evs r
       = ElectoralCalculator.t_incumbent_evs
           (fold_left ElectoralCalculator.assign (GameState.states gs)
              (ElectoralCalculator.mk_tally 0 0 [] coins))
    /\ ElectionResult.challenger_evs r
       = ElectoralCalculator.t_challenger_evs
           (fold_left ElectoralCalculator.assign (GameState.states gs)
              (ElectoralCalculator.mk_tally 0 0 [] coins))
    /\ ElectionResult.winner r
       = ElectoralCalculator.decide_winner (ElectionResult.incumbent_evs r)
           (ElectionResult.challenger_evs r).
Proof.
  intros Hne. unfold ElectoralCalculator.calculate_final_result.
  unfold GameState.total_electoral_votes in Hne.
  apply Z.eqb_neq in Hne. rewrite Hne.
  eexists. simpl. repeat split; reflexivity.
Qed.

(** C4. When the board carries votes at all, [calculate_final_result]
    returns a result in which every state has gone to exactly one candidate:
    to the one with strictly more support, and either way when the supports
    are equal (the coin flip), so that the two totals add up to the votes of
    the board.  The winner is the incumbent at 270 or more; failing that the
    challenger at 270 or more; failing both, whoever has strictly more votes,
    and the incumbent on an exact tie.  In particular a challenger with
    exactly 270 wins as soon as the incumbent is below 270, which is always
    so on a board of 538 votes. *)
Theorem calculate_final_result_winner (coins : Random.t) (gs : GameState.t) :
  GameState.total_electoral_votes gs <> 0%Z ->
  exists r,
    fst (ElectoralCalculator.calculate_final_result coins gs) = Ok r
    /\ (exists bs,
          Forall2 respects (Dict.values (GameState.states gs)) bs
          /\ ElectionResult.incumbent_evs r
             = votes_for true (Dict.values (GameState.states gs)) bs
          /\ ElectionResult.challenger_evs r
             = votes_for false (Dict.values (GameState.states gs)) bs)
    /\ (ElectionResult.incumbent_evs r + ElectionResult.challenger_evs r)%Z
       = GameState.total_electoral_votes gs
    /\ (let i := ElectionResult.incumbent_evs r in
        let c := ElectionResult.challenger_evs r in
        let w := ElectionResult.winner r in
        ((270 <= i)%Z -> w = "Incumbent")
        /\ ((i < 270)%Z -> (270 <= c)%Z -> w = "Challenger")
        /\ ((i < 270)%Z -> (c < 270)%Z -> (c < i)%Z -> w = "Incumbent")
        /\ ((i < 270)%Z -> (c < 270)%Z -> (i < c)%Z -> w = "Challenger")
        /\ ((i < 270)%Z -> (c < 270)%Z -> i = c -> w = "Incumbent")
        /\ (c = 270%Z -> (i < 270)%Z -> w = "Challenger")
        /\ (c = 270%Z -> GameState.total_electoral_votes gs = 538%Z ->
            w = "Challenger")).
Proof.
  intros Hne.
  destruct (calculate_final_result_returns coins gs Hne)
    as (r & Hr & Hi & Hc & Hw).
  destruct (assign_fold (GameState.states gs)
              (ElectoralCalculator.mk_tally 0 0 [] coins))
    as (bs & HF & Fi & Fc).
  simpl in Fi, Fc. rewrite <- Hi in Fi. rewrite <- Hc in Fc.
  assert (Hsum : (ElectionResult.incumbent_evs r
                  + ElectionResult.challenger_evs r)%Z
                 = GameState.total_electoral_votes gs).
  { rewrite Fi, Fc. apply votes_for_total. exact HF. }
  exists r. split; [exact Hr |]. split; [exists bs; auto |].
  split; [exact Hsum |].
  cbv zeta. rewrite Hw.
  destruct (decide_winner_cases (ElectionResult.incumbent_evs r)
              (ElectionResult.challenger_evs r))
    as (W1 & W2 & W3 & W4 & W5).
  repeat split; auto.
  - intros Hc270 Hi270. apply W2; lia.
  - intros Hc270 Htot. apply W2; lia.
Qed.

Lemma calculate_final_result_winner_witness :
  exists r,
    fst (ElectoralCalculator.calculate_final_result always_mid
           (game_with 15 0 15 0)) = Ok r
    /\ ElectionResult.winner r = "Challenger".
Proof.
  destruct (calculate_final_result_winner always_mid (game_with 15 0 15 0))
    as (r & Hr & _ & _ & Hw); [discriminate |].
  exists r. split; [exact Hr |].
  apply (proj1 (proj2 Hw)).
  - vm_compute in Hr. inversion Hr. reflexivity.
  - vm_compute in Hr. inversion Hr. discriminate.
Defined.

(** ** Asking for the result again *)

Lemma final_result_untied coins gs r :
  untied gs ->
  fst (ElectoralCalculator.calculate_final_result coins gs) = Ok r ->
  ElectionResult.winner r
  = ElectoralCalculator.decide_winner
      (GameState.incumbent_electoral_votes gs)
      (GameState.challenger_electoral_votes gs).
Proof.
  intros Hno Hr.
  assert (Hne : GameState.total_electoral_votes gs <> 0%Z).
  { intro H0. unfold ElectoralCalculator.calculate_final_result in Hr.
    unfold GameState.total_electoral_votes in H0. rewrite H0 in Hr.
    simpl in Hr. discriminate. }
  destruct (calculate_final_result_returns coins gs Hne)
    as (r' & Hr' & Hi & Hc & Hw).
  rewrite Hr in Hr'. injection Hr' as <-.
  destruct (assign_fold (GameState.states gs)
              (ElectoralCalculator.mk_tally 0 0 [] coins))
    as (bs & HF & Fi & Fc).
  destruct (votes_for_untied _ _ Hno HF) as [Ui Uc].
  rewrite Hw, Hi, Hc, Fi, Fc, Ui, Uc. reflexivity.
Qed.

Lemma reachable_run calls : forall w, reachable w -> reachable (run calls w).
Proof.
  induction calls as [| c calls IH]; intros w Hw; [exact Hw |].
  unfold run. cbn [fold_left]. apply IH. apply reachable_step. exact Hw.
Qed.

Lemma standing_winner_states gs gs0 :
  GameState.states gs = GameState.states gs0 ->
  standing_winner gs = standing_winner gs0.
Proof.
  intros H. unfold standing_winner, GameState.incumbent_electoral_votes,
    GameState.challenger_electoral_votes. rewrite H. reflexivity.
Qed.

Lemma end_game_stands gs0 e coins gs :
  GameEngine.game_state e = Some gs ->
  GameState.states gs = GameState.states gs0 ->
  untied gs0 ->
  GameState.total_electoral_votes gs0 <> 0%Z ->
  result_stands gs0 (step (e, coins) EndGame).
Proof.
  intros Hgs Hst Hno Hne.
  assert (Hno' : untied gs) by (unfold untied in *; rewrite Hst; exact Hno).
  assert (Hne' : GameState.total_electoral_votes gs <> 0%Z)
    by (unfold GameState.total_electoral_votes in *; rewrite Hst; exact Hne).
  destruct (calculate_final_result_returns coins gs Hne')
    as (r & Hr & _ & _ & _).
  pose proof (final_result_untied coins gs r Hno' Hr) as Hw.
  unfold GameEngine.game_state in Hgs.
  cbn [step]. unfold GameEngine.end_game. rewrite Hgs.
  destruct (ElectoralCalculator.calculate_final_result coins gs) as [res c1].
  cbn [fst] in Hr. subst res. cbn [fst snd].
  exists (GameState.end_game gs (ElectionResult.winner r)).
  split; [reflexivity |]. split; [reflexivity |]. split; [exact Hst |].
  cbn [GameState.end_game GameState.winner GameState.new].
  rewrite Hw. fold (standing_winner gs).
  rewrite (standing_winner_states gs gs0 Hst). reflexivity.
Qed.

Lemma quiet_step_stands gs0 w c :
  untied gs0 ->
  GameState.total_electoral_votes gs0 <> 0%Z ->
  quiet c = true ->
  result_stands gs0 w ->
  result_stands gs0 (step w c).
Proof.
  intros Hno Hne Hq (gs & Hgs & Hover & Hst & Hw).
  destruct w as [e coins]. cbn [fst] in Hgs.
  destruct c as [pn cn | | a ts | a ts | |]; try discriminate Hq.
  - cbn [step]. unfold GameEngine.start_turn.
    unfold GameEngine.game_state in Hgs. rewrite Hgs, Hover. cbn [snd].
    exists gs. repeat split; assumption.
  - pose proof (end_game_stands gs0 e coins gs Hgs Hst Hno Hne) as Hend.
    cbn [step] in *. unfold GameEngine.end_turn.
    unfold GameEngine.game_state in Hgs. rewrite Hgs.
    destruct (GameState.max_turns gs <=? GameState.current_turn gs)%Z.
    + exact Hend.
    + exists (GameState.advance_turn gs).
      split; [reflexivity |]. split; [exact Hover |].
      split; [exact Hst | exact Hw].
  - exact (end_game_stands gs0 e coins gs Hgs Hst Hno Hne).
Qed.

Lemma quiet_run_stands gs0 calls :
  untied gs0 ->
  GameState.total_electoral_votes gs0 <> 0%Z ->
  forallb quiet calls = true ->
  forall w, result_stands gs0 w -> result_stands gs0 (run calls w).
Proof.
  intros Hno Hne. induction calls as [| c calls IH]; intros Hq w Hw.
  - exact Hw.
  - cbn [forallb] in Hq. apply andb_true_iff in Hq. destruct Hq as [Hc Hq].
    unfold run. cbn [fold_left]. apply (IH Hq).
    apply quiet_step_stands; assumption.
Qed.

Lemma get_election_result_ended coins e gs :
  GameEngine.game_state e = Some gs ->
  GameState.game_over gs = true ->
  GameEngine.get_election_result coins e
  = (match fst (ElectoralCalculator.calculate_final_result coins gs) with
     | Ok r => Ok (Some r)
     | Raise x => Raise x
     end,
     snd (ElectoralCalculator.calculate_final_result coins gs)).
Proof.
  intros Hgs Hover. unfold GameEngine.get_election_result.
  unfold GameEngine.game_state in Hgs. rewrite Hgs, Hover. cbn [negb].
  destruct (ElectoralCalculator.calculate_final_result coins gs) as [[r | x] c];
    reflexivity.
Qed.

(** C10 as stated fails.  Nothing stops an action after the game is over:
    the incumbent organizes in Florida and Wisconsin, so that no state is
    tied, and [end_game] stores [Incumbent] on 302 votes to 236; the
    challenger then runs ads in the two states and leads both.  The game is
    still over, still says [Incumbent], and no state is tied, yet
    [get_election_result] answers [Challenger], 276 to 262, whatever the
    coins. *)
Lemma ended_game_played_on :
  reachable overtime_world
  /\ exists gs,
       GameEngine.game_state (fst overtime_world) = Some gs
       /\ GameState.game_over gs = true
       /\ untied gs
       /\ GameState.winner gs = Some "Incumbent"
       /\ forall coins,
            exists r,
              fst (GameEngine.get_election_result coins (fst overtime_world))
              = Ok (Some r)
              /\ ElectionResult.winner r = "Challenger"
              /\ ElectionResult.incumbent_evs r = 262%Z
              /\ ElectionResult.challenger_evs r = 276%Z.
Proof.
  split.
  - unfold overtime_world, organized_world.
    do 2 apply reachable_run. apply reachable_init.
  - eexists. split; [vm_compute; reflexivity |].
    split; [reflexivity |].
    split; [unfold untied; vm_compute; repeat constructor |].
    split; [reflexivity |].
    intros coins. eexists. split; [vm_compute; reflexivity |].
    repeat split; reflexivity.
Qed.

(** C10, as the code has it.  On an ended game [get_election_result]
    returns what [calculate_final_result] computes from the game state held
    at the time of the call, on the coin flips of the moment, and raises
    when that raises; the stored winner plays no part.  When [end_game] is
    called on a board that carries votes and has no tied state, and only
    [start_turn], [end_turn] and [end_game] are called afterwards, the game
    is over on the same board and the winner recomputed is the winner
    stored.  When a state is tied the two can differ: on the shipped board,
    where Florida and Wisconsin start tied, flips that all favour the
    incumbent at [end_game] store [Incumbent], and flips that all favour the
    challenger afterwards make [get_election_result] answer [Challenger]. *)
Theorem get_election_result_recomputes :
  (forall (coins : Random.t) (e : GameEngine.t) (gs : GameState.t),
      GameEngine.game_state e = Some gs ->
      GameState.game_over gs = true ->
      GameEngine.get_election_result coins e
      = (match fst (ElectoralCalculator.calculate_final_result coins gs) with
         | Ok r => Ok (Some r)
         | Raise x => Raise x
         end,
         snd (ElectoralCalculator.calculate_final_result coins gs)))
  /\ (forall (coins coins2 : Random.t) (e : GameEngine.t) (gs : GameState.t)
             (calls : list call),
        GameEngine.game_state e = Some gs ->
        GameState.total_electoral_votes gs <> 0%Z ->
        untied gs ->
        forallb quiet calls = true ->
        let w := run (EndGame :: calls) (e, coins) in
        exists gs' r2,
          GameEngine.game_state (fst w) = Some gs'
          /\ GameState.game_over gs' = true
          /\ GameState.states gs' = GameState.states gs
          /\ fst (GameEngine.get_election_result coins2 (fst w)) = Ok (Some r2)
          /\ fst (ElectoralCalculator.calculate_final_result coins2 gs') = Ok r2
          /\ GameState.winner gs' = Some (ElectionResult.winner r2))
  /\ (exists (e : GameEngine.t) (gs' : GameState.t) (r2 : ElectionResult.t),
        let e' := snd (fst (GameEngine.end_game always_low e)) in
        GameEngine.game_state e' = Some gs'
        /\ fst (GameEngine.get_election_result always_mid e') = Ok (Some r2)
        /\ GameState.winner gs' = Some "Incumbent"
        /\ ElectionResult.winner r2 = "Challenger").
Proof.
  split; [exact get_election_result_ended |]. split.
  - intros coins coins2 e gs calls Hgs Hne Hno Hq w.
    assert (Hw : result_stands gs w).
    { subst w. unfold run. cbn [fold_left].
      apply (quiet_run_stands gs calls Hno Hne Hq).
      exact (end_game_stands gs e coins gs Hgs eq_refl Hno Hne). }
    destruct Hw as (gs' & Hgs' & Hover & Hst & Hwin).
    assert (Hno' : untied gs') by (unfold untied in *; rewrite Hst; exact Hno).
    assert (Hne' : GameState.total_electoral_votes gs' <> 0%Z)
      by (unfold GameState.total_electoral_votes in *; rewrite Hst; exact Hne).
    destruct (calculate_final_result_returns coins2 gs' Hne')
      as (r2 & Hr2 & _ & _ & _).
    exists gs', r2.
    split; [exact Hgs' |]. split; [exact Hover |]. split; [exact Hst |].
    split; [rewrite (get_election_result_ended coins2 _ gs' Hgs' Hover);
            cbn [fst]; rewrite Hr2; reflexivity |].
    split; [exact Hr2 |].
    rewrite Hwin, (final_result_untied coins2 gs' r2 Hno' Hr2).
    fold (standing_winner gs').
    rewrite (standing_winner_states gs' gs Hst). reflexivity.
  - exists (snd (GameEngine.new_game
                   (GameEngine.mk always_low always_low None) "A" "B")).
    vm_compute. eexists; eexists. repeat split; reflexivity.
Qed.

Lemma get_election_result_recomputes_witness :
  forallb quiet [EndTurn; StartTurn; EndGame] = true
  /\ exists gs' r2,
       GameEngine.game_state
         (fst (run [EndGame; EndTurn; StartTurn; EndGame]
                 (fst organized_world, always_low)))
       = Some gs'
       /\ GameState.game_over gs' = true
       /\ fst (GameEngine.get_election_result always_mid
                 (fst (run [EndGame; EndTurn; StartTurn; EndGame]
                         (fst organized_world, always_low))))
          = Ok (Some r2)
       /\ GameState.winner gs' = Some (ElectionResult.winner r2).
Proof.
  split; [reflexivity |].
  assert (Hgs : exists gs,
             GameEngine.game_state (fst organized_world) = Some gs
             /\ GameState.total_electoral_votes gs <> 0%Z
             /\ untied gs).
  { eexists. split; [vm_compute; reflexivity |].
    split; [vm_compute; discriminate |].
    unfold untied. vm_compute. repeat constructor. }
  destruct Hgs as (gs & Hgs & Hne & Hno).
  destruct (proj1 (proj2 get_election_result_recomputes)
              always_low always_mid (fst organized_world) gs
              [EndTurn; StartTurn; EndGame] Hgs Hne Hno eq_refl)
    as (gs' & r2 & H1 & H2 & _ & H4 & _ & H6).
  exists gs', r2.
  split; [exact H1 |]. split; [exact H2 |]. split; [exact H4 | exact H6].
Defined.

(** ** Reproducibility *)

(** C3. Two engines constructed with the same seed are in the same state,
    whatever state their generators were created in; yet given the same two
    calls, [new_game] then [end_game], they go through different game states
    and declare different winners as soon as the module-level generator,
    which no seed of the engine reaches, flips the coins of Florida and
    Wisconsin differently. *)
Theorem same_seed_different_election
    (twister : Z -> nat -> N) (seed : Z)
    (fresh_ap fresh_eg fresh_ap' fresh_eg' : Random.t) :
  let e1 := GameEngine.init twister fresh_ap fresh_eg (Some seed) in
  let e2 := GameEngine.init twister fresh_ap' fresh_eg' (Some seed) in
  let calls := [NewGame "A" "B"; EndGame] in
  e1 = e2
  /\ trajectory calls (e1, always_low) <> trajectory calls (e2, always_mid)
  /\ (exists gs1 gs2,
        GameEngine.game_state (fst (run calls (e1, always_low))) = Some gs1
        /\ GameEngine.game_state (fst (run calls (e2, always_mid))) = Some gs2
        /\ GameState.winner gs1 = Some "Incumbent"
        /\ GameState.winner gs2 = Some "Challenger")
  /\ (exists r1 r2,
        fst (GameEngine.get_election_result always_low
               (fst (run calls (e1, always_low)))) = Ok (Some r1)
        /\ fst (GameEngine.get_election_result always_mid
                  (fst (run calls (e2, always_mid)))) = Ok (Some r2)
        /\ ElectionResult.incumbent_evs r1 = 302%Z
        /\ ElectionResult.challenger_evs r1 = 236%Z
        /\ ElectionResult.incumbent_evs r2 = 262%Z
        /\ ElectionResult.challenger_evs r2 = 276%Z).
Proof.
  intros e1 e2 calls. subst e1 e2 calls.
  split; [reflexivity |].
  split; [vm_compute; discriminate |].
  split.
  - vm_compute. eexists; eexists. repeat split; reflexivity.
  - vm_compute. eexists; eexists. repeat split; reflexivity.
Qed.

(** What the seed does fix: with the module-level generator in the same
    state on both sides, the same calls give the same trajectory. *)
Lemma same_seed_same_coins_same_trajectory
    (twister : Z -> nat -> N) (seed : Z)
    (fresh_ap fresh_eg fresh_ap' fresh_eg' coins : Random.t)
    (calls : list call) :
  trajectory calls
    (GameEngine.init twister fresh_ap fresh_eg (Some seed), coins)
  = trajectory calls
      (GameEngine.init twister fresh_ap' fresh_eg' (Some seed), coins).
Proof. reflexivity. Qed.

(** ** Electoral votes never move *)

Lemma apply_support_change_votes s ic cc :
  State.electoral_votes (State.apply_support_change s ic cc)
  = State.electoral_votes s.
Proof.
  unfold State.apply_support_change.
  destruct (State.rescaled s ic cc); reflexivity.
Qed.

Lemma ev_table_votes d :
  map State.electoral_votes (Dict.values d) = map snd (ev_table d).
Proof.
  unfold Dict.values, ev_table. rewrite !map_map. reflexivity.
Qed.

Lemma ev_table_map_values (f : State.t -> State.t) d :
  (forall s, State.electoral_votes (f s) = State.electoral_votes s) ->
  ev_table (Dict.map_values f d) = ev_table d.
Proof.
  intros Hf. unfold ev_table, Dict.map_values. rewrite map_map.
  apply map_ext. intros [k s]. simpl. now rewrite Hf.
Qed.

Lemma ev_table_set d k v v' :
  Dict.get d k = Some v ->
  State.electoral_votes v' = State.electoral_votes v ->
  ev_table (Dict.set d k v') = ev_table d.
Proof.
  intros Hget Hev. induction d as [| [k0 v0] d IH]; [discriminate |].
  simpl in *. destruct (String.eqb k k0).
  - injection Hget as ->. simpl. now rewrite Hev.
  - simpl. now rewrite (IH Hget).
Qed.

Lemma target_step_votes b effect acc k :
  ev_table (fst (ActionProcessor.target_step b effect acc k))
  = ev_table (fst acc).
Proof.
  destruct acc as [d sc]. unfold ActionProcessor.target_step.
  destruct (Dict.get d k) as [s |] eqn:E; [| reflexivity].
  simpl. apply (ev_table_set _ _ s); [exact E |].
  destruct b; apply apply_support_change_votes.
Qed.

Lemma target_fold_votes b effect l :
  forall acc,
    ev_table (fst (fold_left (ActionProcessor.target_step b effect) l acc))
    = ev_table (fst acc).
Proof.
  induction l as [| k l IH]; intros acc; [reflexivity |].
  simpl. rewrite IH. apply target_step_votes.
Qed.

Lemma event_fold_votes ev l :
  forall d,
    ev_table (fold_left (EventGenerator.event_step ev) l d) = ev_table d.
Proof.
  induction l as [| k l IH]; intros d; [reflexivity |].
  simpl. rewrite IH. unfold EventGenerator.event_step.
  destruct (Dict.get d k) as [s |] eqn:E; [| reflexivity].
  apply (ev_table_set _ _ s); [exact E |].
  destruct (GameEvent.affects_incumbent ev); apply apply_support_change_votes.
Qed.

Lemma rebuild_states gs b p d :
  GameState.states (ActionProcessor.rebuild gs b p d) = d.
Proof. destruct b; reflexivity. Qed.

Lemma execute_action_votes rng gs a b ts :
  ev_table
    (GameState.states
       (fst (fst (ActionProcessor.execute_action rng gs a b ts))))
  = ev_table (GameState.states gs).
Proof.
  unfold ActionProcessor.execute_action.
  destruct (negb (Player.can_afford _ _)); [reflexivity |].
  destruct (ActionType_eqb a FUNDRAISER).
  { unfold ActionProcessor._execute_fundraiser.
    destruct (Random.randint _ _ rng) as [raised rng'].
    destruct b; reflexivity. }
  destruct (ActionType_eqb a OPPOSITION_RESEARCH).
  { unfold ActionProcessor._execute_opposition_research. cbn [fst snd].
    rewrite rebuild_states. apply ev_table_map_values.
    intros s. destruct b; apply apply_support_change_votes. }
  destruct (0 <? ActionDefinition.target_states _)%Z.
  { unfold ActionProcessor._execute_targeted_action.
    match goal with
    | |- context [fold_left (ActionProcessor.target_step ?bb ?eff) ?l ?acc] =>
        pose proof (target_fold_votes bb eff l acc) as H;
        destruct (fold_left (ActionProcessor.target_step bb eff) l acc)
          as [d sc]
    end.
    cbn [fst snd] in *. rewrite rebuild_states. exact H. }
  unfold ActionProcessor._execute_national_action. cbn [fst snd].
  rewrite rebuild_states. apply ev_table_map_values.
  intros s. destruct b; apply apply_support_change_votes.
Qed.

Lemma apply_event_votes gs ev :
  ev_table (GameState.states (EventGenerator.apply_event gs ev))
  = ev_table (GameState.states gs).
Proof.
  unfold EventGenerator.apply_event. cbn [GameState.states GameState.new].
  destruct (GameEvent.is_national ev).
  - apply ev_table_map_values.
    intros s. destruct (GameEvent.affects_incumbent ev);
      apply apply_support_change_votes.
  - apply event_fold_votes.
Qed.

Lemma execute_as_kept b e coins a ts :
  board_kept (e, coins) ->
  board_kept (snd (GameEngine.execute_as b e a ts), coins).
Proof.
  intros Hw gs. unfold GameEngine.execute_as.
  destruct (GameEngine._game_state e) as [gs0 |] eqn:E; [| apply Hw].
  pose proof (execute_action_votes (GameEngine.action_processor e) gs0 a b ts)
    as Hv.
  destruct (ActionProcessor.execute_action _ gs0 a b ts) as [[gs1 res] ap].
  cbn [fst snd] in *. unfold GameEngine.game_state. cbn.
  intros H. injection H as <-. rewrite Hv. apply Hw. exact E.
Qed.

Lemma end_game_kept e coins :
  board_kept (e, coins) ->
  board_kept (snd (fst (GameEngine.end_game coins e)),
              snd (GameEngine.end_game coins e)).
Proof.
  intros Hw gs. unfold GameEngine.end_game.
  destruct (GameEngine._game_state e) as [gs0 |] eqn:E; [| apply Hw].
  destruct (ElectoralCalculator.calculate_final_result coins gs0)
    as [[res | x] c1]; cbn [fst snd].
  - unfold GameEngine.game_state. cbn.
    intros H. injection H as <-. exact (Hw gs0 E).
  - apply Hw.
Qed.

Lemma step_kept w c : board_kept w -> board_kept (step w c).
Proof.
  destruct w as [e coins]. intros Hw.
  destruct c as [pn cn | | a ts | a ts | |]; cbn [step].
  - intros gs H. unfold GameEngine.game_state in H. cbn in H.
    injection H as <-. reflexivity.
  - intros gs. unfold GameEngine.start_turn.
    destruct (GameEngine._game_state e) as [gs0 |] eqn:E; [| apply Hw].
    destruct (GameState.game_over gs0); [apply Hw |].
    destruct (EventGenerator.maybe_generate_event _ gs0) as [[ev |] eg];
      cbn [fst snd]; unfold GameEngine.game_state; cbn;
      intros H; injection H as <-.
    + rewrite apply_event_votes. apply Hw. exact E.
    + apply Hw. exact E.
  - apply execute_as_kept. exact Hw.
  - apply execute_as_kept. exact Hw.
  - pose proof (end_game_kept e coins Hw) as Hend.
    unfold GameEngine.end_turn.
    destruct (GameEngine._game_state e) as [gs0 |] eqn:E; [| exact Hw].
    destruct (GameState.max_turns gs0 <=? GameState.current_turn gs0)%Z.
    + destruct (GameEngine.end_game coins e) as [[res e'] c']. exact Hend.
    + intros gs H. unfold GameEngine.game_state in H. cbn in H.
      injection H as <-. exact (Hw gs0 E).
  - pose proof (end_game_kept e coins Hw) as Hend.
    destruct (GameEngine.end_game coins e) as [[res e'] c']. exact Hend.
Qed.

Lemma reachable_kept w : reachable w -> board_kept w.
Proof.
  induction 1 as [twister fa fe seed coins | w c _ IH].
  - intros gs H. destruct seed; discriminate.
  - apply step_kept. exact IH.
Qed.

(** C5. In every world reachable by engine calls, the game the engine holds
    has, state by state and in order, the electoral votes of the shipped
    board; their sum is 538; and that sum is the incumbent's votes plus the
    challenger's plus the tied ones, as the derived properties count
    them. *)
Theorem electoral_votes_invariant (w : world) (gs : GameState.t) :
  reachable w ->
  GameEngine.game_state (fst w) = Some gs ->
  ev_table (GameState.states gs) = ev_table INITIAL_STATES
  /\ GameState.total_electoral_votes gs = 538%Z
  /\ GameState.total_electoral_votes gs
     = (GameState.incumbent_electoral_votes gs
        + GameState.challenger_electoral_votes gs
        + GameState.tied_electoral_votes gs)%Z.
Proof.
  intros Hr Hgs. pose proof (reachable_kept w Hr gs Hgs) as Hk.
  repeat split.
  - exact Hk.
  - unfold GameState.total_electoral_votes.
    rewrite ev_table_votes, Hk. reflexivity.
  - apply votes_partition.
Qed.

Lemma electoral_votes_invariant_witness :
  exists gs,
    GameEngine.game_state (fst played_world) = Some gs
    /\ GameState.total_electoral_votes gs = 538%Z.
Proof.
  destruct (GameEngine.game_state (fst played_world)) as [gs |] eqn:E;
    [| vm_compute in E; discriminate].
  exists gs. split; [reflexivity |].
  apply (electoral_votes_invariant played_world gs); [| exact E].
  unfold played_world, run. cbn [fold_left].
  apply reachable_step. apply reachable_step. apply reachable_init.
Defined.

(** ** Opposition research *)

Lemma round1_fixed y m : y * 10 == inject_Z m -> Num.round1 y == y.
Proof.
  intros H. unfold Num.round1. rewrite (round_half_even_int _ _ H).
  unfold Qdiv. change (/ 10) with (1 # 10). lra.
Qed.

Lemma round1_fixed_shift x y :
  Num.round1 x == x -> y == x - (25 # 10) -> Num.round1 y == y.
Proof.
  intros Hx Hy. unfold Num.round1 in Hx.
  set (n := Num.round_half_even (x * 10)) in *.
  unfold Qdiv in Hx. change (/ 10) with (1 # 10) in Hx.
  apply (round1_fixed y (n - 25)).
  unfold Z.sub. rewrite inject_Z_plus, inject_Z_opp.
  change (inject_Z 25) with 25. lra.
Qed.

Lemma clamp_id x : 0 <= x <= 100 -> Qmax 0 (Qmin 100 x) == x.
Proof.
  intros [H0 H1].
  destruct (Q.min_spec 100 x) as [[Hlt Hm] | [Hle Hm]];
    destruct (Q.max_spec 0 (Qmin 100 x)) as [[Hlt' HM] | [Hle' HM]]; lra.
Qed.

Lemma hurt_exact b e s :
  e == - (25 # 10) ->
  0 <= own_support b s <= 100 ->
  25 # 10 <= opponent_support b s <= 100 ->
  own_support b s + opponent_support b s <= 100 + (25 # 10) ->
  Num.round1 (opponent_support b s) == opponent_support b s ->
  opponent_support b (hurt b e s) == opponent_support b s - (25 # 10).
Proof.
  intros He Hown Hopp Hsum Hgrid.
  destruct b; unfold own_support, opponent_support, hurt in *.
  - destruct (apply_support_change_supports s 0 e) as [_ ->].
    unfold State.rescaled.
    assert (Hx : Qmax 0 (Qmin 100 (State.incumbent_support s + 0))
                 == State.incumbent_support s)
      by (rewrite clamp_id; lra).
    assert (Hy : Qmax 0 (Qmin 100 (State.challenger_support s + e))
                 == State.challenger_support s - (25 # 10))
      by (rewrite clamp_id; lra).
    set (x := Qmax 0 (Qmin 100 (State.incumbent_support s + 0))) in *.
    set (y := Qmax 0 (Qmin 100 (State.challenger_support s + e))) in *.
    assert (E : Num.ltb 100 (x + y) = false) by (apply ltb_false; lra).
    rewrite E. cbn [snd].
    rewrite (round1_fixed_shift (State.challenger_support s) y Hgrid Hy).
    exact Hy.
  - destruct (apply_support_change_supports s e 0) as [-> _].
    unfold State.rescaled.
    assert (Hx : Qmax 0 (Qmin 100 (State.incumbent_support s + e))
                 == State.incumbent_support s - (25 # 10))
      by (rewrite clamp_id; lra).
    assert (Hy : Qmax 0 (Qmin 100 (State.challenger_support s + 0))
                 == State.challenger_support s)
      by (rewrite clamp_id; lra).
    set (x := Qmax 0 (Qmin 100 (State.incumbent_support s + e))) in *.
    set (y := Qmax 0 (Qmin 100 (State.challenger_support s + 0))) in *.
    assert (E : Num.ltb 100 (x + y) = false) by (apply ltb_false; lra).
    rewrite E. cbn [fst].
    rewrite (round1_fixed_shift (State.incumbent_support s) x Hgrid Hx).
    exact Hx.
Qed.

Lemma acting_player_rebuild gs b p d :
  ActionProcessor.acting_player (ActionProcessor.rebuild gs b p d) b = p.
Proof. destruct b; reflexivity. Qed.

Lemma keys_map_values (f : State.t -> State.t) (d : Dict.t State.t) :
  Dict.keys (Dict.map_values f d) = Dict.keys d.
Proof.
  unfold Dict.keys, Dict.map_values. rewrite map_map. reflexivity.
Qed.

Lemma update_spends (p : Player.t) (cost change : Z) :
  (0 <= cost <= Player.funds p)%Z ->
  Player.funds (Player.update p (- cost) change) = (Player.funds p - cost)%Z.
Proof. intros H. simpl. lia. Qed.

Lemma update_momentum (p : Player.t) (funds_change change : Z) :
  Player.momentum (Player.update p funds_change change)
  = Player.clamp_momentum p (Player.momentum p + change).
Proof. reflexivity. Qed.

(** C6. Opposition research by a player who can pay for it, and whose
    momentum lies within the player's bounds, succeeds; it takes 3 from the
    player's funds and leaves the momentum as it was (the recorded change is
    0); it applies the effect, -2.5 times the player's momentum modifier, to
    the opponent's support in every state, and records that effect for every
    state.  At momentum 0 the effect is -2.5, and in every state where the
    clamp and the rescale do not bite and the opponent's support is a number
    of tenths, that support goes down by exactly 2.5. *)
Theorem opposition_research_spec
    (rng : Random.t) (gs : GameState.t) (is_incumbent : bool)
    (targets : option (list string)) :
  let p := ActionProcessor.acting_player gs is_incumbent in
  (3 <= Player.funds p)%Z ->
  (Player.MIN_MOMENTUM p <= Player.momentum p <= Player.MAX_MOMENTUM p)%Z ->
  let out :=
    ActionProcessor.execute_action rng gs OPPOSITION_RESEARCH is_incumbent
      targets in
  let gs' := fst (fst out) in
  let r := snd (fst out) in
  let effect := - (25 # 10) * Player.momentum_modifier p in
  ActionResult.success r = true
  /\ ActionResult.funds_spent r = 3%Z
  /\ Player.funds (ActionProcessor.acting_player gs' is_incumbent)
     = (Player.funds p - 3)%Z
  /\ ActionResult.momentum_change r = 0%Z
  /\ Player.momentum (ActionProcessor.acting_player gs' is_incumbent)
     = Player.momentum p
  /\ GameState.states gs'
     = Dict.map_values (hurt is_incumbent effect) (GameState.states gs)
  /\ ActionResult.support_changes r
     = map (fun abbrev => (abbrev, effect)) (Dict.keys (GameState.states gs))
  /\ ActionResult.affected_states r = Dict.keys (GameState.states gs)
  /\ (Player.momentum p = 0%Z ->
      effect == - (25 # 10)
      /\ forall s,
           In s (Dict.values (GameState.states gs)) ->
           0 <= own_support is_incumbent s <= 100 ->
           25 # 10 <= opponent_support is_incumbent s <= 100 ->
           own_support is_incumbent s + opponent_support is_incumbent s
             <= 100 + (25 # 10) ->
           Num.round1 (opponent_support is_incumbent s)
             == opponent_support is_incumbent s ->
           opponent_support is_incumbent (hurt is_incumbent effect s)
             == opponent_support is_incumbent s - (25 # 10)).
Proof.
  intros p Hfunds Hmom out gs' r effect.
  subst out gs' r effect. unfold ActionProcessor.execute_action.
  fold p. unfold Player.can_afford.
  change (ActionDefinition.cost (get_action_definition OPPOSITION_RESEARCH))
    with 3%Z.
  replace (3 <=? Player.funds p)%Z with true
    by (symmetry; apply Z.leb_le; exact Hfunds).
  cbn [negb ActionType_eqb fst snd].
  unfold ActionProcessor._execute_opposition_research. cbn [fst snd].
  fold p. rewrite acting_player_rebuild, rebuild_states.
  cbn [ActionResult.success ActionResult.funds_spent
       ActionResult.momentum_change ActionResult.support_changes
       ActionResult.affected_states].
  change (ActionDefinition.cost (get_action_definition OPPOSITION_RESEARCH))
    with 3%Z.
  change (ActionDefinition.momentum_change
            (get_action_definition OPPOSITION_RESEARCH)) with 0%Z.
  change (ActionDefinition.base_support_change
            (get_action_definition OPPOSITION_RESEARCH)) with (- (25 # 10)).
  repeat split.
  - apply update_spends. lia.
  - rewrite update_momentum. unfold Player.clamp_momentum. lia.
  - apply keys_map_values.
  - unfold Player.momentum_modifier, Num.of_int. rewrite H.
    change (inject_Z 0) with 0. field.
  - intros s _ Hown Hopp Hsum Hgrid.
    apply hurt_exact; try assumption.
    unfold Player.momentum_modifier, Num.of_int. rewrite H.
    change (inject_Z 0) with 0. field.
Qed.

Lemma opposition_research_spec_witness :
  let gs := game_with 15 0 15 0 in
  let out :=
    ActionProcessor.execute_action always_low gs OPPOSITION_RESEARCH true
      None in
  Player.funds (ActionProcessor.acting_player (fst (fst out)) true) = 12%Z
  /\ opponent_support true
       (hurt true
          (- (25 # 10)
           * Player.momentum_modifier (ActionProcessor.acting_player gs true))
          michigan)
     == 45.
Proof.
  intros gs out.
  destruct (opposition_research_spec always_low gs true None)
    as (_ & _ & Hfunds & _ & _ & _ & _ & _ & Hzero).
  - simpl. lia.
  - simpl. lia.
  - split; [exact Hfunds |].
    destruct (Hzero eq_refl) as [_ Hall].
    rewrite (Hall michigan).
    + reflexivity.
    + simpl. do 7 right. left. reflexivity.
    + simpl. lra.
    + simpl. lra.
    + simpl. lra.
    + vm_compute. reflexivity.
Defined.

(** ** Targets the board does not know *)

Section DictFacts.
Context {V : Type}.
Implicit Types (d : Dict.t V) (k : string) (v : V).

Lemma mem_keys d k : Dict.mem d k = true <-> In k (Dict.keys d).
Proof.
  unfold Dict.mem. induction d as [| [k0 v0] d IH]; simpl.
  - split; [discriminate | contradiction].
  - destruct (String.eqb k k0) eqn:E.
    + apply String.eqb_eq in E. subst. split; auto.
    + apply String.eqb_neq in E. rewrite IH.
      split; [auto | intros [H | H]; [congruence | exact H]].
Qed.

Lemma keys_set_present d k v :
  In k (Dict.keys d) -> Dict.keys (Dict.set d k v) = Dict.keys d.
Proof.
  induction d as [| [k0 v0] d IH]; simpl; [contradiction |].
  intros Hin. destruct (String.eqb k k0) eqn:E; [reflexivity |].
  apply String.eqb_neq in E. simpl. f_equal. apply IH.
  destruct Hin as [H | H]; [congruence | exact H].
Qed.

Lemma keys_set d k v :
  forall k', In k' (Dict.keys (Dict.set d k v)) <-> k' = k \/ In k' (Dict.keys d).
Proof.
  intros k'. induction d as [| [k0 v0] d IH]; simpl.
  - split; [intros [H | []]; auto | intros [H | []]; auto].
  - destruct (String.eqb k k0) eqn:E; simpl.
    + apply String.eqb_eq in E. subst. intuition congruence.
    + rewrite IH. intuition congruence.
Qed.

Lemma get_set_other d k v k' :
  k' <> k -> Dict.get (Dict.set d k v) k' = Dict.get d k'.
Proof.
  intros Hne. induction d as [| [k0 v0] d IH]; simpl.
  - apply String.eqb_neq in Hne. rewrite Hne. reflexivity.
  - destruct (String.eqb k k0) eqn:E; simpl.
    + apply String.eqb_eq in E. subst.
      apply String.eqb_neq in Hne. rewrite Hne. reflexivity.
    + destruct (String.eqb k' k0); [reflexivity | exact IH].
Qed.

Lemma get_set_same d k v : Dict.get (Dict.set d k v) k = Some v.
Proof.
  induction d as [| [k0 v0] d IH]; simpl.
  - rewrite String.eqb_refl. reflexivity.
  - destruct (String.eqb k k0) eqn:E; simpl; rewrite E; [reflexivity | exact IH].
Qed.

Lemma get_some_keys d k v : Dict.get d k = Some v -> In k (Dict.keys d).
Proof.
  intros H. apply mem_keys. unfold Dict.mem. rewrite H. reflexivity.
Qed.

Lemma get_none_keys d k : Dict.get d k = None -> ~ In k (Dict.keys d).
Proof.
  intros H Hin. apply mem_keys in Hin. unfold Dict.mem in Hin.
  rewrite H in Hin. discriminate.
Qed.

End DictFacts.

Lemma target_fold_spec b effect l :
  forall d sc,
    let out := fold_left (ActionProcessor.target_step b effect) l (d, sc) in
    Dict.keys (fst out) = Dict.keys d
    /\ (forall k, ~ In k l -> Dict.get (fst out) k = Dict.get d k)
    /\ (forall k,
          In k (Dict.keys (snd out))
          <-> In k (Dict.keys sc) \/ (In k l /\ In k (Dict.keys d))).
Proof.
  induction l as [| k0 l IH]; intros d sc; cbn [fold_left].
  - cbn. repeat split; auto. tauto.
  - cbv zeta.
    assert (Hstep :
      ActionProcessor.target_step b effect (d, sc) k0
      = match Dict.get d k0 with
        | Some state =>
            (Dict.set d k0
               (if b then State.apply_support_change state effect 0
                else State.apply_support_change state 0 effect),
             Dict.set sc k0 effect)
        | None => (d, sc)
        end) by reflexivity.
    rewrite Hstep. clear Hstep.
    destruct (Dict.get d k0) as [s |] eqn:E.
    + set (d1 := Dict.set d k0 _). set (sc1 := Dict.set sc k0 effect).
      destruct (IH d1 sc1) as (Hk & Hg & Hs).
      assert (Hk1 : Dict.keys d1 = Dict.keys d)
        by (apply keys_set_present; eapply get_some_keys; exact E).
      unfold Dict.t in *. repeat split.
      * rewrite Hk. exact Hk1.
      * intros k Hn. rewrite Hg by (intro; apply Hn; right; assumption).
        apply get_set_other. intro; apply Hn; left; congruence.
      * rewrite Hs, Hk1. unfold sc1. rewrite keys_set.
        intros [[-> | H] | [H1 H2]].
        -- right. split; [left; reflexivity |].
           eapply get_some_keys; exact E.
        -- left; exact H.
        -- right. split; [right; exact H1 | exact H2].
      * rewrite Hs, Hk1. unfold sc1. rewrite keys_set.
        intros [H | [[<- | H1] H2]]; auto.
    + destruct (IH d sc) as (Hk & Hg & Hs).
      unfold Dict.t in *. repeat split.
      * exact Hk.
      * intros k Hn. apply Hg. intro; apply Hn; right; assumption.
      * rewrite Hs. simpl. tauto.
      * rewrite Hs. intros [H | [[<- | H1] H2]]; auto.
        exfalso. eapply get_none_keys; eassumption.
Qed.

Lemma targeted_action_spec gs b def t0 ts :
  let p := ActionProcessor.acting_player gs b in
  let kept := slice_to (t0 :: ts) (ActionDefinition.target_states def) in
  let out :=
    ActionProcessor._execute_targeted_action gs b def (Some (t0 :: ts)) in
  ActionResult.success (snd out) = true
  /\ ActionResult.funds_spent (snd out) = ActionDefinition.cost def
  /\ ActionResult.momentum_change (snd out)
     = ActionDefinition.momentum_change def
  /\ ActionProcessor.acting_player (fst out) b
     = Player.update p (- ActionDefinition.cost def)
         (ActionDefinition.momentum_change def)
  /\ ActionResult.affected_states (snd out) = kept
  /\ Dict.keys (GameState.states (fst out)) = Dict.keys (GameState.states gs)
  /\ (forall k,
        ~ In k kept ->
        Dict.get (GameState.states (fst out)) k
        = Dict.get (GameState.states gs) k)
  /\ (forall k,
        In k (Dict.keys (ActionResult.support_changes (snd out)))
        <-> In k kept /\ In k (Dict.keys (GameState.states gs))).
Proof.
  intros p kept out. subst out.
  unfold ActionProcessor._execute_targeted_action. fold p. fold kept.
  match goal with
  | |- context [fold_left (ActionProcessor.target_step ?bb ?eff) ?l (?d, ?sc)] =>
      pose proof (target_fold_spec bb eff l d sc) as H;
      cbv zeta in H; unfold Dict.t in *
  end.
  destruct (fold_left _ kept _) as [d' sc'].
  cbn [fst snd] in *.
  destruct H as (Hk & Hg & Hs).
  rewrite acting_player_rebuild, rebuild_states.
  cbn [ActionResult.success ActionResult.funds_spent
       ActionResult.momentum_change ActionResult.support_changes
       ActionResult.affected_states].
  split; [reflexivity |]. split; [reflexivity |]. split; [reflexivity |].
  split; [reflexivity |]. split; [reflexivity |].
  split; [exact Hk |]. split; [exact Hg |].
  intros k. etransitivity; [apply Hs |]. simpl. tauto.
Qed.

Lemma target_step_boost b effect d sc k0 :
  ActionProcessor.target_step b effect (d, sc) k0
  = match Dict.get d k0 with
    | Some state => (Dict.set d k0 (boost b effect state), Dict.set sc k0 effect)
    | None => (d, sc)
    end.
Proof. reflexivity. Qed.

Lemma target_fold_states b effect l :
  forall d sc k,
    Dict.get (fst (fold_left (ActionProcessor.target_step b effect) l (d, sc))) k
    = option_map (Nat.iter (occurrences k l) (boost b effect)) (Dict.get d k).
Proof.
  unfold occurrences.
  induction l as [| k0 l IH]; intros d sc k; cbn [fold_left].
  - cbn. destruct (Dict.get d k); reflexivity.
  - rewrite target_step_boost.
    destruct (Dict.get d k0) as [s |] eqn:E.
    + rewrite IH. destruct (string_dec k0 k) as [-> | Hne].
      * rewrite get_set_same, E, count_occ_cons_eq by reflexivity.
        cbn [option_map]. rewrite Nat.iter_succ_r. reflexivity.
      * rewrite get_set_other by congruence.
        rewrite count_occ_cons_neq by exact Hne. reflexivity.
    + rewrite IH. destruct (string_dec k0 k) as [-> | Hne].
      * rewrite E. reflexivity.
      * rewrite count_occ_cons_neq by exact Hne. reflexivity.
Qed.

Lemma target_fold_changes b effect l :
  forall d sc k,
    Dict.get (snd (fold_left (ActionProcessor.target_step b effect) l (d, sc))) k
    = if existsb (String.eqb k) l && Dict.mem d k then Some effect
      else Dict.get sc k.
Proof.
  induction l as [| k0 l IH]; intros d sc k; cbn [fold_left existsb].
  - reflexivity.
  - rewrite target_step_boost.
    destruct (Dict.get d k0) as [s |] eqn:E.
    + rewrite IH. destruct (String.eqb k k0) eqn:Ek.
      * apply String.eqb_eq in Ek. subst k0.
        unfold Dict.mem. rewrite get_set_same, E, get_set_same.
        cbn [orb andb]. destruct (existsb _ l); reflexivity.
      * apply String.eqb_neq in Ek.
        unfold Dict.mem. rewrite !get_set_other by exact Ek. reflexivity.
    + rewrite IH. destruct (String.eqb k k0) eqn:Ek.
      * apply String.eqb_eq in Ek. subst k0.
        unfold Dict.mem. rewrite E, andb_false_r. reflexivity.
      * reflexivity.
Qed.

Lemma targeted_action_effects gs b def t0 ts :
  let p := ActionProcessor.acting_player gs b in
  let kept := slice_to (t0 :: ts) (ActionDefinition.target_states def) in
  let effect :=
    ActionDefinition.base_support_change def * Player.momentum_modifier p in
  let out :=
    ActionProcessor._execute_targeted_action gs b def (Some (t0 :: ts)) in
  (forall k,
      Dict.get (GameState.states (fst out)) k
      = option_map (Nat.iter (occurrences k kept) (boost b effect))
          (Dict.get (GameState.states gs) k))
  /\ (forall k,
        Dict.get (ActionResult.support_changes (snd out)) k
        = if existsb (String.eqb k) kept && Dict.mem (GameState.states gs) k
          then Some effect else None).
Proof.
  intros p kept effect out. subst out.
  unfold ActionProcessor._execute_targeted_action.
  fold p. fold kept. fold effect.
  pose proof (target_fold_states b effect kept (GameState.states gs) []) as Hs.
  pose proof (target_fold_changes b effect kept (GameState.states gs) []) as Hc.
  unfold Dict.t in *.
  destruct (fold_left _ kept _) as [d' sc'].
  cbn [fst snd] in *. rewrite rebuild_states.
  cbn [ActionResult.support_changes].
  split; [exact Hs | exact Hc].
Qed.

(** C9 as stated fails.  A rally takes one target: of the two supplied, the second, which the
    board does not know, is dropped before anything is recorded, so the
    result does not list it. *)
Lemma unknown_target_past_limit_not_listed :
  let gs := game_with 15 0 15 0 in
  let targets := ["FL"; "XX"] in
  let r :=
    snd (fst (ActionProcessor.execute_action always_low gs RALLY true
                (Some targets))) in
  ActionResult.success r = true
  /\ ActionResult.affected_states r = ["FL"]
  /\ ~ lists_unrecognized gs targets r.
Proof.
  cbv zeta. split; [reflexivity |]. split; [reflexivity |].
  intros H. specialize (H "XX" (or_intror (or_introl eq_refl)) eq_refl).
  vm_compute in H. destruct H as [H | []]. discriminate H.
Qed.

(** C9, as the code has it.  A targeted action (rally, ad campaign,
    grassroots) that the acting player can afford, given a non-empty target
    list, succeeds whatever the list holds.  It spends the full cost and
    records the full momentum change, the player's momentum moving by it
    within the player's bounds.  The list is first cut to the number of
    targets the action allows; the affected states of the result are exactly
    that cut list, unrecognized abbreviations included.  The effect is the
    action's base support change times the player's momentum modifier.
    Every state of the board is replaced by [apply_support_change] of the
    effect on the acting side, applied once for each occurrence of its
    abbreviation in the cut list: a state outside the cut list is untouched,
    and the board keeps its abbreviations, none is added.  The effect is
    recorded as the support change of exactly the recognized abbreviations
    of the cut list. *)
Theorem targeted_action_unknown_targets
    (rng : Random.t) (gs : GameState.t) (a : ActionType) (is_incumbent : bool)
    (t0 : string) (ts : list string) :
  let def := get_action_definition a in
  let p := ActionProcessor.acting_player gs is_incumbent in
  (0 < ActionDefinition.target_states def)%Z ->
  (ActionDefinition.cost def <= Player.funds p)%Z ->
  let kept := slice_to (t0 :: ts) (ActionDefinition.target_states def) in
  let effect :=
    ActionDefinition.base_support_change def * Player.momentum_modifier p in
  let out :=
    ActionProcessor.execute_action rng gs a is_incumbent (Some (t0 :: ts)) in
  let gs' := fst (fst out) in
  let r := snd (fst out) in
  ActionResult.success r = true
  /\ ActionResult.funds_spent r = ActionDefinition.cost def
  /\ Player.funds (ActionProcessor.acting_player gs' is_incumbent)
     = (Player.funds p - ActionDefinition.cost def)%Z
  /\ ActionResult.momentum_change r = ActionDefinition.momentum_change def
  /\ Player.momentum (ActionProcessor.acting_player gs' is_incumbent)
     = Player.clamp_momentum p
         (Player.momentum p + ActionDefinition.momentum_change def)
  /\ ActionResult.affected_states r = kept
  /\ lists_unrecognized gs kept r
  /\ Dict.keys (GameState.states gs') = Dict.keys (GameState.states gs)
  /\ (forall k,
        Dict.get (GameState.states gs') k
        = option_map
            (Nat.iter (occurrences k kept) (boost is_incumbent effect))
            (Dict.get (GameState.states gs) k))
  /\ (forall k,
        ~ In k kept ->
        Dict.get (GameState.states gs') k = Dict.get (GameState.states gs) k)
  /\ (forall k,
        Dict.get (ActionResult.support_changes r) k
        = if existsb (String.eqb k) kept && Dict.mem (GameState.states gs) k
          then Some effect
          else None)
  /\ (forall k,
        In k (Dict.keys (ActionResult.support_changes r))
        <-> In k kept /\ Dict.mem (GameState.states gs) k = true).
Proof.
  intros def p Htargeted Hafford kept effect out gs' r.
  assert (Hout : fst out
                 = ActionProcessor._execute_targeted_action gs is_incumbent def
                     (Some (t0 :: ts))).
  { subst out. unfold ActionProcessor.execute_action.
    fold def. fold p. unfold Player.can_afford.
    replace (ActionDefinition.cost def <=? Player.funds p)%Z with true
      by (symmetry; apply Z.leb_le; exact Hafford).
    replace (0 <? ActionDefinition.target_states def)%Z with true
      by (symmetry; apply Z.ltb_lt; exact Htargeted).
    subst def. destruct a; try reflexivity; cbn in Htargeted; lia. }
  destruct (targeted_action_spec gs is_incumbent def t0 ts)
    as (H1 & H2 & H3 & H4 & H5 & H6 & H7 & H8).
  destruct (targeted_action_effects gs is_incumbent def t0 ts) as [E1 E2].
  subst gs' r. rewrite Hout. fold p in H4. fold kept in H5, H7, H8.
  fold p kept effect in E1, E2.
  assert (Hcost : (0 <= ActionDefinition.cost def)%Z)
    by (subst def; destruct a; cbn; lia).
  split; [exact H1 |]. split; [exact H2 |].
  split; [rewrite H4; apply update_spends; lia |].
  split; [exact H3 |].
  split; [rewrite H4; apply update_momentum |].
  split; [exact H5 |].
  split; [intros k Hin _; rewrite H5; exact Hin |].
  split; [exact H6 |]. split; [exact E1 |]. split; [exact H7 |].
  split; [exact E2 |].
  intros k. rewrite H8, mem_keys. reflexivity.
Qed.

Lemma targeted_action_unknown_targets_witness :
  let gs := game_with 15 0 15 0 in
  let out :=
    ActionProcessor.execute_action always_low gs AD_CAMPAIGN true
      (Some ["XX"; "FL"]) in
  ActionResult.success (snd (fst out)) = true
  /\ ActionResult.affected_states (snd (fst out)) = ["XX"; "FL"]
  /\ Dict.get (GameState.states (fst (fst out))) "FL"
     = option_map (boost true (2 * Player.momentum_modifier
                                    (ActionProcessor.acting_player gs true)))
         (Dict.get (GameState.states gs) "FL")
  /\ Dict.get (ActionResult.support_changes (snd (fst out))) "XX" = None.
Proof.
  intros gs out.
  destruct (targeted_action_unknown_targets always_low gs AD_CAMPAIGN true
              "XX" ["FL"])
    as (H1 & _ & _ & _ & _ & H6 & _ & _ & H9 & _ & H11 & _).
  - cbn. lia.
  - cbn. lia.
  - split; [exact H1 |]. split; [exact H6 |].
    split; [exact (H9 "FL") | exact (H11 "XX")].
Defined.

(** * Further properties *)

(** ** What the generator can draw *)

Lemma random_range r : 0 <= fst (Random.random r) < 1.
Proof.
  unfold Random.random. cbn [fst].
  set (w := (Random.source r (Random.cursor r) mod 2 ^ 53)%N).
  assert (Hw : (0 <= Z.of_N w < 2 ^ 53)%Z).
  { split; [apply N2Z.is_nonneg |].
    change (2 ^ 53)%Z with (Z.of_N (2 ^ 53)%N). apply N2Z.inj_lt.
    apply N.mod_lt. discriminate. }
  destruct Hw as [H0 H1].
  rewrite Zle_Qle in H0. rewrite Zlt_Qlt in H1.
  change (inject_Z 0) with 0 in H0.
  set (d := inject_Z (2 ^ 53)) in *.
  assert (Hd : 0 < d) by reflexivity.
  split.
  - apply Qle_shift_div_l; [exact Hd | lra].
  - apply Qlt_shift_div_r; [exact Hd | lra].
Qed.

Lemma random_cursor r :
  snd (Random.random r) = Random.mk (Random.source r) (S (Random.cursor r)).
Proof. reflexivity. Qed.

Lemma randbelow_range n r :
  (0 < n)%Z -> (0 <= fst (Random.randbelow n r) < n)%Z.
Proof.
  intros Hn. unfold Random.randbelow.
  pose proof (random_range r) as [H0 H1].
  destruct (Random.random r) as [u r']. cbn [fst] in *.
  rewrite Zlt_Qlt in Hn. change (inject_Z 0) with 0 in Hn.
  assert (Hlo : 0 <= u * inject_Z n) by (apply Qmult_le_0_compat; lra).
  assert (Hhi : u * inject_Z n < inject_Z n).
  { setoid_replace (inject_Z n) with (1 * inject_Z n) at 2 by ring.
    apply Qmult_lt_compat_r; assumption. }
  split.
  - change 0%Z with (Qfloor 0). apply Qfloor_resp_le. exact Hlo.
  - rewrite Zlt_Qlt. pose proof (Qfloor_le (u * inject_Z n)). lra.
Qed.

Lemma randint_range a b r :
  (a <= b)%Z -> (a <= fst (Random.randint a b r) <= b)%Z.
Proof.
  intros Hab. unfold Random.randint.
  pose proof (randbelow_range (b - a + 1) r ltac:(lia)) as H.
  destruct (Random.randbelow (b - a + 1) r) as [i r']. cbn [fst] in *. lia.
Qed.

Lemma uniform_range a b r :
  a <= b -> a <= fst (Random.uniform a b r) <= b.
Proof.
  intros Hab. unfold Random.uniform.
  pose proof (random_range r) as [H0 H1].
  destruct (Random.random r) as [u r']. cbn [fst] in *.
  assert (Hlo : 0 <= (b - a) * u) by (apply Qmult_le_0_compat; lra).
  assert (Hhi : u * (b - a) <= 1 * (b - a))
    by (apply Qmult_le_compat_r; lra).
  lra.
Qed.

Lemma choice_in {A : Type} (seq : A * list A) r :
  In (fst (Random.choice seq r)) (fst seq :: snd seq).
Proof.
  unfold Random.choice.
  destruct (Random.randbelow _ r) as [i r']. cbn [fst].
  destruct (nth_in_or_default (Z.to_nat i) (fst seq :: snd seq) (fst seq))
    as [H | H]; [exact H | rewrite H; left; reflexivity].
Qed.

(** ** The players' resources *)

(** X1. [Player.update] keeps the funds from going below zero and the
    momentum within the player's bounds: a change that stays in range is
    applied as it is, and on a player whose funds are not negative
    [adjust_momentum] is [update] with no change of funds. *)
Theorem update_clamps (p : Player.t) (funds_change momentum_change : Z) :
  (Player.MIN_MOMENTUM p <= Player.MAX_MOMENTUM p)%Z ->
  let p' := Player.update p funds_change momentum_change in
  (0 <= Player.funds p')%Z
  /\ ((0 <= Player.funds p + funds_change)%Z ->
      Player.funds p' = (Player.funds p + funds_change)%Z)
  /\ (Player.MIN_MOMENTUM p <= Player.momentum p' <= Player.MAX_MOMENTUM p)%Z
  /\ ((Player.MIN_MOMENTUM p <= Player.momentum p + momentum_change
       <= Player.MAX_MOMENTUM p)%Z ->
      Player.momentum p' = (Player.momentum p + momentum_change)%Z)
  /\ ((0 <= Player.funds p)%Z ->
      Player.adjust_momentum p momentum_change
      = Player.update p 0 momentum_change).
Proof.
  intros H p'. subst p'.
  unfold Player.update, Player.adjust_momentum, Player.clamp_momentum,
    Player.new.
  cbn [Player.funds Player.momentum].
  repeat split; try lia.
  intros Hf. f_equal. lia.
Qed.

Lemma update_clamps_witness :
  (0 <= Player.funds (Player.update (Player.new "A" true 2 98 true) (-3) 5))%Z
  /\ (Player.momentum (Player.update (Player.new "A" true 2 98 true) (-3) 5)
      <= 100)%Z.
Proof.
  destruct (update_clamps (Player.new "A" true 2 98 true) (-3) 5)
    as (H1 & _ & H3 & _); [cbn; lia |].
  split; [exact H1 | exact (proj2 H3)].
Defined.

(** X2. [spend_funds] refuses exactly when the player cannot afford the
    amount; [update] with the same amount would then empty the funds where
    [spend_funds] leaves the player alone.  When it accepts, the funds go
    down by the amount, the momentum stays, [update] agrees with it, and
    [add_funds] of the same amount restores the funds. *)
Theorem spend_funds_spec (p : Player.t) (amount : Z) :
  (Player.spend_funds p amount = None <-> Player.can_afford p amount = false)
  /\ (Player.spend_funds p amount = None ->
      Player.funds (Player.update p (- amount) 0) = 0%Z)
  /\ (forall p',
        Player.spend_funds p amount = Some p' ->
        Player.funds p' = (Player.funds p - amount)%Z
        /\ Player.momentum p' = Player.momentum p
        /\ Player.funds (Player.update p (- amount) 0) = Player.funds p'
        /\ Player.funds (Player.add_funds p' amount) = Player.funds p).
Proof.
  unfold Player.spend_funds, Player.can_afford.
  destruct (Player.funds p <? amount)%Z eqn:E.
  - apply Z.ltb_lt in E. repeat split; try discriminate.
    + intros _. apply Z.leb_gt. exact E.
    + intros _. cbn. lia.
  - apply Z.ltb_ge in E. split; [| split].
    + split; [discriminate |]. intros H. apply Z.leb_gt in H. lia.
    + discriminate.
    + intros p' H. injection H as <-. cbn. repeat split; lia.
Qed.

(** ** The leader of a state *)

(** X3. The [leader] of a state, read off the sign of its margin, is the
    winner that the electoral calculator reads off the two supports, and a
    state is [Tied] exactly when the game state counts it as tied. *)
Theorem leader_agrees_with_winner (s : State.t) :
  (State.leader s = "Incumbent"
   <-> ElectoralCalculator.get_state_winner s = Some "Incumbent")
  /\ (State.leader s = "Challenger"
      <-> ElectoralCalculator.get_state_winner s = Some "Challenger")
  /\ (State.leader s = "Tied"
      <-> ElectoralCalculator.get_state_winner s = None)
  /\ (State.leader s = "Tied" <-> GameState.tied s = true).
Proof.
  unfold State.leader, ElectoralCalculator.get_state_winner, State.margin.
  assert (L1 : Num.ltb 0 (State.incumbent_support s - State.challenger_support s)
               = GameState.incumbent_wins s).
  { unfold GameState.incumbent_wins.
    destruct (Num.ltb (State.challenger_support s) (State.incumbent_support s))
      eqn:E; [apply ltb_true in E; apply ltb_true; lra
             | apply ltb_false in E; apply ltb_false; lra]. }
  assert (L2 : Num.ltb (State.incumbent_support s - State.challenger_support s) 0
               = GameState.challenger_wins s).
  { unfold GameState.challenger_wins.
    destruct (Num.ltb (State.incumbent_support s) (State.challenger_support s))
      eqn:E; [apply ltb_true in E; apply ltb_true; lra
             | apply ltb_false in E; apply ltb_false; lra]. }
  rewrite L1, L2.
  destruct (state_trichotomy s)
    as [(Ei & Ec & Et) | [(Ei & Ec & Et) | (Ei & Ec & Et)]];
    rewrite ?Ei, ?Ec, ?Et;
    repeat split; intros; try reflexivity; discriminate.
Qed.

(** ** What an action leaves alone *)

Lemma apply_support_change_static s ic cc :
  static (State.apply_support_change s ic cc) = static s.
Proof.
  unfold State.apply_support_change.
  destruct (State.rescaled s ic cc); reflexivity.
Qed.

Lemma static_table_keys d : map fst (static_table d) = Dict.keys d.
Proof.
  unfold static_table, Dict.keys. rewrite map_map. reflexivity.
Qed.

Lemma static_table_map_values (f : State.t -> State.t) d :
  (forall s, static (f s) = static s) ->
  static_table (Dict.map_values f d) = static_table d.
Proof.
  intros Hf. unfold static_table, Dict.map_values. rewrite map_map.
  apply map_ext. intros [k s]. simpl. now rewrite Hf.
Qed.

Lemma static_table_set d k v v' :
  Dict.get d k = Some v ->
  static v' = static v ->
  static_table (Dict.set d k v') = static_table d.
Proof.
  intros Hget Hst. induction d as [| [k0 v0] d IH]; [discriminate |].
  simpl in *. destruct (String.eqb k k0).
  - injection Hget as ->. simpl. now rewrite Hst.
  - simpl. now rewrite (IH Hget).
Qed.

Lemma target_fold_static b effect l :
  forall acc,
    static_table (fst (fold_left (ActionProcessor.target_step b effect) l acc))
    = static_table (fst acc).
Proof.
  induction l as [| k l IH]; intros acc; [reflexivity |].
  simpl. rewrite IH. destruct acc as [d sc].
  unfold ActionProcessor.target_step.
  destruct (Dict.get d k) as [s |] eqn:E; [| reflexivity].
  simpl. apply (static_table_set _ _ s); [exact E |].
  destruct b; apply apply_support_change_static.
Qed.

Lemma event_fold_static ev l :
  forall d,
    static_table (fold_left (EventGenerator.event_step ev) l d)
    = static_table d.
Proof.
  induction l as [| k l IH]; intros d; [reflexivity |].
  simpl. rewrite IH. unfold EventGenerator.event_step.
  destruct (Dict.get d k) as [s |] eqn:E; [| reflexivity].
  apply (static_table_set _ _ s); [exact E |].
  destruct (GameEvent.affects_incumbent ev); apply apply_support_change_static.
Qed.

Lemma rebuild_frame gs b p d :
  same_frame gs (ActionProcessor.rebuild gs b p d)
  /\ ActionProcessor.acting_player (ActionProcessor.rebuild gs b p d) (negb b)
     = ActionProcessor.acting_player gs (negb b).
Proof. destruct b; repeat split; reflexivity. Qed.

Lemma same_frame_refl gs : same_frame gs gs.
Proof. repeat split; reflexivity. Qed.

Lemma cost_nonneg a : (0 <= ActionDefinition.cost (get_action_definition a))%Z.
Proof. destruct a; cbn; lia. Qed.

(** The handler a payable action is dispatched to. *)
Lemma execute_action_affordable rng gs a b ts :
  (ActionDefinition.cost (get_action_definition a)
   <= Player.funds (ActionProcessor.acting_player gs b))%Z ->
  ActionProcessor.execute_action rng gs a b ts
  = match a with
    | FUNDRAISER =>
        ActionProcessor._execute_fundraiser rng gs b (get_action_definition a)
    | OPPOSITION_RESEARCH =>
        (ActionProcessor._execute_opposition_research gs b
           (get_action_definition a), rng)
    | RALLY | AD_CAMPAIGN | GRASSROOTS =>
        (ActionProcessor._execute_targeted_action gs b
           (get_action_definition a) ts, rng)
    | DEBATE_PREP | MEDIA_BLITZ =>
        (ActionProcessor._execute_national_action gs b
           (get_action_definition a), rng)
    end.
Proof.
  intros H. unfold ActionProcessor.execute_action, Player.can_afford.
  apply Z.leb_le in H. rewrite H. destruct a; reflexivity.
Qed.

Lemma execute_action_refused rng gs a b ts :
  (Player.funds (ActionProcessor.acting_player gs b)
   < ActionDefinition.cost (get_action_definition a))%Z ->
  fst (fst (ActionProcessor.execute_action rng gs a b ts)) = gs
  /\ ActionResult.success
       (snd (fst (ActionProcessor.execute_action rng gs a b ts))) = false
  /\ ActionResult.funds_spent
       (snd (fst (ActionProcessor.execute_action rng gs a b ts))) = 0%Z
  /\ ActionResult.funds_raised
       (snd (fst (ActionProcessor.execute_action rng gs a b ts))) = 0%Z
  /\ snd (ActionProcessor.execute_action rng gs a b ts) = rng.
Proof.
  intros H. unfold ActionProcessor.execute_action, Player.can_afford.
  apply Z.leb_gt in H. rewrite H. repeat split; reflexivity.
Qed.

(** What each handler does to the acting player and reports. *)
Lemma fundraiser_outcome rng gs b def :
  let out := ActionProcessor._execute_fundraiser rng gs b def in
  let raised := fst (Random.randint 3 6 rng) in
  ActionProcessor.acting_player (fst (fst out)) b
  = Player.update (ActionProcessor.acting_player gs b) raised
      (ActionDefinition.momentum_change def)
  /\ ActionProcessor.acting_player (fst (fst out)) (negb b)
     = ActionProcessor.acting_player gs (negb b)
  /\ GameState.states (fst (fst out)) = GameState.states gs
  /\ same_frame gs (fst (fst out))
  /\ snd (fst out)
     = ActionResult.mk FUNDRAISER true
         ("Fundraiser raised $" ++ Num.str_int raised ++ "M!")
         0 raised [] (ActionDefinition.momentum_change def) []
  /\ snd out = snd (Random.randint 3 6 rng).
Proof.
  unfold ActionProcessor._execute_fundraiser,
    ActionProcessor.FUNDRAISER_MIN, ActionProcessor.FUNDRAISER_MAX.
  destruct (Random.randint 3 6 rng) as [raised rng'].
  cbn [fst snd]. destruct b; repeat split; reflexivity.
Qed.

Lemma opposition_research_outcome gs b def :
  let out := ActionProcessor._execute_opposition_research gs b def in
  let p := ActionProcessor.acting_player gs b in
  ActionProcessor.acting_player (fst out) b
  = Player.update p (- ActionDefinition.cost def)
      (ActionDefinition.momentum_change def)
  /\ ActionProcessor.acting_player (fst out) (negb b)
     = ActionProcessor.acting_player gs (negb b)
  /\ static_table (GameState.states (fst out))
     = static_table (GameState.states gs)
  /\ same_frame gs (fst out)
  /\ ActionResult.success (snd out) = true
  /\ ActionResult.funds_spent (snd out) = ActionDefinition.cost def
  /\ ActionResult.funds_raised (snd out) = 0%Z
  /\ ActionResult.momentum_change (snd out)
     = ActionDefinition.momentum_change def.
Proof.
  unfold ActionProcessor._execute_opposition_research. cbn [fst snd].
  rewrite acting_player_rebuild, rebuild_states.
  match goal with
  | |- context [ActionProcessor.rebuild gs b ?p ?d] =>
      destruct (rebuild_frame gs b p d) as [F O]
  end.
  split; [reflexivity |]. split; [exact O |].
  split; [| split; [exact F | repeat split; reflexivity]].
  apply static_table_map_values.
  intros s. destruct b; apply apply_support_change_static.
Qed.

Lemma national_action_outcome gs b def :
  let out := ActionProcessor._execute_national_action gs b def in
  let p := ActionProcessor.acting_player gs b in
  let effect :=
    ActionDefinition.base_support_change def * Player.momentum_modifier p
    * (1 # 2) in
  ActionProcessor.acting_player (fst out) b
  = Player.update p (- ActionDefinition.cost def)
      (ActionDefinition.momentum_change def)
  /\ ActionProcessor.acting_player (fst out) (negb b)
     = ActionProcessor.acting_player gs (negb b)
  /\ GameState.states (fst out)
     = Dict.map_values (boost b effect) (GameState.states gs)
  /\ same_frame gs (fst out)
  /\ snd out
     = ActionResult.mk (ActionDefinition.action_type def) true
         (ActionDefinition.name def ++ " boosted national support by "
            ++ Num.fmt1 effect ++ "%")
         (ActionDefinition.cost def) 0
         (map (fun abbrev => (abbrev, effect))
            (Dict.keys (GameState.states gs)))
         (ActionDefinition.momentum_change def)
         (Dict.keys (GameState.states gs)).
Proof.
  unfold ActionProcessor._execute_national_action. cbn [fst snd].
  rewrite acting_player_rebuild, rebuild_states, keys_map_values.
  match goal with
  | |- context [ActionProcessor.rebuild gs b ?p ?d] =>
      destruct (rebuild_frame gs b p d) as [F O]
  end.
  split; [reflexivity |]. split; [exact O |].
  split; [| split; [exact F | reflexivity]].
  unfold Dict.map_values. apply map_ext. intros [k s].
  unfold boost. destruct b; reflexivity.
Qed.

Lemma targeted_action_outcome gs b def ts :
  let out := ActionProcessor._execute_targeted_action gs b def ts in
  let p := ActionProcessor.acting_player gs b in
  ActionProcessor.acting_player (fst out) b
  = Player.update p (- ActionDefinition.cost def)
      (ActionDefinition.momentum_change def)
  /\ ActionProcessor.acting_player (fst out) (negb b)
     = ActionProcessor.acting_player gs (negb b)
  /\ static_table (GameState.states (fst out))
     = static_table (GameState.states gs)
  /\ same_frame gs (fst out)
  /\ ActionResult.success (snd out) = true
  /\ ActionResult.funds_spent (snd out) = ActionDefinition.cost def
  /\ ActionResult.funds_raised (snd out) = 0%Z
  /\ ActionResult.momentum_change (snd out)
     = ActionDefinition.momentum_change def.
Proof.
  unfold ActionProcessor._execute_targeted_action.
  match goal with
  | |- context [fold_left (ActionProcessor.target_step ?bb ?eff) ?l ?acc] =>
      pose proof (target_fold_static bb eff l acc) as H;
      destruct (fold_left (ActionProcessor.target_step bb eff) l acc)
        as [d sc]
  end.
  cbn [fst snd] in *.
  rewrite acting_player_rebuild, rebuild_states.
  match goal with
  | |- context [ActionProcessor.rebuild gs b ?p ?d] =>
      destruct (rebuild_frame gs b p d) as [F O]
  end.
  split; [reflexivity |]. split; [exact O |]. split; [exact H |].
  split; [exact F |]. repeat split; reflexivity.
Qed.

Lemma boost_static b effect s : static (boost b effect s) = static s.
Proof. destruct b; apply apply_support_change_static. Qed.

(** Every payable action, whatever its handler. *)
Lemma execute_action_outcome rng gs a b ts :
  let def := get_action_definition a in
  let p := ActionProcessor.acting_player gs b in
  (ActionDefinition.cost def <= Player.funds p)%Z ->
  let out := ActionProcessor.execute_action rng gs a b ts in
  let gs' := fst (fst out) in
  let r := snd (fst out) in
  exists change,
    ActionProcessor.acting_player gs' b
    = Player.update p change (ActionDefinition.momentum_change def)
    /\ change = ActionResult.net_funds_change r
    /\ ActionProcessor.acting_player gs' (negb b)
       = ActionProcessor.acting_player gs (negb b)
    /\ static_table (GameState.states gs') = static_table (GameState.states gs)
    /\ same_frame gs gs'
    /\ ActionResult.success r = true
    /\ ActionResult.funds_spent r = ActionDefinition.cost def
    /\ ActionResult.momentum_change r = ActionDefinition.momentum_change def
    /\ (a <> FUNDRAISER -> ActionResult.funds_raised r = 0%Z /\ snd out = rng)
    /\ (a = FUNDRAISER ->
        ActionResult.funds_raised r = fst (Random.randint 3 6 rng)
        /\ GameState.states gs' = GameState.states gs
        /\ snd out = snd (Random.randint 3 6 rng)).
Proof.
  intros def p Hrich out gs' r. subst out gs' r.
  rewrite (execute_action_affordable rng gs a b ts Hrich).
  unfold ActionResult.net_funds_change.
  assert (T : forall o : GameState.t * ActionResult.t,
             ActionProcessor.acting_player (fst o) b
             = Player.update p (- ActionDefinition.cost def)
                 (ActionDefinition.momentum_change def) ->
             ActionProcessor.acting_player (fst o) (negb b)
             = ActionProcessor.acting_player gs (negb b) ->
             static_table (GameState.states (fst o))
             = static_table (GameState.states gs) ->
             same_frame gs (fst o) ->
             ActionResult.success (snd o) = true ->
             ActionResult.funds_spent (snd o) = ActionDefinition.cost def ->
             ActionResult.funds_raised (snd o) = 0%Z ->
             ActionResult.momentum_change (snd o)
             = ActionDefinition.momentum_change def ->
             a <> FUNDRAISER ->
             exists change,
               ActionProcessor.acting_player (fst (fst (o, rng))) b
               = Player.update p change (ActionDefinition.momentum_change def)
               /\ change
                  = (ActionResult.funds_raised (snd (fst (o, rng)))
                     - ActionResult.funds_spent (snd (fst (o, rng))))%Z
               /\ ActionProcessor.acting_player (fst (fst (o, rng))) (negb b)
                  = ActionProcessor.acting_player gs (negb b)
               /\ static_table (GameState.states (fst (fst (o, rng))))
                  = static_table (GameState.states gs)
               /\ same_frame gs (fst (fst (o, rng)))
               /\ ActionResult.success (snd (fst (o, rng))) = true
               /\ ActionResult.funds_spent (snd (fst (o, rng)))
                  = ActionDefinition.cost def
               /\ ActionResult.momentum_change (snd (fst (o, rng)))
                  = ActionDefinition.momentum_change def
               /\ (a <> FUNDRAISER ->
                   ActionResult.funds_raised (snd (fst (o, rng))) = 0%Z
                   /\ snd (o, rng) = rng)
               /\ (a = FUNDRAISER ->
                   ActionResult.funds_raised (snd (fst (o, rng)))
                   = fst (Random.randint 3 6 rng)
                   /\ GameState.states (fst (fst (o, rng))) = GameState.states gs
                   /\ snd (o, rng) = snd (Random.randint 3 6 rng))).
  { intros o P O S F Su FS FR M Hn. cbn [fst snd].
    exists (- ActionDefinition.cost def)%Z.
    split; [exact P |]. split; [rewrite FR, FS; lia |].
    split; [exact O |]. split; [exact S |]. split; [exact F |].
    split; [exact Su |]. split; [exact FS |]. split; [exact M |].
    split; [intros _; split; [exact FR | reflexivity] |].
    intros Ha. contradiction. }
  destruct a.
  - pose proof (fundraiser_outcome rng gs b def) as (P & O & S & F & R & G).
    cbv zeta in P, R, G, O, S, F. fold def.
    exists (fst (Random.randint 3 6 rng)).
    rewrite R. cbn [ActionResult.success ActionResult.funds_spent
      ActionResult.funds_raised ActionResult.momentum_change].
    split; [exact P |]. split; [lia |]. split; [exact O |].
    split; [rewrite S; reflexivity |]. split; [exact F |].
    split; [reflexivity |]. split; [reflexivity |]. split; [reflexivity |].
    split; [intros H; congruence |].
    intros _. split; [reflexivity |]. split; [exact S | exact G].
  - pose proof (targeted_action_outcome gs b def ts)
      as (P & O & S & F & Su & FS & FR & M).
    apply T; try assumption. discriminate.
  - pose proof (targeted_action_outcome gs b def ts)
      as (P & O & S & F & Su & FS & FR & M).
    apply T; try assumption. discriminate.
  - pose proof (targeted_action_outcome gs b def ts)
      as (P & O & S & F & Su & FS & FR & M).
    apply T; try assumption. discriminate.
  - pose proof (national_action_outcome gs b def) as (P & O & S & F & R).
    cbv zeta in P, O, S, F, R.
    apply T; try assumption; try (fold def; rewrite R; reflexivity);
      try discriminate.
    fold def. rewrite S. apply static_table_map_values. apply boost_static.
  - pose proof (opposition_research_outcome gs b def)
      as (P & O & S & F & Su & FS & FR & M).
    apply T; try assumption. discriminate.
  - pose proof (national_action_outcome gs b def) as (P & O & S & F & R).
    cbv zeta in P, O, S, F, R.
    apply T; try assumption; try (fold def; rewrite R; reflexivity);
      try discriminate.
    fold def. rewrite S. apply static_table_map_values. apply boost_static.
Qed.

(** X4. An action succeeds exactly when the acting player can pay for it.
    The player's funds move by the net funds change of the result, and never
    below zero.  A success reports the cost and the momentum change of the
    definition, the momentum moving by it within the player's bounds; a
    failure returns the game state it was given.  Only a fundraiser raises
    funds, between 3 and 6, and only a fundraiser draws from the
    generator. *)
Theorem execute_action_accounts
    (rng : Random.t) (gs : GameState.t) (a : ActionType) (is_incumbent : bool)
    (targets : option (list string)) :
  let def := get_action_definition a in
  let p := ActionProcessor.acting_player gs is_incumbent in
  let out := ActionProcessor.execute_action rng gs a is_incumbent targets in
  let p' := ActionProcessor.acting_player (fst (fst out)) is_incumbent in
  let r := snd (fst out) in
  (ActionResult.success r = true
   <-> (ActionDefinition.cost def <= Player.funds p)%Z)
  /\ Player.funds p' = (Player.funds p + ActionResult.net_funds_change r)%Z
  /\ (ActionResult.success r = true ->
      ActionResult.funds_spent r = ActionDefinition.cost def
      /\ ActionResult.momentum_change r = ActionDefinition.momentum_change def
      /\ Player.momentum p'
         = Player.clamp_momentum p
             (Player.momentum p + ActionDefinition.momentum_change def)
      /\ (0 <= Player.funds p')%Z)
  /\ (ActionResult.success r = false ->
      fst (fst out) = gs /\ ActionResult.net_funds_change r = 0%Z)
  /\ (a <> FUNDRAISER -> ActionResult.funds_raised r = 0%Z /\ snd out = rng)
  /\ (a = FUNDRAISER -> ActionResult.success r = true ->
      (3 <= ActionResult.funds_raised r <= 6)%Z).
Proof.
  intros def p out p' r.
  destruct (Z_lt_le_dec (Player.funds p) (ActionDefinition.cost def))
    as [Hpoor | Hrich].
  - destruct (execute_action_refused rng gs a is_incumbent targets Hpoor)
      as (G & S & FS & FR & Rg).
    fold out in G, S, FS, FR, Rg. fold r in S, FS, FR.
    unfold ActionResult.net_funds_change. subst p'. rewrite G, S, FS, FR.
    fold p.
    split; [split; [discriminate | lia] |].
    split; [lia |]. split; [discriminate |].
    split; [intros _; split; reflexivity |].
    split; [intros _; split; [reflexivity | exact Rg] | discriminate].
  - destruct (execute_action_outcome rng gs a is_incumbent targets Hrich)
      as (change & P & C & _ & _ & _ & S & FS & M & NF & IF).
    fold out in P, C, S, FS, M, NF, IF. fold r in C, S, FS, M, NF, IF.
    fold p' in P. fold def in P, FS, M. fold p in P.
    pose proof (cost_nonneg a) as Hc. fold def in Hc.
    assert (Hch : (0 <= Player.funds p + change)%Z).
    { rewrite C. unfold ActionResult.net_funds_change. rewrite FS.
      destruct a;
        try (destruct NF as [-> _]; [discriminate | lia]).
      destruct (IF eq_refl) as (-> & _ & _).
      pose proof (randint_range 3 6 rng ltac:(lia)). lia. }
    rewrite S, P, <- C.
    split; [split; [intros _; exact Hrich | reflexivity] |].
    split; [cbn; lia |].
    split; [intros _; split; [exact FS |]; split; [exact M |];
            split; [reflexivity | cbn; lia] |].
    split; [discriminate |].
    split; [exact NF |].
    intros Ha _. destruct (IF Ha) as (-> & _ & _).
    apply randint_range. lia.
Qed.

(** X5. No action touches the turn, the turn limit, the event log, the
    outcome of the game or the other player, and none changes which states
    the board has, their names, electoral votes or regions; a fundraiser
    leaves the whole board as it is. *)
Theorem execute_action_frame
    (rng : Random.t) (gs : GameState.t) (a : ActionType) (is_incumbent : bool)
    (targets : option (list string)) :
  let out := ActionProcessor.execute_action rng gs a is_incumbent targets in
  let gs' := fst (fst out) in
  same_frame gs gs'
  /\ ActionProcessor.acting_player gs' (negb is_incumbent)
     = ActionProcessor.acting_player gs (negb is_incumbent)
  /\ Dict.keys (GameState.states gs') = Dict.keys (GameState.states gs)
  /\ static_table (GameState.states gs') = static_table (GameState.states gs)
  /\ (a = FUNDRAISER -> GameState.states gs' = GameState.states gs)
  /\ (a <> FUNDRAISER -> snd out = rng).
Proof.
  intros out gs'.
  assert (K : static_table (GameState.states gs')
              = static_table (GameState.states gs) ->
              Dict.keys (GameState.states gs') = Dict.keys (GameState.states gs)).
  { intros H. rewrite <- !static_table_keys, H. reflexivity. }
  destruct (Z_lt_le_dec
              (Player.funds (ActionProcessor.acting_player gs is_incumbent))
              (ActionDefinition.cost (get_action_definition a)))
    as [Hpoor | Hrich].
  - destruct (execute_action_refused rng gs a is_incumbent targets Hpoor)
      as (G & _ & _ & _ & Rg).
    fold out in G, Rg. fold gs' in G. rewrite G.
    split; [apply same_frame_refl |]. repeat split; auto.
  - destruct (execute_action_outcome rng gs a is_incumbent targets Hrich)
      as (change & _ & _ & O & S & F & _ & _ & _ & NF & IF).
    fold out in O, S, F, NF, IF. fold gs' in O, S, F, IF.
    split; [exact F |]. split; [exact O |]. split; [exact (K S) |].
    split; [exact S |].
    split; [intros Ha; exact (proj1 (proj2 (IF Ha))) |].
    intros Ha. exact (proj2 (NF Ha)).
Qed.

(** X6. A fundraiser by a player whose funds are not negative always
    succeeds: it costs nothing, raises between 3 and 6, takes 5 from the
    momentum within the player's bounds, and changes no state. *)
Theorem fundraiser_spec
    (rng : Random.t) (gs : GameState.t) (is_incumbent : bool)
    (targets : option (list string)) :
  let p := ActionProcessor.acting_player gs is_incumbent in
  (0 <= Player.funds p)%Z ->
  let out :=
    ActionProcessor.execute_action rng gs FUNDRAISER is_incumbent targets in
  let gs' := fst (fst out) in
  let p' := ActionProcessor.acting_player gs' is_incumbent in
  let r := snd (fst out) in
  ActionResult.success r = true
  /\ (3 <= ActionResult.funds_raised r <= 6)%Z
  /\ ActionResult.funds_spent r = 0%Z
  /\ Player.funds p' = (Player.funds p + ActionResult.funds_raised r)%Z
  /\ ActionResult.momentum_change r = (-5)%Z
  /\ Player.momentum p' = Player.clamp_momentum p (Player.momentum p - 5)
  /\ GameState.states gs' = GameState.states gs
  /\ ActionResult.support_changes r = []
  /\ ActionResult.affected_states r = [].
Proof.
  intros p Hfunds out gs' p' r.
  assert (Hrich : (ActionDefinition.cost (get_action_definition FUNDRAISER)
                   <= Player.funds p)%Z) by exact Hfunds.
  pose proof (execute_action_affordable rng gs FUNDRAISER is_incumbent targets
                Hrich) as E.
  pose proof (fundraiser_outcome rng gs is_incumbent
                (get_action_definition FUNDRAISER))
    as (P & _ & S & _ & R & G).
  cbv zeta in P, S, R, G. rewrite <- E in P, S, R, G.
  fold out in P, S, R, G. fold gs' in P, S. fold p' in P. fold r in R.
  fold p in P.
  pose proof (randint_range 3 6 rng ltac:(lia)) as Hr.
  set (raised := fst (Random.randint 3 6 rng)) in *.
  rewrite R, P.
  cbn [ActionResult.success ActionResult.funds_spent ActionResult.funds_raised
       ActionResult.momentum_change ActionResult.support_changes
       ActionResult.affected_states].
  split; [reflexivity |]. split; [exact Hr |]. split; [reflexivity |].
  split; [unfold Player.update, Player.new; cbn [Player.funds]; lia |].
  split; [reflexivity |]. split; [reflexivity |].
  split; [exact S |]. split; reflexivity.
Qed.

Lemma fundraiser_spec_witness :
  let out :=
    ActionProcessor.execute_action always_mid (game_with 15 0 15 0) FUNDRAISER
      true None in
  (3 <= ActionResult.funds_raised (snd (fst out)) <= 6)%Z.
Proof.
  intros out.
  destruct (fundraiser_spec always_mid (game_with 15 0 15 0) true None)
    as (_ & H & _); [cbn; lia | exact H].
Defined.
(** ** Sorting *)

Section SortedWithFacts.
Context {A : Type} (lt : A -> A -> bool).

Lemma insert_with_perm x l : Permutation (insert_with lt x l) (x :: l).
Proof.
  induction l as [| y l IH]; [reflexivity |].
  simpl. destruct (lt y x); [| reflexivity].
  rewrite IH. apply perm_swap.
Qed.

Lemma sorted_with_perm l : Permutation (sorted_with lt l) l.
Proof.
  induction l as [| x l IH]; [reflexivity |].
  simpl. rewrite insert_with_perm. apply perm_skip. exact IH.
Qed.

End SortedWithFacts.

Lemma sorted_by_with {A : Type} (key : A -> Q) (l : list A) :
  sorted_by key l = sorted_with (fun a b => Num.ltb (key a) (key b)) l.
Proof.
  induction l as [| x l IH]; [reflexivity |].
  simpl. rewrite IH. clear IH.
  induction (sorted_with (fun a b => Num.ltb (key a) (key b)) l)
    as [| y l' IH]; [reflexivity |].
  simpl. rewrite IH. reflexivity.
Qed.

(** ** Three tallies of the same votes *)

(** X7. The electoral calculator, the AI and the derived properties of the
    game state count the same three tallies, which add up to the total; the
    engine reports them, and zeros before a game is started. *)
Theorem current_evs_agree (gs : GameState.t) (ap eg : Random.t) :
  ElectoralCalculator.calculate_current_evs gs = AIOpponent._calculate_evs gs
  /\ ElectoralCalculator.calculate_current_evs gs
     = (GameState.incumbent_electoral_votes gs,
        GameState.challenger_electoral_votes gs,
        GameState.tied_electoral_votes gs)
  /\ (fst (fst (ElectoralCalculator.calculate_current_evs gs))
      + snd (fst (ElectoralCalculator.calculate_current_evs gs))
      + snd (ElectoralCalculator.calculate_current_evs gs))%Z
     = GameState.total_electoral_votes gs
  /\ GameEngine.get_current_evs (GameEngine.mk ap eg (Some gs))
     = ElectoralCalculator.calculate_current_evs gs
  /\ GameEngine.get_current_evs (GameEngine.mk ap eg None) = (0, 0, 0)%Z.
Proof.
  rewrite calculate_current_evs_derived, _calculate_evs_derived.
  split; [reflexivity |]. split; [reflexivity |].
  split; [| split; [| reflexivity]].
  - cbn [fst snd]. symmetry. apply votes_partition.
  - unfold GameEngine.get_current_evs. cbn [GameEngine._game_state].
    apply calculate_current_evs_derived.
Qed.

(** ** A candidate who cannot win any more *)

Lemma votes_where_nonneg p l :
  Forall (fun s => (0 <= State.electoral_votes s)%Z) l ->
  (0 <= votes_where p l)%Z.
Proof.
  induction 1 as [| s l Hs _ IH]; [unfold votes_where; simpl; lia |].
  rewrite votes_where_cons. destruct (p s); lia.
Qed.

Lemma votes_where_le_total p l :
  Forall (fun s => (0 <= State.electoral_votes s)%Z) l ->
  (votes_where p l <= sum_Z (map State.electoral_votes l))%Z.
Proof.
  induction 1 as [| s l Hs _ IH]; [reflexivity |].
  rewrite votes_where_cons. simpl. destruct (p s); lia.
Qed.

Lemma votes_where_mono p q l :
  (forall s, p s = true -> q s = true) ->
  Forall (fun s => (0 <= State.electoral_votes s)%Z) l ->
  (votes_where p l <= votes_where q l)%Z.
Proof.
  intros Hpq. induction 1 as [| s l Hs _ IH]; [reflexivity |].
  rewrite !votes_where_cons. specialize (Hpq s).
  destruct (p s); [rewrite Hpq by reflexivity; lia |].
  destruct (q s); lia.
Qed.

Lemma votes_for_lower (who : bool) l bs :
  Forall2 respects l bs ->
  Forall (fun s => (0 <= State.electoral_votes s)%Z) l ->
  (votes_where
     (if who then GameState.incumbent_wins else GameState.challenger_wins) l
   <= votes_for who l bs)%Z.
Proof.
  induction 1 as [| s b l bs [Hi Hc] _ IH]; intros Hnn.
  - reflexivity.
  - inversion Hnn as [| ? ? Hs Hl]; subst. specialize (IH Hl).
    rewrite votes_where_cons. cbn [votes_for].
    destruct who.
    + destruct (GameState.incumbent_wins s) eqn:E.
      * rewrite (Hi eq_refl). simpl. lia.
      * destruct (Bool.eqb b true); lia.
    + destruct (GameState.challenger_wins s) eqn:E.
      * rewrite (Hc eq_refl). simpl. lia.
      * destruct (Bool.eqb b false); lia.
Qed.

Lemma locked_wins (s : State.t) :
  (Num.ltb 15 (State.challenger_support s - State.incumbent_support s) = true ->
   GameState.challenger_wins s = true)
  /\ (Num.ltb 15 (State.incumbent_support s - State.challenger_support s) = true ->
      GameState.incumbent_wins s = true).
Proof.
  unfold GameState.challenger_wins, GameState.incumbent_wins.
  split; intros H; apply ltb_true in H; apply ltb_true; lra.
Qed.

(** X8. On a board whose votes are not negative and total less than 540, a
    candidate whom [is_mathematically_eliminated] declares out loses the
    election, whatever the coins: the other side has at least 270 votes. *)
Theorem eliminated_loses (coins : Random.t) (gs : GameState.t) :
  votes_nonneg gs ->
  (GameState.total_electoral_votes gs < 540)%Z ->
  (ElectoralCalculator.is_mathematically_eliminated gs true = true ->
   exists r,
     fst (ElectoralCalculator.calculate_final_result coins gs) = Ok r
     /\ ElectionResult.winner r = "Challenger"
     /\ (270 <= ElectionResult.challenger_evs r)%Z)
  /\ (ElectoralCalculator.is_mathematically_eliminated gs false = true ->
      exists r,
        fst (ElectoralCalculator.calculate_final_result coins gs) = Ok r
        /\ ElectionResult.winner r = "Incumbent"
        /\ (270 <= ElectionResult.incumbent_evs r)%Z).
Proof.
  intros Hnn Htot.
  unfold votes_nonneg in Hnn.
  set (l := Dict.values (GameState.states gs)) in *.
  assert (Hall : forall p, (votes_where p l
                            <= GameState.total_electoral_votes gs)%Z).
  { intros p. unfold GameState.total_electoral_votes. fold l.
    apply votes_where_le_total. exact Hnn. }
  split; intros He;
    unfold ElectoralCalculator.is_mathematically_eliminated,
      ElectoralCalculator.VOTES_TO_WIN in He;
    fold l in He; apply Z.leb_le in He.
  - fold (votes_where
            (fun s => Num.ltb 15 (State.challenger_support s
                                  - State.incumbent_support s)) l) in He.
    pose proof (votes_where_mono _ GameState.challenger_wins l
                  (fun s => proj1 (locked_wins s)) Hnn) as Hm.
    assert (Hne : GameState.total_electoral_votes gs <> 0%Z).
    { pose proof (Hall GameState.challenger_wins). lia. }
    destruct (calculate_final_result_returns coins gs Hne)
      as (r & Hr & Hi & Hc & Hw).
    destruct (assign_fold (GameState.states gs)
                (ElectoralCalculator.mk_tally 0 0 [] coins))
      as (bs & HF & Fi & Fc).
    simpl in Fi, Fc. rewrite <- Hi in Fi. rewrite <- Hc in Fc.
    fold l in HF, Fi, Fc.
    pose proof (votes_for_total l bs HF) as Hsum.
    pose proof (votes_for_lower false l bs HF Hnn) as Hlow.
    cbn beta iota in Hlow.
    unfold GameState.total_electoral_votes in Htot. fold l in Htot.
    exists r. split; [exact Hr |].
    split; [| lia].
    rewrite Hw.
    apply (proj1 (proj2 (decide_winner_cases _ _))); lia.
  - fold (votes_where
            (fun s => Num.ltb 15 (State.incumbent_support s
                                  - State.challenger_support s)) l) in He.
    pose proof (votes_where_mono _ GameState.incumbent_wins l
                  (fun s => proj2 (locked_wins s)) Hnn) as Hm.
    assert (Hne : GameState.total_electoral_votes gs <> 0%Z).
    { pose proof (Hall GameState.incumbent_wins). lia. }
    destruct (calculate_final_result_returns coins gs Hne)
      as (r & Hr & Hi & Hc & Hw).
    destruct (assign_fold (GameState.states gs)
                (ElectoralCalculator.mk_tally 0 0 [] coins))
      as (bs & HF & Fi & Fc).
    simpl in Fi, Fc. rewrite <- Hi in Fi. rewrite <- Hc in Fc.
    fold l in HF, Fi, Fc.
    pose proof (votes_for_lower true l bs HF Hnn) as Hlow.
    cbn beta iota in Hlow.
    exists r. split; [exact Hr |].
    split; [| lia].
    rewrite Hw.
    apply (proj1 (decide_winner_cases _ _)); lia.
Qed.

Lemma eliminated_loses_witness :
  exists r,
    fst (ElectoralCalculator.calculate_final_result always_low swept_game)
    = Ok r
    /\ ElectionResult.winner r = "Challenger".
Proof.
  destruct (eliminated_loses always_low swept_game) as [H _].
  - apply Forall_forall. intros s Hs. apply Z.leb_le. revert s Hs.
    apply (proj1 (forallb_forall
                    (fun s => (0 <=? State.electoral_votes s)%Z) _)).
    vm_compute. reflexivity.
  - vm_compute. reflexivity.
  - destruct H as (r & Hr & Hw & _); [vm_compute; reflexivity |].
    exists r. split; assumption.
Defined.

(** ** Samples *)

Lemma remove_nth_incl {A : Type} n (l : list A) x :
  In x (Random.remove_nth n l) -> In x l.
Proof.
  revert n. induction l as [| y l IH]; intros n H.
  - destruct n; exact H.
  - destruct n as [| n]; simpl in H; [right; exact H |].
    destruct H as [-> | H]; [left; reflexivity | right; exact (IH n H)].
Qed.

Lemma remove_nth_nodup {A : Type} n (l : list A) d :
  NoDup l -> (n < List.length l)%nat ->
  ~ In (nth n l d) (Random.remove_nth n l) /\ NoDup (Random.remove_nth n l).
Proof.
  intros H. revert n. induction H as [| y l Hy Hl IH]; intros n Hn.
  - simpl in Hn. lia.
  - destruct n as [| n]; simpl.
    + split; [exact Hy | exact Hl].
    + simpl in Hn. destruct (IH n ltac:(lia)) as [I1 I2]. split.
      * intros [E | E]; [| exact (I1 E)].
        apply Hy. rewrite E. apply nth_In. lia.
      * constructor; [| exact I2].
        intros E. apply Hy. exact (remove_nth_incl _ _ _ E).
Qed.

Lemma sample_spec {A : Type} (k : nat) :
  forall (population : list A) r,
    incl (fst (Random.sample population k r)) population
    /\ (List.length (fst (Random.sample population k r)) <= k)%nat
    /\ (NoDup population -> NoDup (fst (Random.sample population k r))).
Proof.
  induction k as [| k IH]; intros population r.
  - simpl. repeat split; [intros x [] | lia | intros _; constructor].
  - destruct population as [| x population'].
    + simpl. repeat split; [intros y [] | lia | intros _; constructor].
    + set (population := x :: population').
      assert (Hlen : (0 < Z.of_nat (List.length population))%Z)
        by (simpl; lia).
      pose proof (randbelow_range _ r Hlen) as Hi.
      change (Random.sample population (S k) r)
        with (let '(i, r1) :=
                Random.randbelow (Z.of_nat (List.length population)) r in
              let '(rest, r2) :=
                Random.sample (Random.remove_nth (Z.to_nat i) population) k r1 in
              (nth (Z.to_nat i) population x :: rest, r2)).
      destruct (Random.randbelow (Z.of_nat (List.length population)) r)
        as [i r1].
      cbn [fst] in Hi.
      destruct (IH (Random.remove_nth (Z.to_nat i) population) r1)
        as (I1 & I2 & I3).
      destruct (Random.sample (Random.remove_nth (Z.to_nat i) population) k r1)
        as [rest r2].
      cbn [fst] in *.
      assert (Hn : (Z.to_nat i < List.length population)%nat) by lia.
      split; [| split].
      * intros y [<- | Hy]; [apply nth_In; exact Hn |].
        exact (remove_nth_incl _ _ _ (I1 y Hy)).
      * simpl. lia.
      * intros Hnd.
        destruct (remove_nth_nodup (Z.to_nat i) population x Hnd Hn)
          as [N1 N2].
        constructor; [| exact (I3 N2)].
        intros E. apply N1. exact (I1 _ E).
Qed.

(** ** Events *)

Lemma round1_between (lo hi x : Q) :
  Num.round1 lo == lo -> Num.round1 hi == hi ->
  lo <= x <= hi -> lo <= Num.round1 x <= hi.
Proof.
  intros Glo Ghi [H1 H2]. unfold Num.round1 in *.
  set (mlo := Num.round_half_even (lo * 10)) in *.
  set (mhi := Num.round_half_even (hi * 10)) in *.
  unfold Qdiv in Glo, Ghi. change (/ 10) with (1 # 10) in Glo, Ghi.
  assert (H : (mlo <= Num.round_half_even (x * 10) <= mhi)%Z)
    by (apply round_half_even_between; lra).
  destruct H as [A B]. rewrite Zle_Qle in A, B.
  set (n := inject_Z (Num.round_half_even (x * 10))) in *.
  unfold Qdiv. change (/ 10) with (1 # 10). lra.
Qed.

Lemma effects_ranges ty :
  let effects := EventGenerator.EVENT_EFFECTS ty in
  fst (fst effects) <= snd (fst effects)
  /\ Num.round1 (fst (fst effects)) == fst (fst effects)
  /\ Num.round1 (snd (fst effects)) == snd (fst effects)
  /\ (fst (snd effects) <= snd (snd effects))%Z
  /\ -4 <= fst (fst effects) /\ snd (fst effects) <= 7 # 2
  /\ (-15 <= fst (snd effects))%Z /\ (snd (snd effects) <= 20)%Z.
Proof.
  destruct ty; cbn; repeat split; try lia; try lra; vm_compute; reflexivity.
Qed.

Lemma event_effects_in_range ty title description who r0 turn affected :
  In (title, description)
     (fst (EVENT_TEMPLATES ty) :: snd (EVENT_TEMPLATES ty)) ->
  let effects := EventGenerator.EVENT_EFFECTS ty in
  let sc := Random.uniform (fst (fst effects)) (snd (fst effects)) r0 in
  let mc := Random.randint (fst (snd effects)) (snd (snd effects)) (snd sc) in
  event_in_range
    (GameEvent.mk ty title description who (Num.round1 (fst sc)) (fst mc)
       affected turn).
Proof.
  intros Ht effects sc mc.
  destruct (effects_ranges ty) as (R1 & R2 & R3 & R4 & _).
  fold effects in R1, R2, R3, R4.
  unfold event_in_range. cbn [GameEvent.event_type GameEvent.title
    GameEvent.description GameEvent.support_change GameEvent.momentum_change].
  fold effects.
  split; [exact Ht |]. split.
  - apply round1_between; [exact R2 | exact R3 |].
    apply uniform_range. exact R1.
  - apply randint_range. exact R4.
Qed.

Lemma event_in_range_overall ev :
  event_in_range ev ->
  -4 <= GameEvent.support_change ev <= 7 # 2
  /\ (-15 <= GameEvent.momentum_change ev <= 20)%Z.
Proof.
  intros (_ & Hs & Hm).
  destruct (effects_ranges (GameEvent.event_type ev))
    as (_ & _ & _ & _ & A & B & C & D).
  cbv zeta in *. split; [lra | lia].
Qed.

Lemma generate_event_facts (rng : Random.t) (gs : GameState.t) :
  let ev := fst (EventGenerator.generate_event rng gs) in
  event_in_range ev
  /\ incl (GameEvent.affected_states ev) (Dict.keys (GameState.states gs))
  /\ (List.length (GameEvent.affected_states ev) <= 3)%nat
  /\ (NoDup (Dict.keys (GameState.states gs)) ->
      NoDup (GameEvent.affected_states ev))
  /\ GameEvent.turn_occurred ev = GameState.current_turn gs.
Proof.
  intros ev. subst ev.
  unfold EventGenerator.generate_event.
  destruct (Random.choice (SCANDAL, _) rng) as [ty r1].
  pose proof (choice_in (EVENT_TEMPLATES ty) r1) as Ht.
  destruct (Random.choice (EVENT_TEMPLATES ty) r1) as [[title desc] r2].
  cbn [fst] in Ht.
  destruct (Random.choice (true, [false]) r2) as [who r3].
  pose proof (fun affected =>
                event_effects_in_range ty title desc who r3
                  (GameState.current_turn gs) affected Ht) as Hev.
  cbv zeta in Hev.
  destruct (EventGenerator.EVENT_EFFECTS ty) as [sr mr].
  cbn [fst snd] in Hev.
  destruct (Random.uniform (fst sr) (snd sr) r3) as [sc r4].
  cbn [fst snd] in Hev.
  destruct (Random.randint (fst mr) (snd mr) r4) as [mc r5].
  cbn [fst snd] in Hev.
  destruct (Random.random r5) as [u r6].
  destruct (Num.ltb u (3 # 10)).
  - pose proof (randint_range 1 3 r6 ltac:(lia)) as Hn.
    destruct (Random.randint 1 3 r6) as [n r7]. cbn [fst] in Hn.
    match goal with
    | |- context [Random.sample ?pop ?k ?r] =>
        destruct (sample_spec k pop r) as (S1 & S2 & S3);
        destruct (Random.sample pop k r) as [affected r8]
    end.
    cbn [fst snd GameEvent.affected_states GameEvent.turn_occurred] in *.
    split; [exact (Hev affected) |]. split; [exact S1 |].
    split; [lia |]. split; [exact S3 | reflexivity].
  - cbn [fst snd GameEvent.affected_states GameEvent.turn_occurred] in *.
    split; [exact (Hev []) |]. split; [intros x [] |].
    split; [simpl; lia |]. split; [intros _; constructor | reflexivity].
Qed.

(** X9. A generated event takes its title and description from the
    templates of its type and its two effects from the ranges of its type;
    it names at most three states, all on the board and, the board having no
    duplicate, all different; it is dated with the current turn.  Across the
    types the support change lies between -4 and 3.5 and the momentum change
    between -15 and 20.  A crisis event is national, of type [CRISIS], and
    strikes the side asked for. *)
Theorem generate_event_in_range
    (rng : Random.t) (gs : GameState.t) (affects_incumbent : bool) :
  let ev := fst (EventGenerator.generate_event rng gs) in
  let crisis :=
    fst (EventGenerator.generate_crisis_event rng gs affects_incumbent) in
  (event_in_range ev
   /\ incl (GameEvent.affected_states ev) (Dict.keys (GameState.states gs))
   /\ (List.length (GameEvent.affected_states ev) <= 3)%nat
   /\ (NoDup (Dict.keys (GameState.states gs)) ->
       NoDup (GameEvent.affected_states ev))
   /\ GameEvent.turn_occurred ev = GameState.current_turn gs
   /\ -4 <= GameEvent.support_change ev <= 7 # 2
   /\ (-15 <= GameEvent.momentum_change ev <= 20)%Z)
  /\ (event_in_range crisis
      /\ GameEvent.event_type crisis = CRISIS
      /\ GameEvent.affects_incumbent crisis = affects_incumbent
      /\ GameEvent.affected_states crisis = []
      /\ GameEvent.turn_occurred crisis = GameState.current_turn gs).
Proof.
  intros ev crisis. split.
  - destruct (generate_event_facts rng gs) as (H1 & H2 & H3 & H4 & H5).
    fold ev in H1, H2, H3, H4, H5.
    destruct (event_in_range_overall ev H1) as [O1 O2].
    split; [exact H1 |]. split; [exact H2 |]. split; [exact H3 |].
    split; [exact H4 |]. split; [exact H5 |]. split; [exact O1 | exact O2].
  - subst crisis. unfold EventGenerator.generate_crisis_event.
    pose proof (choice_in (EVENT_TEMPLATES CRISIS) rng) as Ht.
    destruct (Random.choice (EVENT_TEMPLATES CRISIS) rng)
      as [[title desc] r1].
    cbn [fst] in Ht.
    pose proof (event_effects_in_range CRISIS title desc affects_incumbent r1
                  (GameState.current_turn gs) [] Ht) as Hev.
    cbv zeta in Hev.
    destruct (Random.uniform
                (fst (fst (EventGenerator.EVENT_EFFECTS CRISIS)))
                (snd (fst (EventGenerator.EVENT_EFFECTS CRISIS))) r1)
      as [sc r2].
    cbn [fst snd] in Hev.
    destruct (Random.randint
                (fst (snd (EventGenerator.EVENT_EFFECTS CRISIS)))
                (snd (snd (EventGenerator.EVENT_EFFECTS CRISIS))) r2)
      as [mc r3].
    cbn [fst snd] in Hev |- *.
    split; [exact Hev |]. repeat split; reflexivity.
Qed.

(** ** Applying an event *)

Lemma event_fold_other ev l :
  forall d k,
    ~ In k l ->
    Dict.get (fold_left (EventGenerator.event_step ev) l d) k = Dict.get d k.
Proof.
  induction l as [| k0 l IH]; intros d k Hn; [reflexivity |].
  cbn [fold_left]. rewrite IH by (intro; apply Hn; right; assumption).
  unfold EventGenerator.event_step.
  destruct (Dict.get d k0) as [s |]; [| reflexivity].
  apply get_set_other. intro; apply Hn; left; congruence.
Qed.

(** X10. Applying an event appends it to the log and leaves the turn and
    the outcome alone; the struck player's momentum moves by the event's
    change, funds untouched, and the other player is untouched.  A national
    event applies half its support change to every state, a regional one
    leaves every state it does not name as it was; the board keeps its
    states, names, votes and regions. *)
Theorem apply_event_spec (gs : GameState.t) (ev : GameEvent.t) :
  let gs' := EventGenerator.apply_event gs ev in
  let b := GameEvent.affects_incumbent ev in
  GameState.events_log gs' = (GameState.events_log gs ++ [ev])%list
  /\ GameState.current_turn gs' = GameState.current_turn gs
  /\ GameState.max_turns gs' = GameState.max_turns gs
  /\ GameState.game_over gs' = GameState.game_over gs
  /\ GameState.winner gs' = GameState.winner gs
  /\ ActionProcessor.acting_player gs' b
     = Player.adjust_momentum (ActionProcessor.acting_player gs b)
         (GameEvent.momentum_change ev)
  /\ Player.funds (ActionProcessor.acting_player gs' b)
     = Player.funds (ActionProcessor.acting_player gs b)
  /\ ActionProcessor.acting_player gs' (negb b)
     = ActionProcessor.acting_player gs (negb b)
  /\ static_table (GameState.states gs') = static_table (GameState.states gs)
  /\ (GameEvent.affected_states ev = [] ->
      GameState.states gs'
      = Dict.map_values (boost b (GameEvent.support_change ev * (1 # 2)))
          (GameState.states gs))
  /\ (forall k,
        GameEvent.affected_states ev <> [] ->
        ~ In k (GameEvent.affected_states ev) ->
        Dict.get (GameState.states gs') k = Dict.get (GameState.states gs) k).
Proof.
  intros gs' b. subst gs' b. unfold EventGenerator.apply_event.
  cbn [GameState.events_log GameState.current_turn GameState.max_turns
       GameState.game_over GameState.winner GameState.states GameState.new].
  split; [reflexivity |]. split; [reflexivity |]. split; [reflexivity |].
  split; [reflexivity |]. split; [reflexivity |].
  split; [destruct (GameEvent.affects_incumbent ev); reflexivity |].
  split; [destruct (GameEvent.affects_incumbent ev); reflexivity |].
  split; [destruct (GameEvent.affects_incumbent ev); reflexivity |].
  unfold GameEvent.is_national.
  destruct (GameEvent.affected_states ev) as [| k0 l] eqn:E.
  - split; [| split].
    + apply static_table_map_values. intros s.
      destruct (GameEvent.affects_incumbent ev);
        apply apply_support_change_static.
    + intros _. unfold Dict.map_values. apply map_ext. intros [k s].
      unfold boost. destruct (GameEvent.affects_incumbent ev); reflexivity.
    + intros k H. contradiction.
  - split; [| split].
    + apply event_fold_static.
    + discriminate.
    + intros k _ Hn. apply event_fold_other. exact Hn.
Qed.

(** ** Starting a turn *)


(** ** Looking a state up and filing it *)

Lemma upper_ascii_idempotent c : upper_ascii (upper_ascii c) = upper_ascii c.
Proof. destruct c as [[] [] [] [] [] [] [] []]; reflexivity. Qed.

Lemma upper_idempotent s : upper (upper s) = upper s.
Proof.
  induction s as [| c s IH]; [reflexivity |].
  simpl. rewrite upper_ascii_idempotent, IH. reflexivity.
Qed.


Lemma keys_set_absent {V : Type} (d : Dict.t V) k v :
  ~ In k (Dict.keys d) -> Dict.keys (Dict.set d k v) = (Dict.keys d ++ [k])%list.
Proof.
  induction d as [| [k0 v0] d IH]; simpl; [reflexivity |].
  intros Hn. destruct (String.eqb k k0) eqn:E.
  - apply String.eqb_eq in E. exfalso. apply Hn. left. congruence.
  - simpl. f_equal. apply IH. intro. apply Hn. right. assumption.
Qed.

(** X12. [get_state] is case-insensitive on ASCII abbreviations.  A state
    filed by [update_state] under an upper-case abbreviation is found again,
    other abbreviations are unaffected, and filing a state under an
    abbreviation that is not upper-case changes no lookup.  Filing keeps the
    order of the board, a new abbreviation going last. *)
Theorem get_state_update_state
    (g : GameState.t) (s : State.t) (q : string) :
  GameState.get_state g (upper q) = GameState.get_state g q
  /\ (upper (State.abbreviation s) = State.abbreviation s ->
      GameState.get_state (GameState.update_state g s) (State.abbreviation s)
      = Some s)
  /\ (upper q <> State.abbreviation s ->
      GameState.get_state (GameState.update_state g s) q
      = GameState.get_state g q)
  /\ (upper (State.abbreviation s) <> State.abbreviation s ->
      forall q',
        GameState.get_state (GameState.update_state g s) q'
        = GameState.get_state g q')
  /\ (In (State.abbreviation s) (Dict.keys (GameState.states g)) ->
      Dict.keys (GameState.states (GameState.update_state g s))
      = Dict.keys (GameState.states g))
  /\ (~ In (State.abbreviation s) (Dict.keys (GameState.states g)) ->
      Dict.keys (GameState.states (GameState.update_state g s))
      = (Dict.keys (GameState.states g) ++ [State.abbreviation s])%list).
Proof.
  unfold GameState.get_state, GameState.update_state.
  cbn [GameState.states GameState.new].
  split; [rewrite upper_idempotent; reflexivity |].
  split; [intros ->; apply get_set_same |].
  split; [intros H; apply get_set_other; exact H |].
  split.
  - intros H q'. apply get_set_other. intros E. apply H.
    rewrite <- E. apply upper_idempotent.
  - split; [apply keys_set_present | apply keys_set_absent].
Qed.

(** ** The recent events *)

(** X13. The recent events are the last ten of the log, or all of it when
    it is shorter; an event just added or applied is the last of them. *)
Theorem recent_events_spec (g : GameState.t) (ev : GameEvent.t) :
  List.length (GameState.recent_events g)
  = Nat.min 10 (List.length (GameState.events_log g))
  /\ (exists older,
        GameState.events_log g = (older ++ GameState.recent_events g)%list)
  /\ ((List.length (GameState.events_log g) <= 10)%nat ->
      GameState.recent_events g = GameState.events_log g)
  /\ (exists l,
        GameState.recent_events (GameState.add_event g ev) = (l ++ [ev])%list)
  /\ (exists l,
        GameState.recent_events (EventGenerator.apply_event g ev)
        = (l ++ [ev])%list).
Proof.
  unfold GameState.recent_events.
  assert (Last : forall log : list GameEvent.t,
             exists l,
               skipn (List.length (log ++ [ev]) - 10) (log ++ [ev])
               = (l ++ [ev])%list).
  { intros log. exists (skipn (List.length (log ++ [ev]) - 10) log).
    rewrite skipn_app, length_app. cbn [List.length].
    replace (List.length log + 1 - 10 - List.length log)%nat with 0%nat by lia.
    reflexivity. }
  split; [rewrite length_skipn; lia |].
  split.
  - exists (firstn (List.length (GameState.events_log g) - 10)
              (GameState.events_log g)).
    symmetry. apply firstn_skipn.
  - split.
    + intros H.
      replace (List.length (GameState.events_log g) - 10)%nat with 0%nat by lia.
      reflexivity.
    + split; [apply Last |].
      unfold EventGenerator.apply_event.
      cbn [GameState.events_log GameState.new]. apply Last.
Qed.

(** ** What the AI chooses *)

Lemma walk_in roll weights :
  forall cumulative a,
    AIOpponent.walk roll cumulative weights = Some a ->
    In a (map fst weights).
Proof.
  induction weights as [| [a0 w0] weights IH]; intros c a H; [discriminate |].
  cbn [AIOpponent.walk] in H.
  destruct (Num.leb roll (c + w0)).
  - injection H as <-. left. reflexivity.
  - right. exact (IH _ _ H).
Qed.

(** X14. Whatever the AI chooses, the challenger can pay for it, so the
    action succeeds when executed; the targets are those of the AI's own
    selection, and at most one number is drawn. *)
Theorem choose_action_affordable
    (rng ap : Random.t) (gs : GameState.t) :
  (0 <= Player.funds (GameState.challenger gs))%Z ->
  let out := AIOpponent.choose_action rng gs in
  let a := fst (fst out) in
  let targets := snd (fst out) in
  (ActionDefinition.cost (get_action_definition a)
   <= Player.funds (GameState.challenger gs))%Z
  /\ targets = AIOpponent._select_target_states gs a
  /\ (snd out = rng \/ snd out = snd (Random.random rng))
  /\ ActionResult.success
       (snd (fst (ActionProcessor.execute_action ap gs a false targets)))
     = true.
Proof.
  intros Hf out a targets.
  assert (Main :
            (ActionDefinition.cost (get_action_definition a)
             <= Player.funds (GameState.challenger gs))%Z
            /\ targets = AIOpponent._select_target_states gs a
            /\ (snd out = rng \/ snd out = snd (Random.random rng))).
  { subst a targets out. unfold AIOpponent.choose_action.
    set (aff := filter _ _).
    assert (Haff : forall x, In x (map fst aff) ->
                   (ActionDefinition.cost (get_action_definition x)
                    <= Player.funds (GameState.challenger gs))%Z).
    { intros x Hx. apply in_map_iff in Hx. destruct Hx as ([x' w] & <- & Hin).
      unfold aff in Hin. apply filter_In in Hin. destruct Hin as [_ Hc].
      unfold Player.can_afford in Hc. apply Z.leb_le in Hc. exact Hc. }
    destruct aff as [| aw aff'] eqn:E.
    - cbn [fst snd]. split; [exact Hf |]. split; [reflexivity | left; reflexivity].
    - destruct (Num.eqb _ 0).
      + cbn [fst snd]. split; [exact Hf |].
        split; [reflexivity | left; reflexivity].
      + destruct (Random.random rng) as [u rng'].
        destruct (AIOpponent.walk _ 0 (aw :: aff')) as [x |] eqn:W.
        * cbn [fst snd]. split; [| split; [reflexivity | right; reflexivity]].
          apply Haff. exact (walk_in _ _ _ _ W).
        * cbn [fst snd]. split; [exact Hf |].
          split; [reflexivity | right; reflexivity]. }
  destruct Main as (M1 & M2 & M3).
  split; [exact M1 |]. split; [exact M2 |]. split; [exact M3 |].
  destruct (execute_action_outcome ap gs a false targets M1)
    as (_ & _ & _ & _ & _ & _ & S & _).
  exact S.
Qed.

Lemma choose_action_affordable_witness :
  let out := AIOpponent.choose_action always_mid (game_with 15 0 1 0) in
  (ActionDefinition.cost (get_action_definition (fst (fst out))) <= 1)%Z.
Proof.
  intros out.
  destruct (choose_action_affordable always_mid always_low
              (game_with 15 0 1 0)) as (H & _); [cbn; lia |].
  exact H.
Defined.

(** ** The actions a player can pay for *)

(** X15. The affordable actions are exactly the defined actions whose cost
    the player's funds cover, which are exactly the actions that succeed
    when executed: all seven from funds of 4, none on negative funds. *)
Theorem get_affordable_actions_spec
    (e : GameEngine.t) (for_incumbent : bool) (gs : GameState.t) :
  GameEngine.game_state e = Some gs ->
  let p := ActionProcessor.acting_player gs for_incumbent in
  let listed := GameEngine.get_affordable_actions e for_incumbent in
  (forall a,
      In (get_action_definition a) listed
      <-> (ActionDefinition.cost (get_action_definition a)
           <= Player.funds p)%Z)
  /\ (forall d, In d listed -> exists a, d = get_action_definition a)
  /\ (forall a rng targets,
        In (get_action_definition a) listed
        <-> ActionResult.success
              (snd (fst (ActionProcessor.execute_action rng gs a
                           for_incumbent targets))) = true)
  /\ ((4 <= Player.funds p)%Z -> listed = get_all_actions)
  /\ ((Player.funds p < 0)%Z -> listed = []).
Proof.
  intros Hg p listed. subst listed.
  unfold GameEngine.game_state in Hg.
  unfold GameEngine.get_affordable_actions. rewrite Hg.
  replace (if for_incumbent then GameState.incumbent gs
           else GameState.challenger gs) with p by reflexivity.
  unfold ActionProcessor.get_affordable_actions.
  assert (All : forall a, In (get_action_definition a) get_all_actions).
  { intros a. unfold get_all_actions. apply in_map.
    destruct a; simpl; auto 10. }
  assert (L : forall a,
             In (get_action_definition a)
                (filter (fun a0 => Player.can_afford p (ActionDefinition.cost a0))
                   get_all_actions)
             <-> (ActionDefinition.cost (get_action_definition a)
                  <= Player.funds p)%Z).
  { intros a. rewrite filter_In. unfold Player.can_afford.
    rewrite Z.leb_le. split; [intros [_ H]; exact H | intros H; split; auto]. }
  split; [exact L |]. split; [| split; [| split]].
  - intros d Hd. apply filter_In in Hd. destruct Hd as [Hd _].
    unfold get_all_actions in Hd. apply in_map_iff in Hd.
    destruct Hd as (a & <- & _). exists a. reflexivity.
  - intros a rng targets. rewrite L.
    destruct (Z_lt_le_dec (Player.funds p)
                (ActionDefinition.cost (get_action_definition a)))
      as [Hpoor | Hrich].
    + destruct (execute_action_refused rng gs a for_incumbent targets Hpoor)
        as (_ & S & _).
      rewrite S. split; [lia | discriminate].
    + destruct (execute_action_outcome rng gs a for_incumbent targets Hrich)
        as (_ & _ & _ & _ & _ & _ & S & _).
      rewrite S. split; [reflexivity | intros _; exact Hrich].
  - intros H. unfold get_all_actions. cbn [map filter get_action_definition
      ActionDefinition.cost Player.can_afford].
    unfold Player.can_afford. cbn [ActionDefinition.cost].
    repeat match goal with
           | |- context [(?c <=? Player.funds p)%Z] =>
               replace (c <=? Player.funds p)%Z with true
                 by (symmetry; apply Z.leb_le; lia)
           end.
    reflexivity.
  - intros H. unfold get_all_actions. cbn [map filter get_action_definition
      ActionDefinition.cost Player.can_afford].
    unfold Player.can_afford. cbn [ActionDefinition.cost].
    repeat match goal with
           | |- context [(?c <=? Player.funds p)%Z] =>
               replace (c <=? Player.funds p)%Z with false
                 by (symmetry; apply Z.leb_gt; lia)
           end.
    reflexivity.
Qed.

Lemma get_affordable_actions_spec_witness :
  GameEngine.get_affordable_actions
    (GameEngine.mk always_low always_low (Some (game_with 15 0 15 0))) true
  = get_all_actions.
Proof.
  destruct (get_affordable_actions_spec
              (GameEngine.mk always_low always_low (Some (game_with 15 0 15 0)))
              true (game_with 15 0 15 0) eq_refl) as (_ & _ & _ & H & _).
  apply H. cbn. lia.
Defined.

(** ** What every reachable game satisfies *)

Lemma update_ok p funds_change momentum_change :
  Player.MIN_MOMENTUM p = (-100)%Z -> Player.MAX_MOMENTUM p = 100%Z ->
  player_ok (Player.update p funds_change momentum_change)
  /\ Player.is_incumbent (Player.update p funds_change momentum_change)
     = Player.is_incumbent p.
Proof.
  intros Hmin Hmax. unfold player_ok, Player.update, Player.clamp_momentum.
  rewrite Hmin, Hmax. cbn. repeat split; lia.
Qed.

Lemma adjust_ok p change :
  player_ok p ->
  player_ok (Player.adjust_momentum p change)
  /\ Player.is_incumbent (Player.adjust_momentum p change)
     = Player.is_incumbent p.
Proof.
  intros (Hf & Hm & Hmin & Hmax).
  unfold player_ok, Player.adjust_momentum, Player.clamp_momentum.
  rewrite Hmin, Hmax. cbn. repeat split; lia.
Qed.

Lemma decide_winner_either i c :
  ElectoralCalculator.decide_winner i c = "Incumbent"
  \/ ElectoralCalculator.decide_winner i c = "Challenger".
Proof.
  unfold ElectoralCalculator.decide_winner.
  destruct (_ <=? i)%Z; [left; reflexivity |].
  destruct (_ <=? c)%Z; [right; reflexivity |].
  destruct (c <? i)%Z; [left; reflexivity |].
  destruct (i <? c)%Z; [right; reflexivity | left; reflexivity].
Qed.

Lemma new_game_ok e player_name challenger_name :
  game_ok (fst (GameEngine.new_game e player_name challenger_name)).
Proof.
  unfold GameEngine.new_game. cbn [fst]. unfold game_ok.
  cbn [GameState.incumbent GameState.challenger GameState.states
       GameState.current_turn GameState.max_turns GameState.game_over
       GameState.winner GameState.events_log GameState.new].
  split; [split; [repeat split; cbn; lia | reflexivity] |].
  split; [split; [repeat split; cbn; lia | reflexivity] |].
  split; [reflexivity |].
  split; [split; [lia | reflexivity] |].
  split; [left; split; reflexivity | constructor].
Qed.

Lemma execute_action_ok rng gs a b ts :
  game_ok gs ->
  game_ok (fst (fst (ActionProcessor.execute_action rng gs a b ts))).
Proof.
  intros Hok.
  destruct (Z_lt_le_dec
              (Player.funds (ActionProcessor.acting_player gs b))
              (ActionDefinition.cost (get_action_definition a)))
    as [Hpoor | Hrich].
  - destruct (execute_action_refused rng gs a b ts Hpoor) as (-> & _).
    exact Hok.
  - destruct (execute_action_outcome rng gs a b ts Hrich)
      as (change & P & _ & O & S & F & _).
    set (gs' := fst (fst (ActionProcessor.execute_action rng gs a b ts))) in *.
    destruct Hok as ((Pi & Ii) & (Pc & Ic) & St & Tn & Ow & Ev).
    destruct F as (F1 & F2 & F3 & F4 & F5).
    assert (Hpl : (player_ok (GameState.incumbent gs')
                   /\ Player.is_incumbent (GameState.incumbent gs') = true)
                  /\ (player_ok (GameState.challenger gs')
                      /\ Player.is_incumbent (GameState.challenger gs')
                         = false)).
    { destruct b; cbn [ActionProcessor.acting_player negb] in P, O.
      - rewrite P, O.
        destruct Pi as (_ & _ & Hmin & Hmax).
        destruct (update_ok (GameState.incumbent gs) change
                    (ActionDefinition.momentum_change (get_action_definition a))
                    Hmin Hmax) as [U1 U2].
        split; [split; [exact U1 | rewrite U2; exact Ii] |].
        split; assumption.
      - rewrite P, O.
        destruct Pc as (_ & _ & Hmin & Hmax).
        destruct (update_ok (GameState.challenger gs) change
                    (ActionDefinition.momentum_change (get_action_definition a))
                    Hmin Hmax) as [U1 U2].
        split; [split; assumption |].
        split; [exact U1 | rewrite U2; exact Ic]. }
    destruct Hpl as [Hi Hc].
    unfold game_ok. rewrite F1, F2, F3, F4, F5, S.
    split; [exact Hi |]. split; [exact Hc |]. split; [exact St |].
    split; [exact Tn |].
    split; [exact Ow | exact Ev].
Qed.

Lemma apply_event_ok gs ev :
  game_ok gs ->
  event_in_range ev ->
  GameEvent.turn_occurred ev = GameState.current_turn gs ->
  game_ok (EventGenerator.apply_event gs ev).
Proof.
  intros ((Pi & Ii) & (Pc & Ic) & St & Tn & Ow & Ev) Hr Ht.
  assert (Hstat : static_table
                    (GameState.states (EventGenerator.apply_event gs ev))
                  = static_table (GameState.states gs)).
  { unfold EventGenerator.apply_event. cbn [GameState.states GameState.new].
    destruct (GameEvent.is_national ev).
    - apply static_table_map_values. intros s.
      destruct (GameEvent.affects_incumbent ev);
        apply apply_support_change_static.
    - apply event_fold_static. }
  unfold game_ok. rewrite Hstat.
  unfold EventGenerator.apply_event in *.
  cbn [GameState.incumbent GameState.challenger GameState.states
       GameState.current_turn GameState.max_turns GameState.game_over
       GameState.winner GameState.events_log GameState.new] in *.
  split; [| split].
  - destruct (GameEvent.affects_incumbent ev); [| split; assumption].
    destruct (adjust_ok (GameState.incumbent gs)
                (GameEvent.momentum_change ev) Pi) as [A1 A2].
    split; [exact A1 | rewrite A2; exact Ii].
  - destruct (GameEvent.affects_incumbent ev); [split; assumption |].
    destruct (adjust_ok (GameState.challenger gs)
                (GameEvent.momentum_change ev) Pc) as [A1 A2].
    split; [exact A1 | rewrite A2; exact Ic].
  - split; [exact St |]. split; [exact Tn |].
    split; [exact Ow |].
    apply Forall_app. split; [exact Ev |].
    constructor; [| constructor]. split; [rewrite Ht; lia | exact Hr].
Qed.

Lemma advance_turn_ok gs :
  game_ok gs ->
  (GameState.current_turn gs < GameState.max_turns gs)%Z ->
  game_ok (GameState.advance_turn gs).
Proof.
  intros (Hi & Hc & St & Tn & Ow & Ev) Hlt.
  unfold game_ok, GameState.advance_turn.
  cbn [GameState.incumbent GameState.challenger GameState.states
       GameState.current_turn GameState.max_turns GameState.game_over
       GameState.winner GameState.events_log GameState.new].
  split; [exact Hi |]. split; [exact Hc |]. split; [exact St |].
  split; [split; [lia | apply Tn] |].
  split; [exact Ow |].
  rewrite Forall_forall in *. intros ev Hev.
  destruct (Ev ev Hev) as [T R]. split; [lia | exact R].
Qed.

Lemma end_game_state_ok gs winner :
  game_ok gs ->
  winner = "Incumbent" \/ winner = "Challenger" ->
  game_ok (GameState.end_game gs winner).
Proof.
  intros (Hi & Hc & St & Tn & Ow & Ev) Hw.
  unfold game_ok, GameState.end_game.
  cbn [GameState.incumbent GameState.challenger GameState.states
       GameState.current_turn GameState.max_turns GameState.game_over
       GameState.winner GameState.events_log GameState.new].
  split; [exact Hi |]. split; [exact Hc |]. split; [exact St |].
  split; [exact Tn |].
  split; [| exact Ev].
  right. split; [reflexivity |].
  destruct Hw as [-> | ->]; [left | right]; reflexivity.
Qed.

Lemma final_result_winner_either coins gs r :
  fst (ElectoralCalculator.calculate_final_result coins gs) = Ok r ->
  ElectionResult.winner r = "Incumbent"
  \/ ElectionResult.winner r = "Challenger".
Proof.
  unfold ElectoralCalculator.calculate_final_result.
  destruct (_ =? 0)%Z; [discriminate |].
  cbn [fst]. intros H. injection H as <-.
  cbn [ElectionResult.winner]. apply decide_winner_either.
Qed.

Lemma end_game_ok e coins :
  world_ok (e, coins) ->
  world_ok (snd (fst (GameEngine.end_game coins e)),
            snd (GameEngine.end_game coins e)).
Proof.
  intros Hw gs. unfold GameEngine.end_game.
  destruct (GameEngine._game_state e) as [gs0 |] eqn:E; [| apply Hw].
  pose proof (final_result_winner_either coins gs0) as Hwin.
  destruct (ElectoralCalculator.calculate_final_result coins gs0)
    as [[res | x] c1]; cbn [fst snd] in *.
  - unfold GameEngine.game_state. cbn.
    intros H. injection H as <-.
    apply end_game_state_ok; [exact (Hw gs0 E) | exact (Hwin res eq_refl)].
  - apply Hw.
Qed.

Lemma execute_as_ok b e coins a ts :
  world_ok (e, coins) ->
  world_ok (snd (GameEngine.execute_as b e a ts), coins).
Proof.
  intros Hw gs. unfold GameEngine.execute_as.
  destruct (GameEngine._game_state e) as [gs0 |] eqn:E; [| apply Hw].
  pose proof (execute_action_ok (GameEngine.action_processor e) gs0 a b ts
                (Hw gs0 E)) as Hok.
  destruct (ActionProcessor.execute_action _ gs0 a b ts) as [[gs1 res] ap].
  cbn [fst snd] in *. unfold GameEngine.game_state. cbn.
  intros H. injection H as <-. exact Hok.
Qed.

Lemma step_ok w c : world_ok w -> world_ok (step w c).
Proof.
  destruct w as [e coins]. intros Hw.
  destruct c as [pn cn | | a ts | a ts | |]; cbn [step].
  - intros gs H. unfold GameEngine.game_state in H. cbn in H.
    injection H as <-. apply (new_game_ok e pn cn).
  - intros gs. unfold GameEngine.start_turn.
    destruct (GameEngine._game_state e) as [gs0 |] eqn:E; [| apply Hw].
    destruct (GameState.game_over gs0); [apply Hw |].
    unfold EventGenerator.maybe_generate_event.
    destruct (Random.random (GameEngine.event_generator e)) as [u r1].
    destruct (Num.ltb EventGenerator.EVENT_PROBABILITY u).
    + cbn [fst snd]. unfold GameEngine.game_state. cbn.
      intros H. injection H as <-. exact (Hw gs0 E).
    + destruct (generate_event_facts r1 gs0) as (H1 & _ & _ & _ & H5).
      destruct (EventGenerator.generate_event r1 gs0) as [ev r2].
      cbn [fst snd] in *. unfold GameEngine.game_state. cbn.
      intros H. injection H as <-.
      apply apply_event_ok; [exact (Hw gs0 E) | exact H1 | exact H5].
  - apply execute_as_ok. exact Hw.
  - apply execute_as_ok. exact Hw.
  - pose proof (end_game_ok e coins Hw) as Hend.
    unfold GameEngine.end_turn.
    destruct (GameEngine._game_state e) as [gs0 |] eqn:E; [| exact Hw].
    destruct (GameState.max_turns gs0 <=? GameState.current_turn gs0)%Z eqn:T.
    + destruct (GameEngine.end_game coins e) as [[res e'] c']. exact Hend.
    + apply Z.leb_gt in T.
      intros gs H. unfold GameEngine.game_state in H. cbn in H.
      injection H as <-. apply advance_turn_ok; [exact (Hw gs0 E) | exact T].
  - pose proof (end_game_ok e coins Hw) as Hend.
    destruct (GameEngine.end_game coins e) as [[res e'] c']. exact Hend.
Qed.

Lemma reachable_ok w : reachable w -> world_ok w.
Proof.
  induction 1 as [twister fa fe seed coins | w c _ IH].
  - intros gs H. destruct seed; discriminate.
  - apply step_ok. exact IH.
Qed.

Lemma played_world_reachable : reachable played_world.
Proof.
  unfold played_world. apply reachable_run. apply reachable_init.
Qed.

(** X16. In every reachable game each player is on its own side, with
    funds that are not negative, momentum between -100 and 100, and so a
    momentum modifier between 0.5 and 1.5. *)
Theorem reachable_players (w : world) (gs : GameState.t) :
  reachable w ->
  GameEngine.game_state (fst w) = Some gs ->
  forall is_incumbent,
    let p := ActionProcessor.acting_player gs is_incumbent in
    Player.is_incumbent p = is_incumbent
    /\ (0 <= Player.funds p)%Z
    /\ (-100 <= Player.momentum p <= 100)%Z
    /\ Player.MIN_MOMENTUM p = (-100)%Z
    /\ Player.MAX_MOMENTUM p = 100%Z
    /\ 1 # 2 <= Player.momentum_modifier p <= 3 # 2.
Proof.
  intros Hr Hgs b p.
  destruct (reachable_ok w Hr gs Hgs) as ((Pi & Ii) & (Pc & Ic) & _).
  assert (H : player_ok p /\ Player.is_incumbent p = b)
    by (subst p; destruct b; split; assumption).
  destruct H as ((Hf & Hm & Hmin & Hmax) & Hb).
  split; [exact Hb |]. split; [exact Hf |]. split; [exact Hm |].
  split; [exact Hmin |]. split; [exact Hmax |].
  unfold Player.momentum_modifier, Num.of_int.
  destruct Hm as [M1 M2]. rewrite Zle_Qle in M1, M2.
  change (inject_Z (-100)) with (-100) in M1.
  change (inject_Z 100) with 100 in M2.
  set (m := inject_Z (Player.momentum p)) in *.
  unfold Qdiv. change (/ 200) with (1 # 200). lra.
Qed.

Lemma reachable_players_witness :
  exists gs,
    GameEngine.game_state (fst played_world) = Some gs
    /\ (0 <= Player.funds (GameState.challenger gs))%Z.
Proof.
  destruct (GameEngine.game_state (fst played_world)) as [gs |] eqn:E;
    [| vm_compute in E; discriminate].
  exists gs. split; [reflexivity |].
  destruct (reachable_players played_world gs played_world_reachable E false)
    as (_ & H & _).
  exact H.
Defined.

Lemma get_In {V : Type} (d : Dict.t V) k v :
  Dict.get d k = Some v -> In (k, v) d.
Proof.
  induction d as [| [k0 v0] d IH]; [discriminate |].
  simpl. destruct (String.eqb k k0) eqn:E.
  - apply String.eqb_eq in E. intros H. injection H as ->. left. congruence.
  - intros H. right. exact (IH H).
Qed.

Lemma initial_abbreviations k n a e r :
  In (k, (n, a, e, r)) (static_table INITIAL_STATES) -> a = k.
Proof.
  intros H. vm_compute in H.
  repeat (destruct H as [H | H]; [injection H as <- <- <- <- <-; reflexivity |]).
  contradiction.
Qed.

(** X17. In every reachable game the board has the fourteen shipped
    states, in order and without duplicate, each with its shipped name,
    votes and region, and each filed under its own abbreviation. *)
Theorem reachable_states (w : world) (gs : GameState.t) :
  reachable w ->
  GameEngine.game_state (fst w) = Some gs ->
  static_table (GameState.states gs) = static_table INITIAL_STATES
  /\ Dict.keys (GameState.states gs)
     = ["CA"; "NY"; "IL"; "BC"; "FL"; "PA"; "GA"; "MI"; "AZ"; "WI"; "OH"; "NC";
        "TX"; "RC"]
  /\ NoDup (Dict.keys (GameState.states gs))
  /\ (forall k s,
        Dict.get (GameState.states gs) k = Some s -> State.abbreviation s = k).
Proof.
  intros Hr Hgs.
  destruct (reachable_ok w Hr gs Hgs) as (_ & _ & St & _).
  assert (K : Dict.keys (GameState.states gs)
              = ["CA"; "NY"; "IL"; "BC"; "FL"; "PA"; "GA"; "MI"; "AZ"; "WI";
                 "OH"; "NC"; "TX"; "RC"]).
  { rewrite <- static_table_keys, St. reflexivity. }
  split; [exact St |]. split; [exact K |].
  split.
  - rewrite K.
    repeat (constructor;
            [intros H; simpl in H;
             repeat (destruct H as [H | H]; [discriminate H |]); exact H |]).
    constructor.
  - intros k s Hget. apply get_In in Hget.
    assert (Hin : In (k, static s) (static_table (GameState.states gs))).
    { unfold static_table.
      change (k, static s)
        with ((fun kv : string * State.t => (fst kv, static (snd kv))) (k, s)).
      apply in_map. exact Hget. }
    rewrite St in Hin. unfold static in Hin.
    exact (initial_abbreviations _ _ _ _ _ Hin).
Qed.

Lemma reachable_states_witness :
  exists gs,
    GameEngine.game_state (fst played_world) = Some gs
    /\ NoDup (Dict.keys (GameState.states gs)).
Proof.
  destruct (GameEngine.game_state (fst played_world)) as [gs |] eqn:E;
    [| vm_compute in E; discriminate].
  exists gs. split; [reflexivity |].
  destruct (reachable_states played_world gs played_world_reachable E)
    as (_ & _ & H & _).
  exact H.
Defined.

(** X18. In every reachable game the turn is between 1 and 20, the limit
    is 20, a winner is stored exactly when the game is over, and every
    logged event is in range and dated no later than the current turn;
    [is_game_over] and [get_turn_info] report these. *)
Theorem reachable_turns (w : world) (gs : GameState.t) :
  reachable w ->
  GameEngine.game_state (fst w) = Some gs ->
  (1 <= GameState.current_turn gs <= 20)%Z
  /\ GameState.max_turns gs = 20%Z
  /\ (1 <= GameState.turns_remaining gs <= 20)%Z
  /\ (GameState.game_over gs = false <-> GameState.winner gs = None)
  /\ (GameState.game_over gs = true
      <-> (GameState.winner gs = Some "Incumbent"
           \/ GameState.winner gs = Some "Challenger"))
  /\ Forall (fun ev =>
               (1 <= GameEvent.turn_occurred ev <= GameState.current_turn gs)%Z
               /\ event_in_range ev)
       (GameState.events_log gs)
  /\ GameEngine.is_game_over (fst w) = GameState.game_over gs
  /\ GameEngine.get_turn_info (fst w)
     = (GameState.current_turn gs, 20%Z, GameState.turns_remaining gs).
Proof.
  intros Hr Hgs.
  destruct (reachable_ok w Hr gs Hgs) as (_ & _ & _ & (Tn & Mx) & Ow & Ev).
  unfold GameState.turns_remaining. rewrite Mx in *.
  split; [lia |]. split; [reflexivity |]. split; [lia |].
  split; [| split; [| split; [exact Ev |]]].
  - destruct Ow as [[-> ->] | [-> [-> | ->]]];
      split; intros; try reflexivity; discriminate.
  - destruct Ow as [[-> ->] | [-> [-> | ->]]]; split; intros H;
      try reflexivity; try discriminate; auto.
    destruct H; discriminate.
  - unfold GameEngine.is_game_over, GameEngine.get_turn_info.
    unfold GameEngine.game_state in Hgs. rewrite Hgs.
    unfold GameState.turns_remaining. rewrite Mx. split; reflexivity.
Qed.

Lemma reachable_turns_witness :
  exists gs,
    GameEngine.game_state (fst played_world) = Some gs
    /\ (1 <= GameState.current_turn gs <= 20)%Z.
Proof.
  destruct (GameEngine.game_state (fst played_world)) as [gs |] eqn:E;
    [| vm_compute in E; discriminate].
  exists gs. split; [reflexivity |].
  destruct (reachable_turns played_world gs played_world_reachable E)
    as (H & _).
  exact H.
Defined.

(** X19. In every reachable game the election can be called: the final
    result is computed without error, the two totals add up to 538, the
    incumbent wins from 269 votes and the challenger from 270, and
    [end_game] stores that winner.  [end_turn] advances the turn before turn
    20 and ends the game from turn 20 on. *)
Theorem reachable_election_returns
    (w : world) (gs : GameState.t) (coins : Random.t) :
  reachable w ->
  GameEngine.game_state (fst w) = Some gs ->
  exists r gs',
    fst (ElectoralCalculator.calculate_final_result coins gs) = Ok r
    /\ fst (fst (GameEngine.end_game coins (fst w))) = Ok gs'
    /\ GameEngine.game_state (snd (fst (GameEngine.end_game coins (fst w))))
       = Some gs'
    /\ gs' = GameState.end_game gs (ElectionResult.winner r)
    /\ (ElectionResult.incumbent_evs r + ElectionResult.challenger_evs r)%Z
       = 538%Z
    /\ (ElectionResult.winner r = "Incumbent"
        <-> (269 <= ElectionResult.incumbent_evs r)%Z)
    /\ (ElectionResult.winner r = "Challenger"
        <-> (270 <= ElectionResult.challenger_evs r)%Z)
    /\ ((GameState.current_turn gs < 20)%Z ->
        fst (fst (GameEngine.end_turn coins (fst w)))
        = Ok (GameState.advance_turn gs))
    /\ ((20 <= GameState.current_turn gs)%Z ->
        GameEngine.end_turn coins (fst w) = GameEngine.end_game coins (fst w)).
Proof.
  intros Hr Hgs.
  pose proof (reachable_kept w Hr gs Hgs) as Hk.
  destruct (reachable_ok w Hr gs Hgs) as (_ & _ & _ & (Tn & Mx) & _).
  assert (Htot : GameState.total_electoral_votes gs = 538%Z).
  { unfold GameState.total_electoral_votes.
    rewrite ev_table_votes, Hk. reflexivity. }
  assert (Hne : GameState.total_electoral_votes gs <> 0%Z) by lia.
  destruct (calculate_final_result_returns coins gs Hne)
    as (r & Hres & Hi & Hc & Hw).
  destruct (assign_fold (GameState.states gs)
              (ElectoralCalculator.mk_tally 0 0 [] coins))
    as (bs & HF & Fi & Fc).
  simpl in Fi, Fc. rewrite <- Hi in Fi. rewrite <- Hc in Fc.
  assert (Hsum : (ElectionResult.incumbent_evs r
                  + ElectionResult.challenger_evs r)%Z = 538%Z).
  { rewrite Fi, Fc, <- Htot. apply votes_for_total. exact HF. }
  exists r, (GameState.end_game gs (ElectionResult.winner r)).
  unfold GameEngine.game_state in Hgs.
  assert (Eend : GameEngine.end_game coins (fst w)
                 = (Ok (GameState.end_game gs (ElectionResult.winner r)),
                    GameEngine.mk (GameEngine.action_processor (fst w))
                      (GameEngine.event_generator (fst w))
                      (Some (GameState.end_game gs (ElectionResult.winner r))),
                    snd (ElectoralCalculator.calculate_final_result coins gs))).
  { unfold GameEngine.end_game. rewrite Hgs.
    destruct (ElectoralCalculator.calculate_final_result coins gs)
      as [res c1].
    cbn [fst snd] in *. subst res. reflexivity. }
  split; [exact Hres |].
  split; [rewrite Eend; reflexivity |].
  split; [rewrite Eend; reflexivity |].
  split; [reflexivity |].
  split; [exact Hsum |].
  destruct (decide_winner_cases (ElectionResult.incumbent_evs r)
              (ElectionResult.challenger_evs r))
    as (W1 & W2 & W3 & W4 & W5).
  split; [| split; [| split]].
  - rewrite Hw. split.
    + intros H.
      destruct (Z_lt_le_dec (ElectionResult.incumbent_evs r) 269)
        as [Hlt | Hge]; [| exact Hge].
      rewrite W2 in H by lia. discriminate.
    + intros H.
      destruct (Z_lt_le_dec (ElectionResult.incumbent_evs r) 270)
        as [Hlt | Hge]; [| apply W1; exact Hge].
      apply W5; lia.
  - rewrite Hw. split.
    + intros H.
      destruct (Z_lt_le_dec (ElectionResult.challenger_evs r) 270)
        as [Hlt | Hge]; [| exact Hge].
      destruct (Z_lt_le_dec (ElectionResult.incumbent_evs r) 270)
        as [Hlt' | Hge'].
      * rewrite W5 in H by lia. discriminate.
      * rewrite W1 in H by lia. discriminate.
    + intros H. apply W2; lia.
  - intros Hlt. unfold GameEngine.end_turn. rewrite Hgs, Mx.
    replace (20 <=? GameState.current_turn gs)%Z with false
      by (symmetry; apply Z.leb_gt; exact Hlt).
    reflexivity.
  - intros Hge. unfold GameEngine.end_turn. rewrite Hgs, Mx.
    replace (20 <=? GameState.current_turn gs)%Z with true
      by (symmetry; apply Z.leb_le; exact Hge).
    reflexivity.
Qed.

Lemma reachable_election_returns_witness :
  exists gs r,
    GameEngine.game_state (fst played_world) = Some gs
    /\ fst (ElectoralCalculator.calculate_final_result always_low gs) = Ok r.
Proof.
  destruct (GameEngine.game_state (fst played_world)) as [gs |] eqn:E;
    [| vm_compute in E; discriminate].
  destruct (reachable_election_returns played_world gs always_low
              played_world_reachable E) as (r & gs' & H & _).
  exists gs, r. split; [reflexivity | exact H].
Defined.

(** ** A targeted action left to choose its own targets *)

Lemma target_fold_hit b effect l :
  NoDup l ->
  forall d sc k s,
    In k l ->
    Dict.get d k = Some s ->
    Dict.get (fst (fold_left (ActionProcessor.target_step b effect) l (d, sc))) k
    = Some (boost b effect s).
Proof.
  induction 1 as [| k0 l Hk0 Hl IH]; intros d sc k s Hin Hget; [contradiction |].
  cbn [fold_left].
  destruct (String.eqb k k0) eqn:E.
  - apply String.eqb_eq in E. subst k0.
    unfold ActionProcessor.target_step at 2. rewrite Hget.
    destruct (target_fold_spec b effect l
                (Dict.set d k
                   (if b then State.apply_support_change s effect 0
                    else State.apply_support_change s 0 effect))
                (Dict.set sc k effect)) as (_ & Hother & _).
    cbv zeta in Hother. unfold Dict.t in *.
    rewrite (Hother k Hk0). rewrite get_set_same.
    unfold boost. reflexivity.
  - apply String.eqb_neq in E.
    destruct Hin as [Hin | Hin]; [congruence |].
    unfold ActionProcessor.target_step at 2.
    destruct (Dict.get d k0) as [s0 |] eqn:G.
    + apply IH; [exact Hin |].
      rewrite get_set_other by exact E. exact Hget.
    + apply IH; assumption.
Qed.

Lemma select_target_states_facts gs b count :
  (0 <= count)%Z ->
  let chosen := ActionProcessor._select_target_states gs b count in
  incl chosen (Dict.keys (GameState.states gs))
  /\ List.length chosen
     = Nat.min (Z.to_nat count) (List.length (GameState.states gs))
  /\ slice_to chosen count = chosen
  /\ (NoDup (Dict.keys (GameState.states gs)) -> NoDup chosen).
Proof.
  intros Hc chosen. subst chosen.
  unfold ActionProcessor._select_target_states, slice_to.
  apply Z.leb_le in Hc. rewrite Hc.
  set (key := fun x : string * State.t => Qabs (State.margin (snd x))).
  rewrite (sorted_by_with key).
  set (l := sorted_with _ (GameState.states gs)).
  assert (Hp : Permutation l (GameState.states gs))
    by apply sorted_with_perm.
  assert (Hk : Permutation (map fst l) (Dict.keys (GameState.states gs)))
    by (apply Permutation_map; exact Hp).
  split; [| split; [| split]].
  - intros k Hin. apply (Permutation_in _ Hk).
    rewrite <- firstn_map in Hin.
    rewrite <- (firstn_skipn (Z.to_nat count) (map fst l)).
    apply in_or_app. left. exact Hin.
  - rewrite length_map, length_firstn.
    rewrite (Permutation_length Hp). reflexivity.
  - apply firstn_all2. rewrite length_map, length_firstn. lia.
  - intros Hnd.
    assert (Hnd' : NoDup (map fst l))
      by (apply (Permutation_NoDup (Permutation_sym Hk)); exact Hnd).
    rewrite <- firstn_map.
    rewrite <- (firstn_skipn (Z.to_nat count) (map fst l)) in Hnd'.
    apply NoDup_app_remove_r in Hnd'. exact Hnd'.
Qed.

(** X20. A payable targeted action given no targets, or an empty list,
    takes those of [_select_target_states]: as many states of the board as
    the action allows, reported as the affected states.  Support changes
    are recorded for exactly these, every other state is untouched, and on a
    board without duplicates each chosen state is replaced by
    [apply_support_change] of the effect on the acting side. *)
Theorem targeted_action_default_targets
    (rng : Random.t) (gs : GameState.t) (a : ActionType) (is_incumbent : bool)
    (targets : option (list string)) :
  let def := get_action_definition a in
  let p := ActionProcessor.acting_player gs is_incumbent in
  (0 < ActionDefinition.target_states def)%Z ->
  (ActionDefinition.cost def <= Player.funds p)%Z ->
  targets = None \/ targets = Some [] ->
  let out := ActionProcessor.execute_action rng gs a is_incumbent targets in
  let gs' := fst (fst out) in
  let r := snd (fst out) in
  let chosen :=
    ActionProcessor._select_target_states gs is_incumbent
      (ActionDefinition.target_states def) in
  let effect :=
    ActionDefinition.base_support_change def * Player.momentum_modifier p in
  ActionResult.affected_states r = chosen
  /\ incl chosen (Dict.keys (GameState.states gs))
  /\ List.length chosen
     = Nat.min (Z.to_nat (ActionDefinition.target_states def))
         (List.length (GameState.states gs))
  /\ (forall k,
        ~ In k chosen ->
        Dict.get (GameState.states gs') k = Dict.get (GameState.states gs) k)
  /\ (forall k, In k (Dict.keys (ActionResult.support_changes r)) <-> In k chosen)
  /\ (NoDup (Dict.keys (GameState.states gs)) ->
      forall k s,
        In k chosen ->
        Dict.get (GameState.states gs) k = Some s ->
        Dict.get (GameState.states gs') k = Some (boost is_incumbent effect s)).
Proof.
  intros def p Htargeted Hafford Hts out gs' r chosen effect.
  destruct (select_target_states_facts gs is_incumbent
              (ActionDefinition.target_states def) ltac:(lia))
    as (Hincl & Hlen & Hslice & Hnd).
  fold chosen in Hincl, Hlen, Hslice, Hnd.
  assert (Hout : fst out
                 = ActionProcessor._execute_targeted_action gs is_incumbent def
                     targets).
  { subst out.
    rewrite (execute_action_affordable rng gs a is_incumbent targets Hafford).
    subst def. destruct a; try reflexivity; cbn in Htargeted; lia. }
  subst gs' r. rewrite Hout.
  unfold ActionProcessor._execute_targeted_action. fold p. fold effect.
  assert (Hsel :
            slice_to
              (match targets with
               | Some ((_ :: _) as ts) => ts
               | _ =>
                   ActionProcessor._select_target_states gs is_incumbent
                     (ActionDefinition.target_states def)
               end) (ActionDefinition.target_states def)
            = chosen)
    by (destruct Hts as [-> | ->]; exact Hslice).
  rewrite Hsel.
  match goal with
  | |- context [fold_left (ActionProcessor.target_step ?bb ?eff) ?l (?d, ?sc)] =>
      pose proof (target_fold_spec bb eff l d sc) as Hspec;
      pose proof (fun Hn => target_fold_hit bb eff l Hn d sc) as Hhit;
      cbv zeta in Hspec; unfold Dict.t in *
  end.
  destruct (fold_left _ chosen _) as [d' sc'].
  cbn [fst snd] in *.
  destruct Hspec as (Hk & Hg & Hs).
  rewrite rebuild_states.
  cbn [ActionResult.affected_states ActionResult.support_changes].
  split; [reflexivity |]. split; [exact Hincl |]. split; [exact Hlen |].
  split; [exact Hg |]. split.
  - intros k. rewrite Hs. simpl. split.
    + intros [[] | [H _]]. exact H.
    + intros H. right. split; [exact H | apply Hincl; exact H].
  - intros Hn k s Hin Hget.
    apply Hhit; [apply Hnd; exact Hn | exact Hin | exact Hget].
Qed.

Lemma targeted_action_default_targets_witness :
  let out :=
    ActionProcessor.execute_action always_low (game_with 15 0 15 0) AD_CAMPAIGN
      true None in
  ActionResult.affected_states (snd (fst out))
  = ActionProcessor._select_target_states (game_with 15 0 15 0) true 3.
Proof.
  intros out.
  destruct (targeted_action_default_targets always_low (game_with 15 0 15 0)
              AD_CAMPAIGN true None) as (H & _).
  - cbn. lia.
  - cbn. lia.
  - left. reflexivity.
  - exact H.
Defined.
